(** * Cuckoo and scalable Bloom filters: a shallow embedding

    The development follows [cuckoo-filter.ts] (class [CuckooFilter]) and
    [bloom/scalable-bloom-filter.mts] (class [ScalableBloomFilter]).

    Conventions.
    - A JavaScript [number] that holds a size, an index or a counter is a [Z];
      a [bigint] is a [Z]; [BigInt.asUintN(w, x)] is [x mod 2^w].
    - A value of the 64-bit hash library is reduced to its unsigned 64-bit
      range where it enters the model.
    - The doubles of the sizing of [create] and of [rate()] are binary64
      values (module [Number], over [SpecFloat]) with the operations of
      IEEE 754; [Math.log2] and [Math.pow], which the language leaves to the
      engine, are parameters. The draws of the generator, the load of a
      filter and the sizes and rates of the scalable filter are rationals.
    - A method that may throw returns an [outcome]; a method that mutates
      [this] returns the new object next to its outcome. *)

From Stdlib Require Import ZArith QArith Qround Lia Ascii String.
From Stdlib Require Import DecimalString DecimalZ SpecFloat.
From stdpp Require Import base list strings.

Close Scope Q_scope.
Local Open Scope Z_scope.

(** ** Outcomes of a method call *)

Inductive error : Type :=
| InvalidArgument   (* [throw new Error(...)] of [_locations] *)
| FilterFull        (* [throw new Error(...)] of [add] when the filter is full *)
| TypeError         (* a member access on [undefined] or [null] *)
| RangeError.       (* [BigInt(x)] on a number that is not an integer *)

Inductive outcome (A : Type) : Type :=
| Returned (a : A)
| Thrown (e : error).
Arguments Returned {A} a.
Arguments Thrown {A} e.

(** ** Host numbers and strings *)

(** [BigInt.asUintN(w, x)] *)
Definition asUintN (w : Z) (x : Z) : Z := x mod 2 ^ w.

(** The digits of a positive number in base two, most significant first,
    in front of [acc]. *)
Fixpoint pos_digits (p : positive) (acc : string) : string :=
  match p with
  | xH => String "1"%char acc
  | xO p' => pos_digits p' (String "0"%char acc)
  | xI p' => pos_digits p' (String "1"%char acc)
  end.

(** [x.toString(2)] on a bigint *)
Definition toString2 (x : Z) : string :=
  match x with
  | Z0 => "0"
  | Zpos p => pos_digits p EmptyString
  | Zneg p => String "-"%char (pos_digits p EmptyString)
  end.

Fixpoint zeros (n : nat) : string :=
  match n with
  | O => EmptyString
  | S n' => String "0"%char (zeros n')
  end.

(** [s.padStart(n, '0')] *)
Definition padStart (n : nat) (s : string) : string :=
  zeros (n - String.length s) +:+ s.

Fixpoint drop_chars (n : nat) (s : string) : string :=
  match n, s with
  | O, _ => s
  | S n', String _ s' => drop_chars n' s'
  | S _, EmptyString => EmptyString
  end.

(** [s.substring(start)]: a negative start counts as 0 and a start past the
    end yields the empty string. *)
Definition substring (start : Z) (s : string) : string :=
  drop_chars (Z.to_nat start) s.

(** [hash.toString(2).padStart(64, '0')] *)
Definition hashstr (h : Z) : string := padStart 64 (toString2 h).

(** The number a string of binary digits denotes. *)
Fixpoint digits_value (acc : Z) (s : string) : Z :=
  match s with
  | EmptyString => acc
  | String c s' => digits_value (2 * acc + (if Ascii.eqb c "1"%char then 1 else 0)) s'
  end.

(** ** Exported forms *)

(** Modelled from the spec: [utils.exportBigInt] and [utils.importBigInt]
    are absent; a big integer is exported as
    [{ type: "BigInt", value: "<decimal-string>" }]. The import reads the
    decimal string back and fails ([None]) on a string that is no number. *)
Module ExportedBigInt.
Record t : Type := mk { type : string; value : string }.
End ExportedBigInt.

Definition exportBigInt (x : Z) : ExportedBigInt.t :=
  {| ExportedBigInt.type := "BigInt";
     ExportedBigInt.value := NilZero.string_of_int (Z.to_int x) |}.

Definition importBigInt (e : ExportedBigInt.t) : option Z :=
  match NilZero.int_of_string (ExportedBigInt.value e) with
  | Some d => Some (Z.of_int d)
  | None => None
  end.

(** Modelled from the spec: the exported form of a bucket is
    [{ _size, _elements }]. *)
Module ExportedBucket.
Record t : Type := mk { _size : Z; _elements : list (option string) }.
End ExportedBucket.

(** ** Buckets *)

Module Bucket.

(** Modelled from the spec: [bucket.ts] is absent. A bucket is a
    fixed-capacity ordered sequence of up to [_size] fingerprints; its
    exported form is [{ _size, _elements }]. The slots keep their position
    under [set] and [at]; an empty slot is [None] (JavaScript [null]). The
    length of a bucket is the number of fingerprints it holds and a bucket
    is free iff its length is below its capacity. *)
Record t : Type := mk { _size : Z; _elements : list (option string) }.

Definition create (size : Z) : t :=
  mk size (replicate (Z.to_nat size) None).

Fixpoint occupied (l : list (option string)) : Z :=
  match l with
  | [] => 0
  | None :: l' => occupied l'
  | Some _ :: l' => 1 + occupied l'
  end.

Definition length (b : t) : Z := occupied (_elements b).

Definition isFree (b : t) : bool := length b <? _size b.

(** [at(index)]: [None] stands for [null] (an empty slot) and for
    [undefined] (no such slot). *)
Definition at_ (b : t) (index : Z) : option string :=
  if index <? 0 then None else mjoin (_elements b !! Z.to_nat index).

(** [set(index, element)]: an assignment to an array cell. Past the end a
    JavaScript array grows, the gap being left empty; a negative index
    leaves the cells as they are. *)
Definition set (b : t) (index : Z) (element : option string) : t :=
  if index <? 0 then b
  else if (Z.to_nat index <? List.length (_elements b))%nat
  then mk (_size b) (<[Z.to_nat index := element]> (_elements b))
  else mk (_size b)
          (_elements b
             ++ replicate (Z.to_nat index - List.length (_elements b))%nat None
             ++ [element]).

(** The first empty slot receives the element. *)
Fixpoint put (l : list (option string)) (e : string) : list (option string) :=
  match l with
  | [] => []
  | None :: l' => Some e :: l'
  | Some x :: l' => Some x :: put l' e
  end.

Definition add (b : t) (element : string) : t :=
  if isFree b then mk (_size b) (put (_elements b) element) else b.

Definition has (b : t) (element : string) : bool :=
  bool_decide (Some element ∈ _elements b).

(** The first slot that holds the element is emptied. *)
Fixpoint unset_first (l : list (option string)) (e : string)
  : list (option string) :=
  match l with
  | [] => []
  | x :: l' =>
      if bool_decide (x = Some e) then None :: l' else x :: unset_first l' e
  end.

Definition remove (b : t) (element : string) : t :=
  mk (_size b) (unset_first (_elements b) element).

(** Length-and-content equality. *)
Definition equals (b other : t) : bool :=
  (_size b =? _size other) && (length b =? length other)
  && bool_decide (_elements b = _elements other).

(** The number of slots that hold a fingerprint, and a bucket that lost
    one occurrence of a fingerprint and nothing else. *)
Fixpoint count_slots (l : list (option string)) (e : string) : Z :=
  match l with
  | [] => 0
  | x :: l' => (if bool_decide (x = Some e) then 1 else 0) + count_slots l' e
  end.

Definition count (b : t) (e : string) : Z := count_slots (_elements b) e.

Definition removed_one (b b' : t) (e : string) : Prop :=
  count b' e = count b e - 1
  /\ (forall e', e' <> e -> count b' e' = count b e')
  /\ length b' = length b - 1
  /\ _size b' = _size b.

(** A bucket as the constructor and the methods above leave it. *)
Definition wf (b : t) : Prop :=
  Z.of_nat (List.length (_elements b)) = _size b.

(** Modelled from the spec: the export keeps the capacity and the slots,
    the import rebuilds the bucket from them. *)
Definition saveAsJSON (b : t) : ExportedBucket.t :=
  {| ExportedBucket._size := _size b;
     ExportedBucket._elements := _elements b |}.

Definition fromJSON (e : ExportedBucket.t) : t :=
  mk (ExportedBucket._size e) (ExportedBucket._elements e).

End Bucket.

(** ** Helpers of [utils.ts] *)

(** Modelled from the spec: [utils.getNearestPow2] is absent; the size is
    rounded up to the nearest power of two, so the result is the least power
    of two that is at least [x]. *)
Definition getNearestPow2 (x : Z) : Z :=
  if x <=? 1 then 1 else 2 ^ Z.log2_up x.

(** Modelled from the spec: [utils.allocateArray] is absent; it builds an
    array of the given size whose cells hold the default value. *)
Definition allocateArray {A : Type} (size : Z) (default : A) : list A :=
  replicate (Z.to_nat size) default.

(** Modelled from the spec: [utils.randomInt] is absent; from a uniform
    float [u] of [[0,1)] the derived integer of [[lo, hi]] is
    [lo + floor(u * (hi - lo + 1))]. *)
Definition randomInt {prng : Type} (random : prng -> Q * prng)
    (lo hi : Z) (g : prng) : Z * prng :=
  let (u, g') := random g in
  (lo + Qfloor (u * inject_Z (hi - lo + 1)), g').

(** ** Doubles

    A JavaScript [number] in a computation that rounds: a binary64 value,
    with the operations of IEEE 754 (round to nearest, ties to even). *)

Module Number.

Definition t : Type := spec_float.
Definition prec : Z := 53.
Definition emax : Z := 1024.

Definition NaN : t := S754_nan.

(** The double of an integer literal or of an integer-valued variable. *)
Definition ofZ (z : Z) : t := binary_normalize prec emax z 0 false.

Definition add : t -> t -> t := SFadd prec emax.
Definition sub : t -> t -> t := SFsub prec emax.
Definition mul : t -> t -> t := SFmul prec emax.
Definition div : t -> t -> t := SFdiv prec emax.

(** [x <= y] *)
Definition leb : t -> t -> bool := SFleb.

(** The decimal literal that denotes [num / den], two integers below
    [2^53]: the double nearest to the quotient. *)
Definition literal (num den : Z) : t := div (ofZ num) (ofZ den).

(** The double of a quotient of two integers kept as a rational. *)
Definition ofQ (q : Q) : t := div (ofZ (Qnum q)) (ofZ (Zpos (Qden q))).

(** [Math.max(x, y)] *)
Definition max (x y : t) : t :=
  match SFcompare x y with
  | None => NaN
  | Some Lt => y
  | Some Gt => x
  | Some Eq => match x with S754_zero true => y | _ => x end
  end.

(** [Math.ceil(x)] *)
Definition ceil (x : t) : t :=
  match x with
  | S754_finite s m e =>
      if 0 <=? e then x
      else binary_normalize prec emax
             (if s then - (Zpos m / 2 ^ (- e)) else - (Zneg m / 2 ^ (- e)))
             0 s
  | _ => x
  end.

(** The integer a double stands for, as [BigInt(x)] takes it: [None] for
    NaN, the infinities and the doubles with a fractional part, where
    [BigInt(x)] throws a [RangeError]. *)
Definition integer (x : t) : option Z :=
  match x with
  | S754_zero _ => Some 0
  | S754_finite s m e =>
      let v := if s then Zneg m else Zpos m in
      if 0 <=? e then Some (v * 2 ^ e)
      else if v mod 2 ^ (- e) =? 0 then Some (v / 2 ^ (- e)) else None
  | _ => None
  end.

End Number.

(** ** The cuckoo filter *)

(** The interface [ExportedCuckooFilter]. *)
Module ExportedCuckooFilter.
Record t : Type := mk {
  _size : Z;
  _fingerprintLength : Z;
  _length : Z;
  _maxKicks : Z;
  _filter : list ExportedBucket.t;
  _seed : ExportedBigInt.t;
  _bucketSize : Z
}.
End ExportedCuckooFilter.

(** The object [_computeHashTableLoad()] returns. *)
Module HashTableLoad.
Record t : Type := mk { used : Z; free : Z; size : Z; load : Q }.
End HashTableLoad.

Module CuckooFilter.

(** [computeFingerpintLength(size, rate)]; [log2] is [Math.log2]. *)
Definition computeFingerpintLength (log2 : Number.t -> Number.t)
    (size rate : Number.t) : Number.t :=
  Number.ceil
    (Number.add (log2 (Number.div (Number.ofZ 1) rate))
                (log2 (Number.mul (Number.ofZ 2) size))).

Section WithLibraries.

(** The 64-bit hash of the hashing library, [xxh64(input, seed)]. *)
Variable xxh64 : string -> Z -> Z.
(** Modelled from the spec: [base-filter.ts] is absent. Every filter carries
    a seed and a generator seeded from it: [prng] is the state of the
    generator behind [this.random], [random] one draw of a uniform float of
    [[0,1)], [seedrandom] the generator a seed starts, and [defaultSeed] the
    library-wide seed a new filter has. *)
Variable prng : Type.
Variable random : prng -> Q * prng.
Variable seedrandom : Z -> prng.
Variable defaultSeed : Z.
(** [Math.log2], an approximation the language leaves to the engine. *)
Variable log2 : Number.t -> Number.t.

(** The fields of [CuckooFilter], with [_seed] and [_rng] of [BaseFilter]. *)
Record t : Type := mk {
  _filter : list Bucket.t;
  _size : Z;
  _bucketSize : Z;
  _fingerprintLength : Z;
  _length : Z;
  _maxKicks : Z;
  _seed : Z;
  _rng : prng
}.

Definition with_filter (f : t) (bs : list Bucket.t) : t :=
  mk bs (_size f) (_bucketSize f) (_fingerprintLength f) (_length f)
     (_maxKicks f) (_seed f) (_rng f).

Definition with_length (f : t) (n : Z) : t :=
  mk (_filter f) (_size f) (_bucketSize f) (_fingerprintLength f) n
     (_maxKicks f) (_seed f) (_rng f).

Definition with_rng (f : t) (g : prng) : t :=
  mk (_filter f) (_size f) (_bucketSize f) (_fingerprintLength f) (_length f)
     (_maxKicks f) (_seed f) g.

(** [this._filter[index]]; [None] is [undefined]. *)
Definition bucket (f : t) (index : Z) : option Bucket.t :=
  if index <? 0 then None else _filter f !! Z.to_nat index.

(** The bucket object at [index] is replaced by its mutated state. *)
Definition set_bucket (f : t) (index : Z) (b : Bucket.t) : t :=
  with_filter f (<[Z.to_nat index := b]> (_filter f)).

Definition constructor (size fingerprintSize bucketSize maxKicks : Z) : t :=
  let s := asUintN 32 (getNearestPow2 size) in
  {| _filter := allocateArray s (Bucket.create bucketSize);
     _size := s;
     _bucketSize := bucketSize;
     _fingerprintLength := fingerprintSize;
     _length := 0;
     _maxKicks := maxKicks;
     _seed := defaultSeed;
     _rng := seedrandom defaultSeed |}.

Definition hash (f : t) (element : string) : Z :=
  asUintN 64 (xxh64 element (_seed f)).

(** [Math.ceil(Math.max(size, 32) / bucketSize / 0.955)] *)
Definition capacity (size bucketSize : Z) : Number.t :=
  Number.ceil
    (Number.div
       (Number.div (Number.max (Number.ofZ size) (Number.ofZ 32))
                   (Number.ofZ bucketSize))
       (Number.literal 955 1000)).

(** [create(size, errorRate, bucketSize, maxKicks)], for an integer [size]
    and an integer [bucketSize]. The constructor starts with
    [BigInt(capacity)], which throws a [RangeError] unless the capacity is an
    integer. The fields of [t] are integers: where the fingerprint length
    comes out as NaN or infinite, which the code stores as it is, the result
    is [None]. *)
Definition create (size : Z) (errorRate : Number.t)
    (bucketSize maxKicks : Z) : option (outcome t) :=
  let fl := computeFingerpintLength log2 (Number.ofZ bucketSize) errorRate in
  match Number.integer (capacity size bucketSize) with
  | None => Some (Thrown RangeError)
  | Some c =>
      match Number.integer fl with
      | None => None
      | Some k => Some (Returned (constructor c k bucketSize maxKicks))
      end
  end.

Record locations : Type := mkLocations {
  fingerprint : string;
  firstIndex : Z;
  secondIndex : Z
}.

(** [_locations(element)]. The remainder [%] is [Z.rem]; the two agree
    unless [_size] is 0, where JavaScript yields [NaN] and every bucket
    access that follows fails as it does here on an index out of range. *)
Definition _locations (f : t) (element : string) : outcome locations :=
  let h := hash f element in
  let hs := hashstr h in
  if Z.of_nat (String.length hs) <? _fingerprintLength f
  then Thrown InvalidArgument
  else
    let fp := substring (Z.of_nat (String.length hs) - _fingerprintLength f) hs in
    let first := h in
    let second := Z.lxor first (hash f fp) in
    Returned {| fingerprint := fp;
                firstIndex := Z.rem (asUintN 32 first) (_size f);
                secondIndex := Z.rem (asUintN 32 second) (_size f) |}.

(** An entry [[index, rndIndex, tmp]] of the undo log. *)
Definition log : Type := Z * Z * option string.

Inductive kicked : Type :=
| Placed (f : t)                       (* [return true] inside the loop *)
| Exhausted (f : t) (logs : list log)  (* the loop ran [_maxKicks] times *)
| Crashed (f : t).                     (* a [TypeError] escaped *)

(** The relocation loop of [add]; [nbTry] counts the iterations left. The
    head of [logs] is the entry pushed last. *)
Fixpoint kick (nbTry : nat) (f : t) (fp : string) (index : Z)
    (logs : list log) : kicked :=
  match nbTry with
  | O => Exhausted f logs
  | S n =>
      match bucket f index with
      | None => Crashed f
      | Some b =>
          let (rndIndex, g) :=
            randomInt random 0 (Bucket.length b - 1) (_rng f) in
          let tmp := Bucket.at_ b rndIndex in
          let logs := (index, rndIndex, tmp) :: logs in
          let f := set_bucket (with_rng f g) index
                     (Bucket.set b rndIndex (Some fp)) in
          match tmp with
          | None => Crashed f
          | Some tmp =>
              let index :=
                Z.rem (asUintN 32 (Z.lxor index (hash f tmp))) (_size f) in
              match bucket f index with
              | None => Crashed f
              | Some b' =>
                  if Bucket.isFree b'
                  then Placed (with_length
                                 (set_bucket f index (Bucket.add b' tmp))
                                 (_length f + 1))
                  else kick n f tmp index logs
              end
          end
      end
  end.

(** [while ((log = logs.pop())) this._filter[log[0]].set(log[1], log[2])] *)
Fixpoint rollback (logs : list log) (f : t) : t :=
  match logs with
  | [] => f
  | (index, slot, previous) :: logs' =>
      rollback logs'
        match bucket f index with
        | Some b => set_bucket f index (Bucket.set b slot previous)
        | None => f
        end
  end.

Definition add (f : t) (element : string) (throwError destructive : bool)
  : outcome bool * t :=
  match _locations f element with
  | Thrown e => (Thrown e, f)
  | Returned loc =>
      match bucket f (firstIndex loc) with
      | None => (Thrown TypeError, f)
      | Some b1 =>
          if Bucket.isFree b1
          then (Returned true,
                with_length
                  (set_bucket f (firstIndex loc)
                     (Bucket.add b1 (fingerprint loc)))
                  (_length f + 1))
          else
            match bucket f (secondIndex loc) with
            | None => (Thrown TypeError, f)
            | Some b2 =>
                if Bucket.isFree b2
                then (Returned true,
                      with_length
                        (set_bucket f (secondIndex loc)
                           (Bucket.add b2 (fingerprint loc)))
                        (_length f + 1))
                else
                  let (u, g) := random (_rng f) in
                  let index :=
                    if Qle_bool (1 # 2) u then secondIndex loc
                    else firstIndex loc in
                  match kick (Z.to_nat (_maxKicks f)) (with_rng f g)
                          (fingerprint loc) index [] with
                  | Placed f' => (Returned true, f')
                  | Crashed f' => (Thrown TypeError, f')
                  | Exhausted f' logs =>
                      let f'' := if destructive then f' else rollback logs f' in
                      (if throwError then Thrown FilterFull
                       else Returned false, f'')
                  end
            end
      end
  end.

Definition remove (f : t) (element : string) : outcome bool * t :=
  match _locations f element with
  | Thrown e => (Thrown e, f)
  | Returned loc =>
      match bucket f (firstIndex loc) with
      | None => (Thrown TypeError, f)
      | Some b1 =>
          if Bucket.has b1 (fingerprint loc)
          then (Returned true,
                with_length
                  (set_bucket f (firstIndex loc)
                     (Bucket.remove b1 (fingerprint loc)))
                  (_length f - 1))
          else
            match bucket f (secondIndex loc) with
            | None => (Thrown TypeError, f)
            | Some b2 =>
                if Bucket.has b2 (fingerprint loc)
                then (Returned true,
                      with_length
                        (set_bucket f (secondIndex loc)
                           (Bucket.remove b2 (fingerprint loc)))
                        (_length f - 1))
                else (Returned false, f)
            end
      end
  end.

Definition has (f : t) (element : string) : outcome bool :=
  match _locations f element with
  | Thrown e => Thrown e
  | Returned loc =>
      match bucket f (firstIndex loc) with
      | None => Thrown TypeError
      | Some b1 =>
          if Bucket.has b1 (fingerprint loc) then Returned true
          else
            match bucket f (secondIndex loc) with
            | None => Thrown TypeError
            | Some b2 => Returned (Bucket.has b2 (fingerprint loc))
            end
      end
  end.

(** The field [used] of [_computeHashTableLoad()]. *)
Definition used (f : t) : Z :=
  foldl (fun acc val => acc + Bucket.length val) 0 (_filter f).

(** The loop of [equals], from cell [i] of [this._filter] on. *)
Fixpoint equals_from (i : nat) (mine : list Bucket.t)
    (theirs : list Bucket.t) : outcome bool :=
  match mine with
  | [] => Returned true
  | b :: mine' =>
      match theirs !! i with
      | None => Thrown TypeError
      | Some o =>
          if Bucket.equals o b then equals_from (S i) mine' theirs
          else Returned false
      end
  end.

Definition equals (f filter : t) : outcome bool :=
  equals_from 0 (_filter f) (_filter filter).

End WithLibraries.

Arguments mk {prng}.
Arguments _filter {prng} _.
Arguments _size {prng} _.
Arguments _bucketSize {prng} _.
Arguments _fingerprintLength {prng} _.
Arguments _length {prng} _.
Arguments _maxKicks {prng} _.
Arguments _seed {prng} _.
Arguments _rng {prng} _.
Arguments with_filter {prng}.
Arguments with_length {prng}.
Arguments with_rng {prng}.
Arguments bucket {prng}.
Arguments set_bucket {prng}.
Arguments constructor {prng}.
Arguments hash _ {prng}.
Arguments create {prng}.
Arguments _locations _ {prng}.
Arguments Placed {prng}.
Arguments Exhausted {prng}.
Arguments Crashed {prng}.
Arguments kick _ {prng}.
Arguments rollback {prng}.
Arguments add _ {prng}.
Arguments remove _ {prng}.
Arguments has _ {prng}.
Arguments used {prng}.
Arguments equals {prng}.

(** The calls a client makes, and a filter driven through a list of them;
    a caller that catches an exception goes on with the filter as the call
    left it. *)
Inductive call : Type :=
| Add (element : string) (throwError destructive : bool)
| Remove (element : string)
| Has (element : string).

Definition step (xxh64 : string -> Z -> Z) {prng : Type}
    (random : prng -> Q * prng) (f : t prng) (c : call)
  : outcome bool * t prng :=
  match c with
  | Add x throwError destructive => add xxh64 random f x throwError destructive
  | Remove x => remove xxh64 f x
  | Has x => (has xxh64 f x, f)
  end.

Fixpoint run (xxh64 : string -> Z -> Z) {prng : Type}
    (random : prng -> Q * prng) (f : t prng) (cs : list call) : t prng :=
  match cs with
  | [] => f
  | c :: cs' => run xxh64 random (snd (step xxh64 random f c)) cs'
  end.

(** The filters the constructor builds from a positive bucket size and a
    size of at most [2^31], and the methods keep: [_size] buckets, a power
    of two of them, each with [_bucketSize] slots. *)
Definition wf {prng : Type} (f : t prng) : Prop :=
  Z.of_nat (List.length (_filter f)) = _size f
  /\ (exists k, 0 <= k <= 32 /\ _size f = 2 ^ k)
  /\ 0 < _bucketSize f
  /\ Forall (fun b => Bucket.wf b /\ Bucket._size b = _bucketSize f)
            (_filter f).

(** One kick: slot [r] of the full bucket [index] takes the fingerprint in
    hand, its previous content [tmp] is carried to the other bucket. *)
Definition kicked_from (xxh64 : string -> Z -> Z) {prng : Type}
    (f : t prng) (fp : string) (index : Z)
    (f' : t prng) (tmp : string) (index' : Z) : Prop :=
  exists b r g,
    bucket f index = Some b
    /\ Bucket.isFree b = false
    /\ Bucket.at_ b r = Some tmp
    /\ f' = set_bucket (with_rng f g) index (Bucket.set b r (Some fp))
    /\ index' = Z.rem (asUintN 32 (Z.lxor index (hash xxh64 f tmp))) (_size f).

(** The insertion that ends a relocation. *)
Definition placed_from {prng : Type} (f : t prng) (fp : string) (index : Z)
    (f' : t prng) : Prop :=
  exists b,
    bucket f index = Some b
    /\ Bucket.isFree b = true
    /\ f' = with_length (set_bucket f index (Bucket.add b fp)) (_length f + 1).

(** What a call never touches: the sizing, the kick bound and the seed. *)
Definition same_parameters {prng : Type} (f f' : t prng) : Prop :=
  _size f' = _size f
  /\ _bucketSize f' = _bucketSize f
  /\ _fingerprintLength f' = _fingerprintLength f
  /\ _maxKicks f' = _maxKicks f
  /\ _seed f' = _seed f.

(** Bucket [i] holds the fingerprint [e]; the filter holds the fingerprint
    of [x] in one of the two buckets of [x]. *)
Definition in_bucket {prng : Type} (f : t prng) (i : Z) (e : string) : Prop :=
  exists b, bucket f i = Some b /\ Bucket.has b e = true.

Definition held (xxh64 : string -> Z -> Z) {prng : Type} (f : t prng)
    (x : string) : Prop :=
  exists loc,
    _locations xxh64 f x = Returned loc
    /\ (in_bucket f (firstIndex loc) (fingerprint loc)
        \/ in_bucket f (secondIndex loc) (fingerprint loc)).

(** During a relocation started from [f0], the fingerprint [e], whose
    buckets are [i1] and [i2], is in one of them or in hand on its way to one
    of them. *)
Definition tracked {prng : Type} (f0 : t prng) (e : string) (i1 i2 : Z)
    (f : t prng) (fp : string) (index : Z) : Prop :=
  same_parameters f0 f
  /\ (in_bucket f i1 e \/ in_bucket f i2 e
      \/ (fp = e /\ (index = i1 \/ index = i2))).

(** [y] collides with [x]: both have the same fingerprint and a bucket of
    [y] is a bucket of [x]. *)
Definition collides (xxh64 : string -> Z -> Z) {prng : Type} (f : t prng)
    (x y : string) : Prop :=
  exists lx ly,
    _locations xxh64 f x = Returned lx
    /\ _locations xxh64 f y = Returned ly
    /\ fingerprint ly = fingerprint lx
    /\ (firstIndex ly = firstIndex lx \/ firstIndex ly = secondIndex lx
        \/ secondIndex ly = firstIndex lx \/ secondIndex ly = secondIndex lx).

(** The calls that cannot take the fingerprint of [x] out of the filter:
    an [add] that keeps its rollback or succeeds, a [remove] of an element
    that does not collide with [x], a [has]. *)
Definition harmless (xxh64 : string -> Z -> Z) {prng : Type}
    (random : prng -> Q * prng) (f : t prng) (x : string) (c : call) : Prop :=
  match c with
  | Add y throwError destructive =>
      destructive = false
      \/ fst (add xxh64 random f y throwError destructive) = Returned true
  | Remove y => ~ collides xxh64 f x y
  | Has _ => True
  end.

Fixpoint all_harmless (xxh64 : string -> Z -> Z) {prng : Type}
    (random : prng -> Q * prng) (f : t prng) (x : string) (cs : list call)
  : Prop :=
  match cs with
  | [] => True
  | c :: cs' =>
      harmless xxh64 random f x c
      /\ all_harmless xxh64 random (snd (step xxh64 random f c)) x cs'
  end.

(** The counter agrees with the buckets of a well-formed filter. *)
Definition consistent {prng : Type} (f : t prng) : Prop :=
  wf f /\ _length f = used f.

(** The generator draws from [[0,1)]. *)
Definition unit_random {prng : Type} (random : prng -> Q * prng) : Prop :=
  forall g, (0 <= fst (random g))%Q /\ (fst (random g) < 1)%Q.

Section Rest.

Variable xxh64 : string -> Z -> Z.
Context {prng : Type}.
Variable random : prng -> Q * prng.
Variable seedrandom : Z -> prng.
Variable defaultSeed : Z.
(** [Math.log2] and [Math.pow] of the engine. *)
Variable log2 : Number.t -> Number.t.
Variable pow : Number.t -> Number.t -> Number.t.

(** Modelled from the spec: the seed setter of [BaseFilter] (absent) stores
    the seed and restarts the generator from it. *)
Definition set_seed (f : t prng) (seed : Z) : t prng :=
  mk (_filter f) (_size f) (_bucketSize f) (_fingerprintLength f) (_length f)
     (_maxKicks f) seed (seedrandom seed).

(** [array.forEach(item => filter.add(item))]: the result of [add] is
    dropped, an exception of [add] ends the loop and leaves [from]. *)
Fixpoint add_all (f : t prng) (items : list string) : outcome (t prng) :=
  match items with
  | [] => Returned f
  | item :: items' =>
      match add xxh64 random f item false false with
      | (Thrown e, _) => Thrown e
      | (Returned _, f') => add_all f' items'
      end
  end.

(** [from(items, errorRate, bucketSize, maxKicks, seed)]; [seed] is [None]
    when the argument is left out, and [if (seed)] also skips the seed 0. *)
Definition from (items : list string) (errorRate : Number.t)
    (bucketSize maxKicks : Z) (seed : option Z)
  : option (outcome (t prng)) :=
  match create seedrandom defaultSeed log2 (Z.of_nat (List.length items))
          errorRate bucketSize maxKicks with
  | None => None
  | Some (Thrown e) => Some (Thrown e)
  | Some (Returned filter) =>
      let filter :=
        match seed with
        | Some s => if s =? 0 then filter else set_seed filter s
        | None => filter
        end in
      Some (add_all filter items)
  end.

(** The getters [size] and [fullSize]. *)
Definition size (f : t prng) : Z := _size f.
Definition fullSize (f : t prng) : Z := size f * _bucketSize f.

(** [_computeHashTableLoad()]; the quotient [used / max] is the one of [Q],
    which is 0 where JavaScript divides by zero. *)
Definition _computeHashTableLoad (f : t prng) : HashTableLoad.t :=
  let max := Z.of_nat (List.length (_filter f)) * _bucketSize f in
  let used := used f in
  {| HashTableLoad.used := used;
     HashTableLoad.free := max - used;
     HashTableLoad.size := max;
     HashTableLoad.load := (inject_Z used / inject_Z max)%Q |}.

(** [rate()]; [load.load] is the double of the quotient the report holds. *)
Definition rate (f : t prng) : Number.t :=
  let load := Number.ofQ (HashTableLoad.load (_computeHashTableLoad f)) in
  let c := Number.div (Number.ofZ (_fingerprintLength f)) load in
  pow (Number.ofZ 2)
      (Number.sub
         (log2 (Number.mul (Number.ofZ 2) (Number.ofZ (_bucketSize f))))
         (Number.mul load c)).

Definition saveAsJSON (f : t prng) : ExportedCuckooFilter.t :=
  {| ExportedCuckooFilter._size := _size f;
     ExportedCuckooFilter._fingerprintLength := _fingerprintLength f;
     ExportedCuckooFilter._length := _length f;
     ExportedCuckooFilter._maxKicks := _maxKicks f;
     ExportedCuckooFilter._filter := map Bucket.saveAsJSON (_filter f);
     ExportedCuckooFilter._seed := exportBigInt (_seed f);
     ExportedCuckooFilter._bucketSize := _bucketSize f |}.

(** [fromJSON(element)]; [None] when the import of the seed fails. *)
Definition fromJSON (element : ExportedCuckooFilter.t) : option (t prng) :=
  let filter :=
    constructor seedrandom defaultSeed
      (ExportedCuckooFilter._size element)
      (ExportedCuckooFilter._fingerprintLength element)
      (ExportedCuckooFilter._bucketSize element)
      (ExportedCuckooFilter._maxKicks element) in
  match importBigInt (ExportedCuckooFilter._seed element) with
  | None => None
  | Some seed =>
      let filter := set_seed filter seed in
      let filter := with_length filter (ExportedCuckooFilter._length element) in
      Some (with_filter filter
              (map Bucket.fromJSON (ExportedCuckooFilter._filter element)))
  end.

End Rest.

(** Both buckets of [x] exist and one of them is free: [add] stores the
    fingerprint without a relocation. *)
Definition has_room (xxh64 : string -> Z -> Z) {prng : Type} (f : t prng)
    (x : string) : Prop :=
  exists loc b1 b2,
    _locations xxh64 f x = Returned loc
    /\ bucket f (firstIndex loc) = Some b1
    /\ bucket f (secondIndex loc) = Some b2
    /\ (Bucket.isFree b1 = true \/ Bucket.isFree b2 = true).

(** [f'] is [f] after one occurrence of the fingerprint [e] was taken out
    of bucket [i]: that bucket lost one [e] and nothing else, every other
    bucket is as it was, the counter is one less, the sizing, the seed and
    the generator are as they were. *)
Definition removed_from {prng : Type} (f : t prng) (i : Z) (e : string)
    (f' : t prng) : Prop :=
  (exists b b', bucket f i = Some b /\ bucket f' i = Some b'
                /\ Bucket.removed_one b b' e)
  /\ (forall j, j <> i -> bucket f' j = bucket f j)
  /\ _length f' = _length f - 1
  /\ same_parameters f f'
  /\ _rng f' = _rng f.

(** Every stored fingerprint has [_fingerprintLength] digits. *)
Definition fingerprints_sized {prng : Type} (f : t prng) : Prop :=
  forall i b j e,
    _filter f !! i = Some b -> Bucket._elements b !! j = Some (Some e) ->
    String.length e = Z.to_nat (_fingerprintLength f).

End CuckooFilter.

(** ** The scalable Bloom filter *)

(** [Math.LN2], written with its shortest decimal expansion. *)
Definition LN2 : Q := 6931471805599453 # 10000000000000000.

Module PartitionBloomFilter.
Section WithStore.

(** The packed bit vectors of a partitioned filter and what the absent
    class does with them: allocation for the arguments of [create],
    insertion of an element under a seed, and the mean ratio of set bits. *)
Variable store : Type.
Variable allocate : Q -> Q -> Q -> store.
Variable insert : Z -> string -> store -> store.
Variable load : store -> Q.
Variable prng : Type.
Variable seedrandom : Z -> prng.
Variable defaultSeed : Z.

(** Modelled from the spec: [bloom/partitioned-bloom-filter.mts] is
    absent. A partitioned filter owns its bit vectors [_filter], a
    [_loadFactor] and a [_capacity] (the maximal number of intended items,
    the size handed to [create]); [_errorRate] records the rate handed to
    [create]. [_seed] and [_rng] are the fields of [BaseFilter], whose
    seed setter stores the seed and restarts the generator from it. *)
Record t : Type := mk {
  _capacity : Q;
  _errorRate : Q;
  _loadFactor : Q;
  _seed : Z;
  _rng : prng;
  _filter : store
}.

Definition create (size errorRate loadFactor : Q) : t :=
  {| _capacity := size;
     _errorRate := errorRate;
     _loadFactor := loadFactor;
     _seed := defaultSeed;
     _rng := seedrandom defaultSeed;
     _filter := allocate size errorRate loadFactor |}.

Definition set_seed (seed : Z) (p : t) : t :=
  mk (_capacity p) (_errorRate p) (_loadFactor p) seed (seedrandom seed)
     (_filter p).

Definition add (element : string) (p : t) : t :=
  mk (_capacity p) (_errorRate p) (_loadFactor p) (_seed p) (_rng p)
     (insert (_seed p) element (_filter p)).

Definition _currentload (p : t) : Q := load (_filter p).

End WithStore.

Arguments mk {store prng}.
Arguments _capacity {store prng} _.
Arguments _errorRate {store prng} _.
Arguments _loadFactor {store prng} _.
Arguments _seed {store prng} _.
Arguments _rng {store prng} _.
Arguments _filter {store prng} _.
Arguments create {store} allocate {prng} seedrandom defaultSeed
  size errorRate loadFactor.
Arguments set_seed {store prng} seedrandom seed p.
Arguments add {store} insert {prng} element p.
Arguments _currentload {store} load {prng} p.

(** Modelled from the spec: [has(value)] of the absent class answers from
    the bit vectors, under the seed of the filter; [member] is that test. *)
Definition has {store : Type} (member : Z -> string -> store -> bool)
    {prng : Type} (element : string) (p : t store prng) : bool :=
  member (_seed p) element (_filter p).

End PartitionBloomFilter.

Module ScalableBloomFilter.
Section WithStore.

Variable store : Type.
Variable allocate : Q -> Q -> Q -> store.
Variable insert : Z -> string -> store -> store.
Variable load : store -> Q.
Variable prng : Type.
(** [seedrandom(seed.toString())] *)
Variable seedrandom : Z -> prng.
Variable defaultSeed : Z.

Abbreviation partition := (PartitionBloomFilter.t store prng).

(** [ScalableBloomFilter._s] *)
Definition _s : Q := 2.

Record t : Type := mk {
  _initial_size : Q;
  _error_rate : Q;
  _ratio : Q;
  _filters : list partition;
  _seed : Z;
  _rng : prng
}.

Definition new_partition (size errorRate ratio : Q) (seed : Z) : partition :=
  PartitionBloomFilter.set_seed seedrandom seed
    (PartitionBloomFilter.create allocate seedrandom defaultSeed
       size errorRate ratio).

Definition constructor (initial_size error_rate ratio : Q) : t :=
  {| _initial_size := initial_size;
     _error_rate := error_rate;
     _ratio := ratio;
     _filters := [new_partition initial_size error_rate ratio defaultSeed];
     _seed := defaultSeed;
     _rng := seedrandom defaultSeed |}.

(** The setter [set seed(seed)] *)
Definition set_seed (seed : Z) (f : t) : t :=
  {| _initial_size := _initial_size f;
     _error_rate := _error_rate f;
     _ratio := _ratio f;
     _filters := map (PartitionBloomFilter.set_seed seedrandom seed)
                     (_filters f);
     _seed := seed;
     _rng := seedrandom seed |}.

Definition with_filters (f : t) (l : list partition) : t :=
  mk (_initial_size f) (_error_rate f) (_ratio f) l (_seed f) (_rng f).

(** The size and the error rate [add] hands to [create] when [n] inner
    filters exist. *)
Definition newSize (f : t) (n : nat) : Q :=
  (_initial_size f * _s ^ Z.of_nat (n + 1) * LN2)%Q.

Definition newErrorRate (f : t) (n : nat) : Q :=
  (_error_rate f * _ratio f ^ Z.of_nat n)%Q.

(** [this._filters[this._filters.length - 1].add(element)] *)
Definition add_to_last (element : string) (l : list partition)
  : list partition :=
  match last l with
  | Some p =>
      <[(List.length l - 1)%nat := PartitionBloomFilter.add insert element p]> l
  | None => l
  end.

Definition add (element : string) (f : t) : outcome unit * t :=
  match last (_filters f) with
  | None => (Thrown TypeError, f)
  | Some currentFilter =>
      let grown :=
        if Qlt_le_dec (PartitionBloomFilter._loadFactor currentFilter)
                      (PartitionBloomFilter._currentload load currentFilter)
        then _filters f
               ++ [new_partition
                     (newSize f (List.length (_filters f)))
                     (newErrorRate f (List.length (_filters f)))
                     (_ratio f) (_seed f)]
        else _filters f in
      (Returned tt, with_filters f (add_to_last element grown))
  end.

End WithStore.

Arguments mk {store prng}.
Arguments _initial_size {store prng} _.
Arguments _error_rate {store prng} _.
Arguments _ratio {store prng} _.
Arguments _filters {store prng} _.
Arguments _seed {store prng} _.
Arguments _rng {store prng} _.
Arguments new_partition {store} _ {prng}.
Arguments constructor {store} _ {prng}.
Arguments set_seed {store prng}.
Arguments with_filters {store prng}.
Arguments newSize {store prng}.
Arguments newErrorRate {store prng}.
Arguments add_to_last {store} _ {prng}.
Arguments add {store} _ _ _ {prng}.

(** The calls that change a scalable filter, and a filter driven through a
    list of them. *)
Inductive call : Type :=
| Add (element : string)
| SetSeed (seed : Z).

Definition step {store : Type} (allocate : Q -> Q -> Q -> store)
    (insert : Z -> string -> store -> store) (load : store -> Q)
    {prng : Type} (seedrandom : Z -> prng) (defaultSeed : Z)
    (f : t store prng) (c : call) : t store prng :=
  match c with
  | Add x => snd (add allocate insert load seedrandom defaultSeed x f)
  | SetSeed s => set_seed seedrandom s f
  end.

Definition run {store : Type} (allocate : Q -> Q -> Q -> store)
    (insert : Z -> string -> store -> store) (load : store -> Q)
    {prng : Type} (seedrandom : Z -> prng) (defaultSeed : Z)
    (f : t store prng) (cs : list call) : t store prng :=
  foldl (step allocate insert load seedrandom defaultSeed) f cs.

(** The arguments [create] received for the inner filter at index [j] of a
    scalable filter built with [(initial_size, error_rate, ratio)]. *)
Definition created_with {store prng : Type}
    (initial_size error_rate ratio : Q) (j : nat)
    (p : PartitionBloomFilter.t store prng) : Prop :=
  PartitionBloomFilter._loadFactor p = ratio
  /\ match j with
     | O =>
         PartitionBloomFilter._capacity p = initial_size
         /\ PartitionBloomFilter._errorRate p = error_rate
     | S _ =>
         PartitionBloomFilter._capacity p
         = (initial_size * _s ^ Z.of_nat (j + 1) * LN2)%Q
         /\ PartitionBloomFilter._errorRate p
            = (error_rate * ratio ^ Z.of_nat j)%Q
     end.

(** [has(element)]: [this._filters.some(filter => filter.has(element))] *)
Definition has {store : Type} (member : Z -> string -> store -> bool)
    {prng : Type} (element : string) (f : t store prng) : bool :=
  existsb (PartitionBloomFilter.has member element) (_filters f).

(** [capacity()]:
    [this._filters.map(f => f._capacity).reduce((p, c) => p + c, 0)] *)
Definition capacity {store prng : Type} (f : t store prng) : Q :=
  foldl Qplus 0%Q (map PartitionBloomFilter._capacity (_filters f)).

(** The test [currentFilter._currentload() > currentFilter._loadFactor] of
    [add] on the last filter. *)
Definition overloaded {store : Type} (load : store -> Q) {prng : Type}
    (f : t store prng) : bool :=
  match last (_filters f) with
  | Some p =>
      if Qlt_le_dec (PartitionBloomFilter._loadFactor p)
                    (PartitionBloomFilter._currentload load p)
      then true else false
  | None => false
  end.

(** The elements of the [Add] calls of a list of calls. *)
Definition added (cs : list call) : list string :=
  omap (fun c => match c with Add x => Some x | SetSeed _ => None end) cs.

(** Every inner filter has the seed of the scalable filter. *)
Definition seeds_agree {store prng : Type} (f : t store prng) : Prop :=
  Forall (fun p => PartitionBloomFilter._seed p = _seed f) (_filters f).

(** The inner filters of [f] were created as the growth rule of a filter
    built with [(initial_size, error_rate, ratio)] prescribes. *)
Definition grown_from {store prng : Type}
    (initial_size error_rate ratio : Q) (f : t store prng) : Prop :=
  _initial_size f = initial_size
  /\ _error_rate f = error_rate
  /\ _ratio f = ratio
  /\ forall j p, _filters f !! j = Some p ->
                 created_with initial_size error_rate ratio j p.

End ScalableBloomFilter.

(** ** A small instance

    The hash of a string is its length plus the seed; the generator is a
    counter whose draws run through 0, 1/4, 1/2, 3/4. *)

Module Demo.

Definition xxh64 (s : string) (seed : Z) : Z :=
  Z.of_nat (String.length s) + seed.

Definition prng : Type := nat.

Definition random (g : prng) : Q * prng :=
  ((Z.of_nat (g mod 4)%nat # 4)%Q, S g).

Definition seedrandom (seed : Z) : prng := Z.to_nat seed.

Definition defaultSeed : Z := 0.

(** [Math.log2] on the arguments met below, [2], [4], [8], [100], [122] and
    [1 / 0.953125]: the double nearest to the logarithm; NaN stands for the
    other values. *)
Definition log2 (x : Number.t) : Number.t :=
  if SFeqb x (Number.ofZ 2) then Number.ofZ 1
  else if SFeqb x (Number.ofZ 4) then Number.ofZ 2
  else if SFeqb x (Number.ofZ 8) then Number.ofZ 3
  else if SFeqb x (Number.ofZ 100)
  then S754_finite false 7480317065143153 (-50)
  else if SFeqb x (Number.ofZ 122)
  then S754_finite false 7803316522712750 (-50)
  else if SFeqb x (Number.div (Number.ofZ 1) (Number.literal 61 64))
  then S754_finite false 4990900811879586 (-56)
  else Number.NaN.

(** [Math.pow] where the language fixes it: an exponent that is NaN gives
    NaN, the exponent 0 gives 1; NaN stands for the other values. *)
Definition pow (x y : Number.t) : Number.t :=
  match y with
  | S754_zero _ => Number.ofZ 1
  | _ => Number.NaN
  end.

(** Bit vectors stand-in: the elements inserted so far, four of which load
    a filter fully. *)
Definition store : Type := list string.
Definition allocate (size errorRate loadFactor : Q) : store := [].
Definition insert (seed : Z) (x : string) (s : store) : store := x :: s.
Definition load (s : store) : Q := (Z.of_nat (List.length s) # 4)%Q.

Definition member (seed : Z) (x : string) (s : store) : bool :=
  bool_decide (x ∈ s).

(** [new ScalableBloomFilter(8, 0.01, 0.5)] *)
Definition scalable : ScalableBloomFilter.t store prng :=
  ScalableBloomFilter.constructor allocate seedrandom defaultSeed
    8 (1 # 100) (1 # 2).

(** [new CuckooFilter(1, 2, 1, 1)]: one bucket of one slot, fingerprints of
    two bits, one kick. *)
Definition tiny : CuckooFilter.t prng :=
  CuckooFilter.constructor seedrandom defaultSeed 1 2 1 1.

(** [new CuckooFilter(4, 3, 2, 8)] *)
Definition small : CuckooFilter.t prng :=
  CuckooFilter.constructor seedrandom defaultSeed 4 3 2 8.

End Demo.

(** * Properties *)

(** ** Binary strings *)

Lemma length_append (s1 s2 : string) :
  String.length (s1 +:+ s2) = (String.length s1 + String.length s2)%nat.
Proof. induction s1 as [|c s1 IH]; simpl; [reflexivity | now rewrite IH]. Qed.

Lemma length_zeros (n : nat) : String.length (zeros n) = n.
Proof. induction n as [|n IH]; simpl; [reflexivity | now rewrite IH]. Qed.

Lemma length_pos_digits (p : positive) (acc : string) :
  String.length (pos_digits p acc) = (Pos.size_nat p + String.length acc)%nat.
Proof.
  revert acc; induction p as [p IH | p IH |]; intros acc; simpl;
    try rewrite IH; simpl; lia.
Qed.

Lemma size_nat_bound (p : positive) (n : nat) :
  Z.pos p < 2 ^ Z.of_nat n -> (Pos.size_nat p <= n)%nat.
Proof.
  revert n; induction p as [p IH | p IH |]; intros n Hp; simpl.
  - destruct n as [|n]; [simpl in Hp; lia |].
    rewrite Nat2Z.inj_succ, Z.pow_succ_r in Hp by lia.
    specialize (IH n). lia.
  - destruct n as [|n]; [simpl in Hp; lia |].
    rewrite Nat2Z.inj_succ, Z.pow_succ_r in Hp by lia.
    specialize (IH n). lia.
  - destruct n as [|n]; [simpl in Hp; lia | lia].
Qed.

Lemma length_toString2 (h : Z) (n : nat) :
  0 <= h < 2 ^ Z.of_nat n -> (0 < n)%nat ->
  (String.length (toString2 h) <= n)%nat.
Proof.
  intros [Hlo Hhi] Hn. destruct h as [|p|p]; simpl.
  - lia.
  - rewrite length_pos_digits. simpl. apply size_nat_bound in Hhi. lia.
  - lia.
Qed.

Lemma length_padStart (n : nat) (s : string) :
  String.length (padStart n s) = Nat.max n (String.length s).
Proof. unfold padStart. rewrite length_append, length_zeros. lia. Qed.

Lemma length_hashstr (h : Z) :
  0 <= h < 2 ^ 64 -> String.length (hashstr h) = 64%nat.
Proof.
  intros Hh. unfold hashstr. rewrite length_padStart.
  pose proof (length_toString2 h 64 Hh). lia.
Qed.

Lemma length_drop_chars (n : nat) (s : string) :
  String.length (drop_chars n s) = (String.length s - n)%nat.
Proof.
  revert s; induction n as [|n IH]; intros s; simpl; [lia |].
  destruct s as [|c s]; simpl; [reflexivity | apply IH].
Qed.

Lemma digits_value_acc (acc : Z) (s : string) :
  digits_value acc s
  = acc * 2 ^ Z.of_nat (String.length s) + digits_value 0 s.
Proof.
  revert acc; induction s as [|c s IH]; intros acc.
  - simpl. lia.
  - cbn [digits_value String.length].
    rewrite IH, (IH (2 * 0 + _)), Nat2Z.inj_succ, Z.pow_succ_r by lia. ring.
Qed.

Lemma digits_value_range (s : string) :
  0 <= digits_value 0 s < 2 ^ Z.of_nat (String.length s).
Proof.
  induction s as [|c s IH].
  - simpl. lia.
  - cbn [digits_value String.length].
    rewrite digits_value_acc, Nat2Z.inj_succ, Z.pow_succ_r by lia.
    destruct (Ascii.eqb c "1"); lia.
Qed.

Lemma digits_value_pos_digits (p : positive) (acc : string) :
  digits_value 0 (pos_digits p acc)
  = Z.pos p * 2 ^ Z.of_nat (String.length acc) + digits_value 0 acc.
Proof.
  revert acc; induction p as [p IH | p IH |]; intros acc;
    cbn [pos_digits]; try rewrite IH;
    cbn [digits_value String.length];
    rewrite ?(digits_value_acc (2 * 0 + _)), ?Nat2Z.inj_succ, ?Z.pow_succ_r
      by lia; simpl (Ascii.eqb _ _); lia.
Qed.

Lemma digits_value_zeros (n : nat) (s : string) :
  digits_value 0 (zeros n +:+ s) = digits_value 0 s.
Proof. induction n as [|n IH]; simpl; [reflexivity | exact IH]. Qed.

Lemma digits_value_hashstr (h : Z) : 0 <= h -> digits_value 0 (hashstr h) = h.
Proof.
  intros Hh. unfold hashstr, padStart. rewrite digits_value_zeros.
  destruct h as [|p|p]; [reflexivity | | lia].
  simpl. rewrite digits_value_pos_digits. simpl. lia.
Qed.

Lemma digits_value_drop_chars (n : nat) (s : string) :
  digits_value 0 (drop_chars n s)
  = digits_value 0 s mod 2 ^ Z.of_nat (String.length s - n).
Proof.
  revert s; induction n as [|n IH]; intros s.
  - simpl. rewrite Nat.sub_0_r, Z.mod_small; [reflexivity |].
    apply digits_value_range.
  - destruct s as [|c s]; [reflexivity |].
    cbn [drop_chars String.length] in *.
    rewrite IH. cbn [digits_value].
    rewrite (digits_value_acc (2 * 0 + _)).
    replace (S (String.length s) - S n)%nat with (String.length s - n)%nat
      by lia.
    replace (Z.of_nat (String.length s))
      with (Z.of_nat (String.length s - (String.length s - n))
            + Z.of_nat (String.length s - n)) by lia.
    rewrite Z.pow_add_r, Z.mul_assoc by lia.
    rewrite Z.add_comm, Z.mod_add; [| apply Z.pow_nonzero; lia].
    reflexivity.
Qed.

(** ** Arithmetic of the indices *)

Lemma mod_pow2_mod_pow2 (x k : Z) :
  0 <= k <= 32 -> (x mod 2 ^ 32) mod 2 ^ k = x mod 2 ^ k.
Proof.
  intros Hk. apply Z.bits_inj'; intros n Hn.
  rewrite !Z.testbit_mod_pow2 by lia.
  destruct (Z.ltb_spec n k), (Z.ltb_spec n 32); simpl; try reflexivity; lia.
Qed.

Lemma lxor_mod_pow2 (x y k : Z) :
  0 <= k -> Z.lxor x y mod 2 ^ k = Z.lxor (x mod 2 ^ k) (y mod 2 ^ k).
Proof.
  intros Hk. apply Z.bits_inj'; intros n Hn.
  rewrite Z.lxor_spec, !Z.testbit_mod_pow2, Z.lxor_spec by lia.
  destruct (Z.ltb_spec n k); simpl; reflexivity.
Qed.

Lemma rem_asUintN (x s : Z) :
  0 < s -> Z.rem (asUintN 32 x) s = asUintN 32 x mod s.
Proof.
  intros Hs. unfold asUintN. apply Z.rem_mod_nonneg; [| exact Hs].
  apply Z.mod_pos_bound. lia.
Qed.

(** The bucket a fingerprint moves to from bucket [i], as [add] computes it. *)
Lemma alternate_index (i h k : Z) :
  0 <= k <= 32 -> 0 <= i < 2 ^ k ->
  Z.rem (asUintN 32 (Z.lxor i h)) (2 ^ k) = Z.lxor i (h mod 2 ^ k).
Proof.
  intros Hk Hi. rewrite rem_asUintN by lia. unfold asUintN.
  rewrite mod_pow2_mod_pow2, lxor_mod_pow2 by lia.
  now rewrite (Z.mod_small i) by lia.
Qed.

Lemma lxor_mod_range (i h k : Z) :
  0 <= k -> 0 <= i < 2 ^ k -> 0 <= Z.lxor i (h mod 2 ^ k) < 2 ^ k.
Proof.
  intros Hk Hi.
  replace (Z.lxor i (h mod 2 ^ k)) with (Z.lxor i h mod 2 ^ k).
  - apply Z.mod_pos_bound. lia.
  - rewrite lxor_mod_pow2 by lia. now rewrite (Z.mod_small i) by lia.
Qed.

Lemma lxor_involutive (i y : Z) : Z.lxor (Z.lxor i y) y = i.
Proof. now rewrite Z.lxor_assoc, Z.lxor_nilpotent, Z.lxor_0_r. Qed.

Lemma hash_range {prng : Type} (xxh64 : string -> Z -> Z)
    (f : CuckooFilter.t prng) (x : string) :
  0 <= CuckooFilter.hash xxh64 f x < 2 ^ 64.
Proof. unfold CuckooFilter.hash, asUintN. apply Z.mod_pos_bound. lia. Qed.

(** ** The locations of an element *)

Section Locations.

Context {prng : Type}.
Variable xxh64 : string -> Z -> Z.

Local Abbreviation hash := (CuckooFilter.hash xxh64).
Local Abbreviation _locations := (CuckooFilter._locations xxh64).

Lemma locations_inv (f : CuckooFilter.t prng) (x : string)
    (loc : CuckooFilter.locations) :
  _locations f x = Returned loc ->
  CuckooFilter._fingerprintLength f <= 64
  /\ CuckooFilter.fingerprint loc
     = substring (64 - CuckooFilter._fingerprintLength f) (hashstr (hash f x))
  /\ CuckooFilter.firstIndex loc
     = Z.rem (asUintN 32 (hash f x)) (CuckooFilter._size f)
  /\ CuckooFilter.secondIndex loc
     = Z.rem (asUintN 32 (Z.lxor (hash f x)
                            (hash f (CuckooFilter.fingerprint loc))))
             (CuckooFilter._size f).
Proof.
  unfold CuckooFilter._locations.
  rewrite length_hashstr by apply hash_range.
  change (Z.of_nat 64) with 64.
  destruct (Z.ltb_spec 64 (CuckooFilter._fingerprintLength f)) as [Hlt | Hge];
    [discriminate |].
  intros [= <-]. simpl. auto.
Qed.

Lemma locations_thrown (f : CuckooFilter.t prng) (x : string) (e : error) :
  _locations f x = Thrown e ->
  e = InvalidArgument /\ 64 < CuckooFilter._fingerprintLength f.
Proof.
  unfold CuckooFilter._locations.
  rewrite length_hashstr by apply hash_range.
  change (Z.of_nat 64) with 64.
  destruct (Z.ltb_spec 64 (CuckooFilter._fingerprintLength f)) as [Hlt | Hge];
    [| discriminate].
  intros [= <-]. auto.
Qed.

Lemma locations_defined (f : CuckooFilter.t prng) (x : string) :
  CuckooFilter._fingerprintLength f <= 64 ->
  exists loc, _locations f x = Returned loc.
Proof.
  intros Hfl. unfold CuckooFilter._locations.
  rewrite length_hashstr by apply hash_range.
  change (Z.of_nat 64) with 64.
  destruct (Z.ltb_spec 64 (CuckooFilter._fingerprintLength f)); [lia |].
  eauto.
Qed.

(** C3. In a filter whose number of buckets is a power of two (at most
    [2^32], as the constructor leaves it), the second index of an element is
    [(firstIndex xor (hash(fingerprint) mod _size)) mod _size], and the
    fingerprint is the binary writing of the low [_fingerprintLength] bits of
    the 64-bit hash of the element. *)
Theorem locations_partial_key (f : CuckooFilter.t prng) (x : string)
    (loc : CuckooFilter.locations) :
  (exists k, 0 <= k <= 32 /\ CuckooFilter._size f = 2 ^ k) ->
  _locations f x = Returned loc ->
  CuckooFilter.secondIndex loc
  = Z.lxor (CuckooFilter.firstIndex loc)
      (hash f (CuckooFilter.fingerprint loc) mod CuckooFilter._size f)
    mod CuckooFilter._size f
  /\ String.length (CuckooFilter.fingerprint loc)
     = Z.to_nat (CuckooFilter._fingerprintLength f)
  /\ digits_value 0 (CuckooFilter.fingerprint loc)
     = hash f x
       mod 2 ^ Z.of_nat (String.length (CuckooFilter.fingerprint loc)).
Proof.
  intros (k & Hk & Hsize) Hloc.
  destruct (locations_inv f x loc Hloc) as (Hfl & Hfp & H1 & H2).
  pose proof (hash_range xxh64 f x) as Hh.
  assert (Hlen : String.length (hashstr (hash f x)) = 64%nat)
    by now apply length_hashstr.
  split; [| split].
  - rewrite H2, H1, Hsize.
    assert (Hpos : 0 < 2 ^ k) by (apply Z.pow_pos_nonneg; lia).
    rewrite !rem_asUintN by lia. unfold asUintN.
    rewrite !mod_pow2_mod_pow2 by lia.
    rewrite (lxor_mod_pow2 _ _ k) by lia.
    rewrite (lxor_mod_pow2 (_ mod _) (_ mod _) k) by lia.
    now rewrite !Z.mod_mod by lia.
  - rewrite Hfp. unfold substring. rewrite length_drop_chars, Hlen. lia.
  - rewrite Hfp. unfold substring.
    rewrite digits_value_drop_chars.
    rewrite length_drop_chars, digits_value_hashstr by lia.
    reflexivity.
Qed.

End Locations.

(** ** Buckets *)

Lemma occupied_bounds (l : list (option string)) :
  0 <= Bucket.occupied l <= Z.of_nat (List.length l).
Proof. induction l as [|[e|] l IH]; simpl Bucket.occupied; simpl List.length; lia. Qed.

Lemma occupied_full (l : list (option string)) (i : nat) :
  Bucket.occupied l = Z.of_nat (List.length l) ->
  (i < List.length l)%nat -> exists e, l !! i = Some (Some e).
Proof.
  revert i; induction l as [|[e|] l IH]; intros i Hfull Hi;
    simpl in Hi; [lia | |].
  - simpl Bucket.occupied in Hfull. simpl List.length in Hfull.
    destruct i as [|i]; [eauto |]. apply IH; lia.
  - simpl Bucket.occupied in Hfull. simpl List.length in Hfull.
    pose proof (occupied_bounds l). lia.
Qed.

Lemma occupied_insert (l : list (option string)) (i : nat) (e e' : string) :
  l !! i = Some (Some e) ->
  Bucket.occupied (<[i := Some e']> l) = Bucket.occupied l.
Proof.
  revert i; induction l as [|x l IH]; intros i Hi; [discriminate |].
  destruct i as [|i]; simpl in Hi.
  - injection Hi as ->. reflexivity.
  - simpl. destruct x; rewrite (IH i Hi); reflexivity.
Qed.

Lemma at_Some (b : Bucket.t) (r : Z) (e : string) :
  Bucket.at_ b r = Some e ->
  0 <= r /\ Bucket._elements b !! Z.to_nat r = Some (Some e).
Proof.
  unfold Bucket.at_. destruct (Z.ltb_spec r 0); [discriminate |].
  destruct (Bucket._elements b !! Z.to_nat r) as [[e'|]|] eqn:E;
    simpl; try discriminate.
  intros [= ->]. auto.
Qed.

Lemma set_in_range (b : Bucket.t) (r : Z) (x : option string) :
  0 <= r -> (Z.to_nat r < List.length (Bucket._elements b))%nat ->
  Bucket.set b r x
  = Bucket.mk (Bucket._size b) (<[Z.to_nat r := x]> (Bucket._elements b)).
Proof.
  intros Hr Hlt. unfold Bucket.set.
  destruct (Z.ltb_spec r 0); [lia |].
  destruct (Nat.ltb_spec (Z.to_nat r) (List.length (Bucket._elements b)));
    [reflexivity | lia].
Qed.

(** Writing back what [at] returned undoes a [set]. *)
Lemma set_set_restore (b : Bucket.t) (r : Z) (fp tmp : string) :
  Bucket.at_ b r = Some tmp ->
  Bucket.set (Bucket.set b r (Some fp)) r (Some tmp) = b.
Proof.
  intros Hat. destruct (at_Some b r tmp Hat) as [Hr Hslot].
  pose proof (lookup_lt_Some _ _ _ Hslot) as Hlt.
  rewrite (set_in_range b) by assumption.
  rewrite set_in_range by (simpl; rewrite ?length_insert; assumption).
  simpl. rewrite list_insert_insert_eq, list_insert_id by assumption.
  now destruct b.
Qed.

(** ** Rollback of a failed insertion *)

Section Rollback.

Context {prng : Type}.
Variable xxh64 : string -> Z -> Z.
Variable random : prng -> Q * prng.

Local Abbreviation kick := (CuckooFilter.kick xxh64 random).
Local Abbreviation add := (CuckooFilter.add xxh64 random).

Local Abbreviation same_parameters := CuckooFilter.same_parameters.

Lemma same_parameters_refl (f : CuckooFilter.t prng) : same_parameters f f.
Proof. unfold CuckooFilter.same_parameters; auto. Qed.

Lemma same_parameters_trans (f g h : CuckooFilter.t prng) :
  same_parameters f g -> same_parameters g h -> same_parameters f h.
Proof. unfold CuckooFilter.same_parameters. intuition congruence. Qed.

Lemma bucket_Some (f : CuckooFilter.t prng) (i : Z) (b : Bucket.t) :
  CuckooFilter.bucket f i = Some b ->
  0 <= i /\ CuckooFilter._filter f !! Z.to_nat i = Some b.
Proof.
  unfold CuckooFilter.bucket. destruct (Z.ltb_spec i 0); [discriminate | auto].
Qed.

Lemma bucket_set_bucket (f : CuckooFilter.t prng) (i : Z) (b b' : Bucket.t) :
  CuckooFilter.bucket f i = Some b ->
  CuckooFilter.bucket (CuckooFilter.set_bucket f i b') i = Some b'.
Proof.
  intros Hb. destruct (bucket_Some f i b Hb) as [Hi Hl].
  unfold CuckooFilter.bucket. destruct (Z.ltb_spec i 0); [lia |].
  simpl. apply list_lookup_insert_eq. eapply lookup_lt_Some; eauto.
Qed.

Lemma rollback_filter (logs : list CuckooFilter.log)
    (f1 f2 : CuckooFilter.t prng) :
  CuckooFilter._filter f1 = CuckooFilter._filter f2 ->
  CuckooFilter._filter (CuckooFilter.rollback logs f1)
  = CuckooFilter._filter (CuckooFilter.rollback logs f2).
Proof.
  revert f1 f2; induction logs as [|[[i slot] prev] logs IH]; intros f1 f2 Heq;
    [exact Heq |].
  simpl. apply IH. unfold CuckooFilter.bucket. rewrite Heq.
  destruct (i <? 0); [exact Heq |].
  destruct (CuckooFilter._filter f2 !! Z.to_nat i); [| exact Heq].
  simpl. now rewrite Heq.
Qed.

Lemma rollback_fields (logs : list CuckooFilter.log) (f : CuckooFilter.t prng) :
  same_parameters f (CuckooFilter.rollback logs f)
  /\ CuckooFilter._length (CuckooFilter.rollback logs f)
     = CuckooFilter._length f
  /\ CuckooFilter._rng (CuckooFilter.rollback logs f) = CuckooFilter._rng f.
Proof.
  revert f; induction logs as [|[[i slot] prev] logs IH]; intros f.
  - split; [apply same_parameters_refl | auto].
  - simpl. destruct (CuckooFilter.bucket f i) as [b|]; [| apply IH].
    destruct (IH (CuckooFilter.set_bucket f i (Bucket.set b slot prev)))
      as (Hp & Hl & Hr).
    split; [| split]; [| rewrite Hl | rewrite Hr]; try reflexivity.
    eapply same_parameters_trans; [| exact Hp].
    unfold CuckooFilter.same_parameters; simpl; auto.
Qed.

(** When the loop runs out of kicks, undoing the log it hands back leads to
    the buckets that undoing the log it started with leads to. *)
Lemma kick_exhausted (n : nat) :
  forall (f : CuckooFilter.t prng) (fp : string) (index : Z)
         (logs : list CuckooFilter.log) f' logs',
    kick n f fp index logs = CuckooFilter.Exhausted f' logs' ->
    CuckooFilter._filter (CuckooFilter.rollback logs' f')
    = CuckooFilter._filter (CuckooFilter.rollback logs f)
    /\ same_parameters f f'
    /\ CuckooFilter._length f' = CuckooFilter._length f.
Proof.
  induction n as [|n IH]; intros f fp index logs f' logs' Hk.
  - simpl in Hk. injection Hk as <- <-.
    split; [reflexivity | split; [apply same_parameters_refl | reflexivity]].
  - simpl in Hk.
    destruct (CuckooFilter.bucket f index) as [b|] eqn:Hb; [| discriminate].
    destruct (randomInt random 0 (Bucket.length b - 1) (CuckooFilter._rng f))
      as [r g].
    destruct (Bucket.at_ b r) as [tmp|] eqn:Hat; [| discriminate].
    match type of Hk with
    | context [CuckooFilter.bucket ?f1 ?i1] =>
        destruct (CuckooFilter.bucket f1 i1) as [b'|]; [| discriminate]
    end.
    destruct (Bucket.isFree b'); [discriminate |].
    apply IH in Hk. destruct Hk as (Hf & Hp & Hl).
    split; [| split].
    + rewrite Hf. simpl.
      erewrite bucket_set_bucket
        by (unfold CuckooFilter.bucket in *; simpl; exact Hb).
      apply rollback_filter. simpl.
      destruct (bucket_Some f index b Hb) as [Hi Hlk].
      rewrite set_set_restore by exact Hat.
      now rewrite list_insert_insert_eq, list_insert_id.
    + eapply same_parameters_trans; [| exact Hp].
      unfold CuckooFilter.same_parameters; simpl; auto.
    + rewrite Hl. reflexivity.
Qed.

(** C1. When [add] with [destructive = false] returns [false] or throws
    the filter-full error, every bucket and the counter [_length] are as they
    were before the call (and so are the sizing fields and the seed). *)
Theorem add_rollback (f : CuckooFilter.t prng) (x : string)
    (throwError : bool) (o : outcome bool) (f' : CuckooFilter.t prng) :
  add f x throwError false = (o, f') ->
  o = Returned false \/ o = Thrown FilterFull ->
  CuckooFilter._filter f' = CuckooFilter._filter f
  /\ CuckooFilter._length f' = CuckooFilter._length f
  /\ same_parameters f f'.
Proof.
  unfold CuckooFilter.add. intros Hadd Ho.
  destruct (CuckooFilter._locations xxh64 f x) as [loc | e].
  2: { injection Hadd as <- <-. destruct Ho as [Ho | Ho]; [discriminate |].
       split; [reflexivity | split; [reflexivity | apply same_parameters_refl]]. }
  destruct (CuckooFilter.bucket f (CuckooFilter.firstIndex loc)) as [b1|].
  2: { injection Hadd as <- <-. destruct Ho; discriminate. }
  destruct (Bucket.isFree b1).
  { injection Hadd as <- <-. destruct Ho; discriminate. }
  destruct (CuckooFilter.bucket f (CuckooFilter.secondIndex loc)) as [b2|].
  2: { injection Hadd as <- <-. destruct Ho; discriminate. }
  destruct (Bucket.isFree b2).
  { injection Hadd as <- <-. destruct Ho; discriminate. }
  destruct (random (CuckooFilter._rng f)) as [u g].
  match type of Hadd with
  | context [CuckooFilter.kick _ _ ?n ?f0 ?fp ?i ?l] =>
      destruct (CuckooFilter.kick xxh64 random n f0 fp i l)
        as [fk | fk logs | fk] eqn:Hk
  end.
  - injection Hadd as <- <-. destruct Ho; discriminate.
  - apply kick_exhausted in Hk. destruct Hk as (Hf & Hp & Hl).
    injection Hadd as <- <-.
    destruct (rollback_fields logs fk) as (Hp' & Hl' & _).
    split; [| split].
    + rewrite Hf. reflexivity.
    + rewrite Hl', Hl. reflexivity.
    + eapply same_parameters_trans; [| exact Hp'].
      eapply same_parameters_trans; [| exact Hp].
      unfold CuckooFilter.same_parameters; simpl; auto.
  - injection Hadd as <- <-. destruct Ho as [Ho | Ho]; destruct throwError; discriminate.
Qed.

End Rollback.

(** ** Random slots *)

Lemma randomInt_range {prng : Type} (random : prng -> Q * prng)
    (n : Z) (g : prng) :
  CuckooFilter.unit_random random -> 0 < n ->
  0 <= fst (randomInt random 0 (n - 1) g) < n.
Proof.
  intros Hu Hn. unfold randomInt. destruct (Hu g) as [H0 H1].
  destruct (random g) as [u g']. cbn [fst] in *.
  replace (n - 1 - 0 + 1) with n by lia.
  assert (Hn' : (inject_Z 0 < inject_Z n)%Q) by (rewrite <- Zlt_Qlt; lia).
  split.
  - assert (H : (inject_Z 0 <= u * inject_Z n)%Q).
    { apply Qmult_le_0_compat; [exact H0 | now apply Qlt_le_weak]. }
    apply Qfloor_resp_le in H. rewrite Qfloor_Z in H. lia.
  - assert (H : (inject_Z (Qfloor (u * inject_Z n)) < inject_Z n)%Q).
    { eapply Qle_lt_trans; [apply Qfloor_le |].
      rewrite <- (Qmult_1_l (inject_Z n)) at 2.
      now apply Qmult_lt_compat_r. }
    rewrite <- Zlt_Qlt in H. lia.
Qed.

(** ** Buckets under [add] and [remove] *)

Lemma length_put (l : list (option string)) (e : string) :
  List.length (Bucket.put l e) = List.length l.
Proof. induction l as [|[x|] l IH]; simpl; [reflexivity | now rewrite IH | reflexivity]. Qed.

Lemma occupied_put (l : list (option string)) (e : string) :
  Bucket.occupied l < Z.of_nat (List.length l) ->
  Bucket.occupied (Bucket.put l e) = Bucket.occupied l + 1.
Proof.
  induction l as [|[x|] l IH]; simpl Bucket.occupied; simpl List.length;
    intros H; [lia | | simpl; lia].
  simpl. rewrite IH; lia.
Qed.

Lemma elem_of_put (l : list (option string)) (e : string) :
  Bucket.occupied l < Z.of_nat (List.length l) -> Some e ∈ Bucket.put l e.
Proof.
  induction l as [|[x|] l IH]; simpl Bucket.occupied; simpl List.length;
    intros H; [lia | | simpl; apply list_elem_of_here].
  simpl. apply list_elem_of_further, IH. lia.
Qed.

Lemma elem_of_put_mono (l : list (option string)) (e x : string) :
  Some x ∈ l -> Some x ∈ Bucket.put l e.
Proof.
  induction l as [|[y|] l IH]; simpl; intros H; [exact H | |].
  - apply elem_of_cons in H as [H | H];
      [rewrite H; apply list_elem_of_here | apply list_elem_of_further; auto].
  - apply elem_of_cons in H as [H | H]; [discriminate |].
    now apply list_elem_of_further.
Qed.

Lemma length_unset_first (l : list (option string)) (e : string) :
  List.length (Bucket.unset_first l e) = List.length l.
Proof.
  induction l as [|x l IH]; simpl; [reflexivity |].
  destruct (bool_decide (x = Some e)); simpl; [reflexivity | now rewrite IH].
Qed.

Lemma occupied_unset_first (l : list (option string)) (e : string) :
  Some e ∈ l ->
  Bucket.occupied (Bucket.unset_first l e) = Bucket.occupied l - 1.
Proof.
  induction l as [|x l IH]; intros H; [now apply elem_of_nil in H |].
  simpl. destruct (bool_decide_reflect (x = Some e)) as [-> | Hne].
  - simpl. lia.
  - apply elem_of_cons in H as [H | H]; [congruence |].
    destruct x; simpl; rewrite (IH H); lia.
Qed.

Lemma elem_of_unset_first_ne (l : list (option string)) (e x : string) :
  x <> e -> Some x ∈ l -> Some x ∈ Bucket.unset_first l e.
Proof.
  intros Hne. induction l as [|y l IH]; intros H; [exact H |].
  simpl. apply elem_of_cons in H as [H | H].
  - subst y. destruct (bool_decide_reflect (Some x = Some e)) as [E | _];
      [congruence | apply list_elem_of_here].
  - destruct (bool_decide (y = Some e));
      apply list_elem_of_further; auto.
Qed.

Lemma bucket_full (b : Bucket.t) :
  Bucket.wf b -> Bucket.isFree b = false ->
  Bucket.length b = Bucket._size b
  /\ Bucket.occupied (Bucket._elements b)
     = Z.of_nat (List.length (Bucket._elements b)).
Proof.
  unfold Bucket.wf, Bucket.isFree, Bucket.length. intros Hwf Hfree.
  apply Z.ltb_ge in Hfree.
  pose proof (occupied_bounds (Bucket._elements b)). lia.
Qed.

Lemma bucket_add_wf (b : Bucket.t) (e : string) :
  Bucket.wf b ->
  Bucket.wf (Bucket.add b e) /\ Bucket._size (Bucket.add b e) = Bucket._size b.
Proof.
  unfold Bucket.wf, Bucket.add. intros Hwf.
  destruct (Bucket.isFree b); simpl; rewrite ?length_put; auto.
Qed.

Lemma bucket_add_length (b : Bucket.t) (e : string) :
  Bucket.wf b -> Bucket.isFree b = true ->
  Bucket.length (Bucket.add b e) = Bucket.length b + 1.
Proof.
  unfold Bucket.wf, Bucket.add. intros Hwf Hfree. rewrite Hfree.
  unfold Bucket.isFree, Bucket.length in *. apply Z.ltb_lt in Hfree.
  simpl. apply occupied_put. lia.
Qed.

Lemma bucket_set_wf (b : Bucket.t) (r : Z) (e tmp : string) :
  Bucket.wf b -> Bucket.at_ b r = Some tmp ->
  Bucket.wf (Bucket.set b r (Some e))
  /\ Bucket._size (Bucket.set b r (Some e)) = Bucket._size b
  /\ Bucket.length (Bucket.set b r (Some e)) = Bucket.length b.
Proof.
  intros Hwf Hat. destruct (at_Some b r tmp Hat) as [Hr Hslot].
  pose proof (lookup_lt_Some _ _ _ Hslot) as Hlt.
  rewrite set_in_range by assumption.
  unfold Bucket.wf, Bucket.length in *. simpl.
  rewrite length_insert. erewrite occupied_insert by exact Hslot. auto.
Qed.

Lemma bucket_remove_wf (b : Bucket.t) (e : string) :
  Bucket.wf b ->
  Bucket.wf (Bucket.remove b e)
  /\ Bucket._size (Bucket.remove b e) = Bucket._size b.
Proof.
  unfold Bucket.wf, Bucket.remove. simpl. rewrite length_unset_first. auto.
Qed.

Lemma bucket_has_elem (b : Bucket.t) (e : string) :
  Bucket.has b e = true <-> Some e ∈ Bucket._elements b.
Proof. unfold Bucket.has. apply bool_decide_eq_true. Qed.

Lemma bucket_remove_length (b : Bucket.t) (e : string) :
  Bucket.has b e = true ->
  Bucket.length (Bucket.remove b e) = Bucket.length b - 1.
Proof.
  intros H. apply bucket_has_elem in H.
  unfold Bucket.length, Bucket.remove. simpl. now apply occupied_unset_first.
Qed.

(** ** Well-formed filters *)

Section WellFormed.

Context {prng : Type}.
Implicit Types f : CuckooFilter.t prng.

Lemma wf_ext f f' :
  CuckooFilter._filter f' = CuckooFilter._filter f ->
  CuckooFilter._size f' = CuckooFilter._size f ->
  CuckooFilter._bucketSize f' = CuckooFilter._bucketSize f ->
  CuckooFilter.wf f -> CuckooFilter.wf f'.
Proof. unfold CuckooFilter.wf. intros -> -> ->. auto. Qed.

Lemma wf_size_pos f : CuckooFilter.wf f -> 0 < CuckooFilter._size f.
Proof.
  intros (_ & (k & Hk & ->) & _). apply Z.pow_pos_nonneg; lia.
Qed.

Lemma wf_bucket f (i : Z) (b : Bucket.t) :
  CuckooFilter.wf f -> CuckooFilter.bucket f i = Some b ->
  Bucket.wf b /\ Bucket._size b = CuckooFilter._bucketSize f
  /\ 0 <= i < CuckooFilter._size f.
Proof.
  intros (Hlen & _ & _ & Hall) Hb.
  unfold CuckooFilter.bucket in Hb.
  destruct (Z.ltb_spec i 0); [discriminate |].
  pose proof (lookup_lt_Some _ _ _ Hb).
  destruct (Forall_lookup_1 _ _ _ _ Hall Hb). repeat split; auto; lia.
Qed.

Lemma wf_bucket_defined f (i : Z) :
  CuckooFilter.wf f -> 0 <= i < CuckooFilter._size f ->
  exists b, CuckooFilter.bucket f i = Some b.
Proof.
  intros (Hlen & _) Hi. unfold CuckooFilter.bucket.
  destruct (Z.ltb_spec i 0); [lia |].
  apply lookup_lt_is_Some. lia.
Qed.

Lemma wf_set_bucket f (i : Z) (b : Bucket.t) :
  CuckooFilter.wf f -> Bucket.wf b ->
  Bucket._size b = CuckooFilter._bucketSize f ->
  CuckooFilter.wf (CuckooFilter.set_bucket f i b).
Proof.
  intros (Hlen & Hpow & Hbs & Hall) Hb Hsz.
  unfold CuckooFilter.wf. simpl. rewrite length_insert.
  repeat split; auto. apply Forall_insert; auto.
Qed.

Lemma rem_index_range f (x : Z) :
  CuckooFilter.wf f ->
  0 <= Z.rem (asUintN 32 x) (CuckooFilter._size f) < CuckooFilter._size f.
Proof.
  intros Hwf. pose proof (wf_size_pos f Hwf).
  rewrite rem_asUintN by assumption. now apply Z.mod_pos_bound.
Qed.

Lemma foldl_lengths (l : list Bucket.t) (a : Z) :
  foldl (fun acc val => acc + Bucket.length val) a l
  = a + foldl (fun acc val => acc + Bucket.length val) 0 l.
Proof.
  revert a; induction l as [|b l IH]; intros a; simpl; [lia |].
  rewrite IH, (IH (0 + _)). lia.
Qed.

Lemma used_set_bucket f (i : Z) (b b' : Bucket.t) :
  CuckooFilter.bucket f i = Some b ->
  CuckooFilter.used (CuckooFilter.set_bucket f i b')
  = CuckooFilter.used f - Bucket.length b + Bucket.length b'.
Proof.
  unfold CuckooFilter.bucket, CuckooFilter.used. simpl.
  destruct (i <? 0); [discriminate |].
  generalize (Z.to_nat i) as n. generalize (CuckooFilter._filter f) as l.
  induction l as [|x l IH]; intros n Hn; [discriminate |].
  destruct n as [|n]; simpl in *.
  - injection Hn as ->. rewrite foldl_lengths, (foldl_lengths _ (0 + _)). lia.
  - rewrite foldl_lengths, (foldl_lengths _ (0 + _)), (IH n Hn). lia.
Qed.

End WellFormed.

(** ** The relocation loop on well-formed filters *)

Section Relocation.

Context {prng : Type}.
Variable xxh64 : string -> Z -> Z.
Variable random : prng -> Q * prng.
Hypothesis random_unit : CuckooFilter.unit_random random.
Implicit Types f : CuckooFilter.t prng.

Local Abbreviation hash := (CuckooFilter.hash xxh64).
Local Abbreviation kick := (CuckooFilter.kick xxh64 random).

Local Abbreviation kicked_from := (CuckooFilter.kicked_from xxh64).
Local Abbreviation placed_from := CuckooFilter.placed_from.

Lemma kicked_from_wf f fp index f' tmp index' :
  CuckooFilter.wf f -> kicked_from f fp index f' tmp index' ->
  CuckooFilter.wf f' /\ CuckooFilter.same_parameters f f'
  /\ CuckooFilter._length f' = CuckooFilter._length f
  /\ CuckooFilter.used f' = CuckooFilter.used f
  /\ 0 <= index' < CuckooFilter._size f.
Proof.
  intros Hwf (b & r & g & Hb & Hfree & Hat & -> & ->).
  destruct (wf_bucket f index b Hwf Hb) as (Hbwf & Hbsz & Hi).
  destruct (bucket_set_wf b r fp tmp Hbwf Hat) as (Hswf & Hssz & Hslen).
  split; [| split; [| split; [| split]]].
  - apply wf_set_bucket; [| exact Hswf | simpl; congruence].
    eapply wf_ext; [| | | exact Hwf]; reflexivity.
  - unfold CuckooFilter.same_parameters. simpl. auto.
  - reflexivity.
  - rewrite (used_set_bucket _ index b) by exact Hb.
    unfold CuckooFilter.used. simpl. lia.
  - apply rem_index_range, Hwf.
Qed.

Lemma placed_from_wf f fp index f' :
  CuckooFilter.wf f -> placed_from f fp index f' ->
  CuckooFilter.wf f' /\ CuckooFilter.same_parameters f f'
  /\ CuckooFilter._length f' = CuckooFilter._length f + 1
  /\ CuckooFilter.used f' = CuckooFilter.used f + 1.
Proof.
  intros Hwf (b & Hb & Hfree & ->).
  destruct (wf_bucket f index b Hwf Hb) as (Hbwf & Hbsz & Hi).
  destruct (bucket_add_wf b fp Hbwf) as (Hawf & Hasz).
  split; [| split; [| split]].
  - eapply wf_ext; [| | | apply (wf_set_bucket f index (Bucket.add b fp))];
      try reflexivity; auto; congruence.
  - unfold CuckooFilter.same_parameters. simpl. auto.
  - reflexivity.
  - change (CuckooFilter.used
              (CuckooFilter.set_bucket f index (Bucket.add b fp))
            = CuckooFilter.used f + 1).
    rewrite (used_set_bucket _ index b) by exact Hb.
    rewrite bucket_add_length by assumption. lia.
Qed.

(** On a well-formed filter the loop never fails on a missing bucket or an
    empty slot; a property that every kick keeps holds when the loop stops,
    and a placement happens in a state that has it. *)
Lemma kick_invariant (P : CuckooFilter.t prng -> string -> Z -> Prop) :
  (forall f fp index f' tmp index',
      CuckooFilter.wf f -> P f fp index ->
      kicked_from f fp index f' tmp index' -> P f' tmp index') ->
  forall (n : nat) f fp index logs b,
    CuckooFilter.wf f -> P f fp index ->
    CuckooFilter.bucket f index = Some b -> Bucket.isFree b = false ->
    match kick n f fp index logs with
    | CuckooFilter.Placed f' =>
        exists f1 fp1 index1,
          CuckooFilter.wf f1 /\ P f1 fp1 index1
          /\ placed_from f1 fp1 index1 f'
    | CuckooFilter.Exhausted f' _ =>
        CuckooFilter.wf f' /\ exists fp' index', P f' fp' index'
    | CuckooFilter.Crashed _ => False
    end.
Proof.
  intros Hstep. induction n as [|n IH]; intros f fp index logs b Hwf HP Hb Hfree.
  - simpl. eauto.
  - cbn [CuckooFilter.kick]. rewrite Hb.
    destruct (wf_bucket f index b Hwf Hb) as (Hbwf & Hbsz & Hi).
    destruct (bucket_full b Hbwf Hfree) as (Hlen & Hocc).
    assert (Hpos : 0 < Bucket.length b).
    { rewrite Hlen, Hbsz. apply Hwf. }
    pose proof (randomInt_range random (Bucket.length b)
                  (CuckooFilter._rng f) random_unit Hpos) as Hr.
    destruct (randomInt random 0 (Bucket.length b - 1) (CuckooFilter._rng f))
      as [r g]. cbn [fst] in Hr.
    assert (Hat : exists tmp, Bucket.at_ b r = Some tmp).
    { unfold Bucket.at_. destruct (Z.ltb_spec r 0); [lia |].
      destruct (occupied_full (Bucket._elements b) (Z.to_nat r) Hocc)
        as [e He].
      - unfold Bucket.length in Hr. lia.
      - rewrite He. simpl. eauto. }
    destruct Hat as [tmp Hat]. rewrite Hat.
    set (f1 := CuckooFilter.set_bucket (CuckooFilter.with_rng f g) index
                 (Bucket.set b r (Some fp))).
    set (index1 := Z.rem (asUintN 32 (Z.lxor index (hash f1 tmp)))
                         (CuckooFilter._size f1)).
    assert (Hk : kicked_from f fp index f1 tmp index1).
    { exists b, r, g. repeat split; auto. }
    destruct (kicked_from_wf _ _ _ _ _ _ Hwf Hk) as (Hwf1 & Hp1 & _ & _ & Hi1).
    destruct (wf_bucket_defined f1 index1 Hwf1) as [b' Hb'].
    { destruct Hp1 as (-> & _). exact Hi1. }
    rewrite Hb'. destruct (Bucket.isFree b') eqn:Hfree'.
    + exists f1, tmp, index1. split; [exact Hwf1 |].
      split; [exact (Hstep _ _ _ _ _ _ Hwf HP Hk) |].
      exists b'. auto.
    + apply (IH f1 tmp index1 _ b'); auto.
      exact (Hstep _ _ _ _ _ _ Hwf HP Hk).
Qed.

End Relocation.

(** ** The counter [_length] *)

Lemma getNearestPow2_pow (x : Z) :
  exists k, 0 <= k /\ getNearestPow2 x = 2 ^ k /\ x <= 2 ^ k
            /\ forall j, 0 <= j -> x <= 2 ^ j -> k <= j.
Proof.
  unfold getNearestPow2. destruct (Z.leb_spec x 1) as [Hle | Hgt].
  - exists 0. repeat split; try lia. 
  - exists (Z.log2_up x). pose proof (Z.log2_up_nonneg x).
    repeat split; try lia.
    + apply Z.log2_up_spec. lia.
    + intros j Hj Hx. apply Z.log2_up_le_pow2; lia.
Qed.

Lemma constructor_size_cases {prng : Type} (seedrandom : Z -> prng)
    (defaultSeed size fl bs mk : Z) :
  (exists k, 0 <= k <= 31
     /\ CuckooFilter._size
          (CuckooFilter.constructor seedrandom defaultSeed size fl bs mk)
        = 2 ^ k)
  \/ CuckooFilter._size
       (CuckooFilter.constructor seedrandom defaultSeed size fl bs mk) = 0.
Proof.
  destruct (getNearestPow2_pow size) as (k & Hk & Hp & _ & _).
  simpl. rewrite Hp. unfold asUintN.
  destruct (Z.le_gt_cases k 31) as [Hle | Hgt].
  - left. exists k. split; [lia |]. apply Z.mod_small.
    split; [apply Z.pow_nonneg; lia | apply Z.pow_lt_mono_r; lia].
  - right. replace k with ((k - 32) + 32) by lia.
    rewrite Z.pow_add_r by lia. apply Z.mod_mul. lia.
Qed.

Lemma constructor_size {prng : Type} (seedrandom : Z -> prng)
    (defaultSeed size fl bs mk : Z) :
  0 < size <= 2 ^ 31 ->
  exists k, 0 <= k <= 31
    /\ CuckooFilter._size
         (CuckooFilter.constructor seedrandom defaultSeed size fl bs mk)
       = 2 ^ k.
Proof.
  intros Hsize. destruct (getNearestPow2_pow size) as (k & Hk & Hp & _ & Hmin).
  assert (k <= 31) by (apply Hmin; lia).
  exists k. split; [lia |]. simpl. rewrite Hp. unfold asUintN.
  apply Z.mod_small. split; [apply Z.pow_nonneg; lia |].
  apply Z.pow_lt_mono_r; lia.
Qed.

Lemma used_replicate (n : nat) (bs : Z) :
  foldl (fun acc val => acc + Bucket.length val) 0
        (replicate n (Bucket.create bs)) = 0.
Proof.
  assert (Hb : Bucket.length (Bucket.create bs) = 0).
  { unfold Bucket.length, Bucket.create. simpl.
    induction (Z.to_nat bs) as [|m IH]; simpl; auto. }
  induction n as [|n IH]; simpl; [reflexivity |].
  rewrite foldl_lengths, IH, Hb. reflexivity.
Qed.

Lemma constructor_pow2_consistent {prng : Type} (seedrandom : Z -> prng)
    (defaultSeed size fl bs mk : Z) :
  (exists k, 0 <= k <= 31
     /\ CuckooFilter._size
          (CuckooFilter.constructor seedrandom defaultSeed size fl bs mk)
        = 2 ^ k) ->
  0 < bs ->
  CuckooFilter.consistent
    (CuckooFilter.constructor seedrandom defaultSeed size fl bs mk).
Proof.
  intros (k & Hk & Hs) Hbs.
  assert (Hpos : 0 < 2 ^ k) by (apply Z.pow_pos_nonneg; lia).
  split; [split; [| split; [| split]] |].
  - simpl in *. unfold allocateArray. rewrite length_replicate. lia.
  - exists k. split; [lia | exact Hs].
  - exact Hbs.
  - simpl. unfold allocateArray. apply Forall_replicate.
    unfold Bucket.wf, Bucket.create. simpl. rewrite length_replicate.
    split; [lia | reflexivity].
  - unfold CuckooFilter.used. simpl. unfold allocateArray.
    now rewrite used_replicate.
Qed.

Lemma constructor_consistent {prng : Type} (seedrandom : Z -> prng)
    (defaultSeed size fl bs mk : Z) :
  0 < size <= 2 ^ 31 -> 0 < bs ->
  CuckooFilter.consistent
    (CuckooFilter.constructor seedrandom defaultSeed size fl bs mk).
Proof.
  intros Hsize. apply constructor_pow2_consistent.
  now apply constructor_size.
Qed.

Section Counter.

Context {prng : Type}.
Variable xxh64 : string -> Z -> Z.
Variable random : prng -> Q * prng.
Hypothesis random_unit : CuckooFilter.unit_random random.
Implicit Types f : CuckooFilter.t prng.

Local Abbreviation add := (CuckooFilter.add xxh64 random).
Local Abbreviation remove := (CuckooFilter.remove xxh64).

Lemma placed_consistent f fp index f' :
  CuckooFilter.consistent f -> CuckooFilter.placed_from f fp index f' ->
  CuckooFilter.consistent f' /\ CuckooFilter.same_parameters f f'.
Proof.
  intros [Hwf Hlen] Hpl.
  destruct (placed_from_wf f fp index f' Hwf Hpl) as (Hwf' & Hp & Hl & Hu).
  split; [split |]; auto. lia.
Qed.

(** [add] keeps a filter consistent, whatever its flags and its outcome. *)
Lemma add_consistent f (x : string) (throwError destructive : bool) :
  CuckooFilter.consistent f ->
  CuckooFilter.consistent (snd (add f x throwError destructive))
  /\ CuckooFilter.same_parameters f (snd (add f x throwError destructive)).
Proof.
  intros Hc. pose proof Hc as [Hwf Hlen]. unfold CuckooFilter.add.
  destruct (CuckooFilter._locations xxh64 f x) as [loc | e];
    [| split; [exact Hc | apply same_parameters_refl]].
  destruct (CuckooFilter.bucket f (CuckooFilter.firstIndex loc))
    as [b1|] eqn:Hb1; [| split; [exact Hc | apply same_parameters_refl]].
  destruct (Bucket.isFree b1) eqn:Hfree1.
  { apply (placed_consistent f (CuckooFilter.fingerprint loc)
             (CuckooFilter.firstIndex loc)); [exact Hc |].
    exists b1. auto. }
  destruct (CuckooFilter.bucket f (CuckooFilter.secondIndex loc))
    as [b2|] eqn:Hb2; [| split; [exact Hc | apply same_parameters_refl]].
  destruct (Bucket.isFree b2) eqn:Hfree2.
  { apply (placed_consistent f (CuckooFilter.fingerprint loc)
             (CuckooFilter.secondIndex loc)); [exact Hc |].
    exists b2. auto. }
  destruct (random (CuckooFilter._rng f)) as [u g].
  set (f0 := CuckooFilter.with_rng f g).
  set (index := if Qle_bool (1 # 2) u then CuckooFilter.secondIndex loc
                else CuckooFilter.firstIndex loc).
  assert (Hwf0 : CuckooFilter.wf f0)
    by (eapply wf_ext; [| | | exact Hwf]; reflexivity).
  assert (Hb0 : exists b, CuckooFilter.bucket f0 index = Some b
                          /\ Bucket.isFree b = false).
  { unfold index. destruct (Qle_bool (1 # 2) u); eauto. }
  destruct Hb0 as (b0 & Hb0 & Hfree0).
  pose proof (kick_invariant xxh64 random random_unit
    (fun f' _ _ => CuckooFilter._length f' = CuckooFilter.used f'
                   /\ CuckooFilter.same_parameters f f')) as Hinv.
  specialize (Hinv ltac:(
    intros fa fpa ia fb tmp ib Hwfa [Hla Hpa] Hk;
    destruct (kicked_from_wf xxh64 _ _ _ _ _ _ Hwfa Hk) as (_ & Hp & Hl & Hu & _);
    split; [lia | eapply same_parameters_trans; eauto])).
  specialize (Hinv (Z.to_nat (CuckooFilter._maxKicks f)) f0
                (CuckooFilter.fingerprint loc) index [] b0 Hwf0).
  specialize (Hinv ltac:(split; [exact Hlen | unfold CuckooFilter.same_parameters; simpl; auto]) Hb0 Hfree0).
  fold f0.
  destruct (CuckooFilter.kick xxh64 random
              (Z.to_nat (CuckooFilter._maxKicks f)) f0
              (CuckooFilter.fingerprint loc) index [])
    as [fk | fk logs | fk] eqn:Hk; cbn [snd].
  - destruct Hinv as (f1 & fp1 & i1 & Hwf1 & [Hl1 Hp1] & Hpl).
    destruct (placed_consistent f1 fp1 i1 fk (conj Hwf1 Hl1) Hpl) as [Hck Hpk].
    split; [exact Hck | eapply same_parameters_trans; eauto].
  - destruct Hinv as (Hwfk & _ & _ & Hlk & Hpk).
    destruct destructive.
    + split; [split |]; assumption.
    + destruct (kick_exhausted xxh64 random _ _ _ _ _ _ _ Hk)
        as (Hf & _ & Hl0).
      simpl in Hf.
      destruct (rollback_fields logs fk) as (Hpr & Hlr & _).
      split; [split |].
      * eapply wf_ext; [exact Hf | | | exact Hwf];
          destruct Hpr as (? & ? & _), Hpk as (? & ? & _); congruence.
      * rewrite Hlr, Hl0. unfold CuckooFilter.used. rewrite Hf. exact Hlen.
      * eapply same_parameters_trans; eauto.
  - contradiction.
Qed.

Lemma remove_consistent f (x : string) :
  CuckooFilter.consistent f ->
  CuckooFilter.consistent (snd (remove f x))
  /\ CuckooFilter.same_parameters f (snd (remove f x)).
Proof.
  intros Hc. pose proof Hc as [Hwf Hlen]. unfold CuckooFilter.remove.
  assert (Hrm : forall i b,
    CuckooFilter.bucket f i = Some b ->
    Bucket.has b x = true \/ True ->
    forall e, Bucket.has b e = true ->
    CuckooFilter.consistent
      (CuckooFilter.with_length
         (CuckooFilter.set_bucket f i (Bucket.remove b e))
         (CuckooFilter._length f - 1))).
  { intros i b Hb _ e He.
    destruct (wf_bucket f i b Hwf Hb) as (Hbwf & Hbsz & _).
    destruct (bucket_remove_wf b e Hbwf) as (Hrwf & Hrsz).
    split.
    - eapply wf_ext;
        [| | | apply (wf_set_bucket f i (Bucket.remove b e))];
        try reflexivity; auto; congruence.
    - change (CuckooFilter._length f - 1
              = CuckooFilter.used
                  (CuckooFilter.set_bucket f i (Bucket.remove b e))).
      rewrite (used_set_bucket f i b) by exact Hb.
      rewrite bucket_remove_length by exact He. lia. }
  destruct (CuckooFilter._locations xxh64 f x) as [loc | e];
    [| split; [exact Hc | apply same_parameters_refl]].
  destruct (CuckooFilter.bucket f (CuckooFilter.firstIndex loc))
    as [b1|] eqn:Hb1; [| split; [exact Hc | apply same_parameters_refl]].
  destruct (Bucket.has b1 (CuckooFilter.fingerprint loc)) eqn:Hh1.
  { split; [eapply Hrm; eauto | unfold CuckooFilter.same_parameters; simpl; auto]. }
  destruct (CuckooFilter.bucket f (CuckooFilter.secondIndex loc))
    as [b2|] eqn:Hb2; [| split; [exact Hc | apply same_parameters_refl]].
  destruct (Bucket.has b2 (CuckooFilter.fingerprint loc)) eqn:Hh2.
  { split; [eapply Hrm; eauto | unfold CuckooFilter.same_parameters; simpl; auto]. }
  split; [exact Hc | apply same_parameters_refl].
Qed.

Lemma step_consistent f (c : CuckooFilter.call) :
  CuckooFilter.consistent f ->
  CuckooFilter.consistent (snd (CuckooFilter.step xxh64 random f c))
  /\ CuckooFilter.same_parameters f
       (snd (CuckooFilter.step xxh64 random f c)).
Proof.
  intros Hc. destruct c as [x t d | x | x]; simpl.
  - now apply add_consistent.
  - now apply remove_consistent.
  - split; [exact Hc | apply same_parameters_refl].
Qed.

Lemma run_consistent (cs : list CuckooFilter.call) f :
  CuckooFilter.consistent f ->
  CuckooFilter.consistent (CuckooFilter.run xxh64 random f cs)
  /\ CuckooFilter.same_parameters f (CuckooFilter.run xxh64 random f cs).
Proof.
  revert f; induction cs as [|c cs IH]; intros f Hc; simpl.
  - split; [exact Hc | apply same_parameters_refl].
  - destruct (step_consistent f c Hc) as [Hc' Hp'].
    destruct (IH _ Hc') as [Hc'' Hp''].
    split; [exact Hc'' | eapply same_parameters_trans; eauto].
Qed.

(** A filter without buckets: every call fails on its first bucket access
    and leaves the filter as it is. *)
Lemma step_no_buckets f (c : CuckooFilter.call) :
  CuckooFilter._filter f = [] ->
  snd (CuckooFilter.step xxh64 random f c) = f.
Proof.
  intros Hnil.
  assert (Hb : forall i, CuckooFilter.bucket f i = None).
  { intros i. unfold CuckooFilter.bucket. rewrite Hnil.
    now destruct (i <? 0). }
  destruct c as [x t d | x | x]; simpl; [| | reflexivity].
  - unfold CuckooFilter.add.
    destruct (CuckooFilter._locations xxh64 f x); [| reflexivity].
    now rewrite Hb.
  - unfold CuckooFilter.remove.
    destruct (CuckooFilter._locations xxh64 f x); [| reflexivity].
    now rewrite Hb.
Qed.

Lemma run_no_buckets (cs : list CuckooFilter.call) f :
  CuckooFilter._filter f = [] -> CuckooFilter.run xxh64 random f cs = f.
Proof.
  intros Hnil. induction cs as [|c cs IH]; [reflexivity |].
  simpl. now rewrite step_no_buckets.
Qed.

(** C10. A filter built by the constructor from a positive bucket size has
    [_length] equal to the sum of the lengths of its buckets, and so has
    every filter reached from it by calls of [add], with any flags and any
    outcome, of [remove] and of [has]. *)
Theorem length_counts_buckets (seedrandom : Z -> prng)
    (defaultSeed size fl bs mk : Z) (cs : list CuckooFilter.call) :
  0 < bs ->
  let f :=
    CuckooFilter.run xxh64 random
      (CuckooFilter.constructor seedrandom defaultSeed size fl bs mk) cs in
  CuckooFilter._length f = CuckooFilter.used f.
Proof.
  intros Hbs f.
  destruct (constructor_size_cases seedrandom defaultSeed size fl bs mk)
    as [Hpow | Hzero].
  - apply (run_consistent cs), constructor_pow2_consistent; assumption.
  - unfold f. rewrite run_no_buckets.
    + unfold CuckooFilter.used. simpl in *. rewrite Hzero. reflexivity.
    + simpl in *. rewrite Hzero. reflexivity.
Qed.

End Counter.

(** ** The fingerprint length check *)

Section LengthCheck.

Context {prng : Type}.
Variable xxh64 : string -> Z -> Z.
Variable random : prng -> Q * prng.
Implicit Types f : CuckooFilter.t prng.

Local Abbreviation hash := (CuckooFilter.hash xxh64).
Local Abbreviation add := (CuckooFilter.add xxh64 random).
Local Abbreviation remove := (CuckooFilter.remove xxh64).
Local Abbreviation has := (CuckooFilter.has xxh64).

Lemma kick_no_invalid (n : nat) f (fp : string) (index : Z)
    (logs : list CuckooFilter.log) (t d : bool) :
  fst match CuckooFilter.kick xxh64 random n f fp index logs with
      | CuckooFilter.Placed f' => (Returned true, f')
      | CuckooFilter.Crashed f' => (Thrown TypeError, f')
      | CuckooFilter.Exhausted f' logs' =>
          (if t then Thrown FilterFull else Returned false,
           if d then f' else CuckooFilter.rollback logs' f')
      end <> Thrown InvalidArgument.
Proof.
  destruct (CuckooFilter.kick xxh64 random n f fp index logs); simpl;
    try destruct t; discriminate.
Qed.

(** C6. The binary writing of the 64-bit hash of an element has 64 digits;
    [add], [has] and [remove] throw the invalid-argument error when that
    number is smaller than [_fingerprintLength], and none of them throws
    it otherwise. *)
Theorem fingerprint_length_check f (x : string) (throwError destructive : bool) :
  let bits := Z.of_nat (String.length (hashstr (hash f x))) in
  bits = 64
  /\ (bits < CuckooFilter._fingerprintLength f ->
      add f x throwError destructive = (Thrown InvalidArgument, f)
      /\ has f x = Thrown InvalidArgument
      /\ remove f x = (Thrown InvalidArgument, f))
  /\ (CuckooFilter._fingerprintLength f <= bits ->
      fst (add f x throwError destructive) <> Thrown InvalidArgument
      /\ has f x <> Thrown InvalidArgument
      /\ fst (remove f x) <> Thrown InvalidArgument).
Proof.
  intros bits. unfold bits.
  rewrite length_hashstr by apply hash_range. change (Z.of_nat 64) with 64.
  split; [reflexivity | split].
  - intros Hlt.
    assert (Hloc : CuckooFilter._locations xxh64 f x = Thrown InvalidArgument).
    { unfold CuckooFilter._locations.
      rewrite length_hashstr by apply hash_range. change (Z.of_nat 64) with 64.
      destruct (Z.ltb_spec 64 (CuckooFilter._fingerprintLength f));
        [reflexivity | lia]. }
    unfold CuckooFilter.add, CuckooFilter.has, CuckooFilter.remove.
    rewrite Hloc. auto.
  - intros Hle. destruct (locations_defined xxh64 f x Hle) as [loc Hloc].
    unfold CuckooFilter.add, CuckooFilter.has, CuckooFilter.remove.
    rewrite Hloc.
    destruct (CuckooFilter.bucket f (CuckooFilter.firstIndex loc)) as [b1|];
      [| simpl; repeat split; discriminate].
    destruct (CuckooFilter.bucket f (CuckooFilter.secondIndex loc)) as [b2|].
    + repeat split.
      * destruct (Bucket.isFree b1); [discriminate |].
        destruct (Bucket.isFree b2); [discriminate |].
        destruct (random (CuckooFilter._rng f)) as [u g].
        apply kick_no_invalid.
      * destruct (Bucket.has b1 _); discriminate.
      * destruct (Bucket.has b1 _); [discriminate |].
        destruct (Bucket.has b2 _); discriminate.
    + repeat split.
      * destruct (Bucket.isFree b1); discriminate.
      * destruct (Bucket.has b1 _); discriminate.
      * destruct (Bucket.has b1 _); discriminate.
Qed.

End LengthCheck.

(** ** Removal *)

Lemma count_slots_bounds (l : list (option string)) (e : string) :
  0 <= Bucket.count_slots l e.
Proof. induction l as [|x l IH]; simpl; [lia |]. destruct (bool_decide _); lia. Qed.

Lemma count_unset_first (l : list (option string)) (e : string) :
  Some e ∈ l ->
  Bucket.count_slots (Bucket.unset_first l e) e = Bucket.count_slots l e - 1.
Proof.
  induction l as [|x l IH]; intros H; [now apply elem_of_nil in H |].
  simpl. destruct (bool_decide_reflect (x = Some e)) as [-> | Hne].
  - simpl. lia.
  - apply elem_of_cons in H as [H | H]; [congruence |].
    simpl. rewrite bool_decide_eq_false_2 by exact Hne. rewrite (IH H). lia.
Qed.

Lemma count_unset_first_ne (l : list (option string)) (e e' : string) :
  e' <> e ->
  Bucket.count_slots (Bucket.unset_first l e) e' = Bucket.count_slots l e'.
Proof.
  intros Hne. induction l as [|x l IH]; [reflexivity |].
  simpl. destruct (bool_decide_reflect (x = Some e)) as [-> | Hx].
  - simpl. rewrite bool_decide_eq_false_2 by congruence. reflexivity.
  - simpl. now rewrite IH.
Qed.

Lemma bucket_remove_one (b : Bucket.t) (e : string) :
  Bucket.has b e = true -> Bucket.removed_one b (Bucket.remove b e) e.
Proof.
  intros H. pose proof (bucket_remove_length b e H) as Hlen.
  apply bucket_has_elem in H.
  unfold Bucket.removed_one, Bucket.count, Bucket.remove. simpl.
  split; [now apply count_unset_first |].
  split; [intros e' He'; now apply count_unset_first_ne |].
  split; [exact Hlen | reflexivity].
Qed.

Section Removal.

Context {prng : Type}.
Variable xxh64 : string -> Z -> Z.
Implicit Types f : CuckooFilter.t prng.

Local Abbreviation remove := (CuckooFilter.remove xxh64).

Lemma locations_buckets f (x : string) (loc : CuckooFilter.locations) :
  CuckooFilter.wf f -> CuckooFilter._locations xxh64 f x = Returned loc ->
  exists b1 b2,
    CuckooFilter.bucket f (CuckooFilter.firstIndex loc) = Some b1
    /\ CuckooFilter.bucket f (CuckooFilter.secondIndex loc) = Some b2.
Proof.
  intros Hwf Hloc.
  destruct (locations_inv xxh64 f x loc Hloc) as (_ & _ & H1 & H2).
  destruct (wf_bucket_defined f (CuckooFilter.firstIndex loc) Hwf) as [b1 Hb1].
  { rewrite H1. now apply rem_index_range. }
  destruct (wf_bucket_defined f (CuckooFilter.secondIndex loc) Hwf) as [b2 Hb2].
  { rewrite H2. now apply rem_index_range. }
  eauto.
Qed.

Lemma removed_from_set_bucket f (i : Z) (b : Bucket.t) (e : string) :
  CuckooFilter.bucket f i = Some b -> Bucket.has b e = true ->
  CuckooFilter.removed_from f i e
    (CuckooFilter.with_length
       (CuckooFilter.set_bucket f i (Bucket.remove b e))
       (CuckooFilter._length f - 1)).
Proof.
  intros Hb Hh. destruct (bucket_Some f i b Hb) as [Hi Hl].
  split; [| split; [| split; [reflexivity | split; [| reflexivity]]]].
  - exists b, (Bucket.remove b e). split; [exact Hb |].
    split; [| now apply bucket_remove_one].
    exact (bucket_set_bucket f i b (Bucket.remove b e) Hb).
  - intros j Hj. unfold CuckooFilter.bucket. simpl.
    destruct (Z.ltb_spec j 0); [reflexivity |].
    apply list_lookup_insert_ne. lia.
  - repeat split.
Qed.

(** C7 (amended). Whatever the filter, [remove] either raises and leaves
    the filter as it is, or does what the claim says. It raises the error of
    [_locations] when [_fingerprintLength] exceeds 64, and a [TypeError] when
    a bucket it looks into is missing. Otherwise it looks into the bucket at
    [firstIndex], then into the bucket at [secondIndex]: the first of the two
    that holds the fingerprint loses one occurrence of it and nothing else,
    no other bucket, sizing field, seed or generator state changes,
    [_length] goes down by one and the call returns [true]; when neither
    holds it the call returns [false] and the filter stays as it is. In a
    well-formed filter no bucket is missing. *)
Theorem remove_first_match f (x : string) :
  (64 < CuckooFilter._fingerprintLength f ->
   remove f x = (Thrown InvalidArgument, f))
  /\ (CuckooFilter._fingerprintLength f <= 64 ->
      exists loc,
        CuckooFilter._locations xxh64 f x = Returned loc
        /\ (CuckooFilter.wf f ->
            is_Some (CuckooFilter.bucket f (CuckooFilter.firstIndex loc))
            /\ is_Some (CuckooFilter.bucket f (CuckooFilter.secondIndex loc)))
        /\ let fp := CuckooFilter.fingerprint loc in
           match CuckooFilter.bucket f (CuckooFilter.firstIndex loc) with
           | None => remove f x = (Thrown TypeError, f)
           | Some b1 =>
               if Bucket.has b1 fp
               then fst (remove f x) = Returned true
                    /\ CuckooFilter.removed_from f (CuckooFilter.firstIndex loc)
                         fp (snd (remove f x))
               else
                 match CuckooFilter.bucket f (CuckooFilter.secondIndex loc) with
                 | None => remove f x = (Thrown TypeError, f)
                 | Some b2 =>
                     if Bucket.has b2 fp
                     then fst (remove f x) = Returned true
                          /\ CuckooFilter.removed_from f
                               (CuckooFilter.secondIndex loc) fp
                               (snd (remove f x))
                     else remove f x = (Returned false, f)
                 end
           end).
Proof.
  split.
  - intros Hfl. unfold CuckooFilter.remove.
    destruct (CuckooFilter._locations xxh64 f x) as [loc | e] eqn:Hloc.
    + destruct (locations_inv xxh64 f x loc Hloc) as (Hle & _). lia.
    + now destruct (locations_thrown xxh64 f x e Hloc) as [-> _].
  - intros Hfl. destruct (locations_defined xxh64 f x Hfl) as [loc Hloc].
    exists loc. split; [exact Hloc | split].
    + intros Hwf.
      destruct (locations_buckets f x loc Hwf Hloc) as (b1 & b2 & Hb1 & Hb2).
      rewrite Hb1, Hb2. split; eexists; reflexivity.
    + intros fp. unfold CuckooFilter.remove. rewrite Hloc. fold fp.
      destruct (CuckooFilter.bucket f (CuckooFilter.firstIndex loc))
        as [b1 |] eqn:Hb1; [| reflexivity].
      destruct (Bucket.has b1 fp) eqn:Hh1.
      { split; [reflexivity |]. now apply removed_from_set_bucket. }
      destruct (CuckooFilter.bucket f (CuckooFilter.secondIndex loc))
        as [b2 |] eqn:Hb2; [| reflexivity].
      destruct (Bucket.has b2 fp) eqn:Hh2; [| reflexivity].
      split; [reflexivity |]. now apply removed_from_set_bucket.
Qed.

End Removal.

(** ** Equality of filters *)

Lemma equals_from_spec (mine theirs : list Bucket.t) (i : nat) :
  (forall j, (j < List.length mine)%nat -> is_Some (theirs !! (i + j)%nat)) ->
  exists r, CuckooFilter.equals_from i mine theirs = Returned r
    /\ (r = true <->
        forall j b o, mine !! j = Some b -> theirs !! (i + j)%nat = Some o ->
                      Bucket.equals o b = true).
Proof.
  revert i; induction mine as [|b mine IH]; intros i Hdef.
  - exists true. split; [reflexivity |]. split; [| reflexivity].
    intros _ j b o Hj. discriminate.
  - simpl. destruct (Hdef 0%nat ltac:(simpl; lia)) as [o Ho].
    rewrite Nat.add_0_r in Ho. rewrite Ho.
    destruct (Bucket.equals o b) eqn:Heq.
    + destruct (IH (S i)) as (r & Hr & Hiff).
      { intros j Hj. specialize (Hdef (S j) ltac:(simpl; lia)).
        now rewrite Nat.add_succ_r in Hdef. }
      exists r. split; [exact Hr |]. rewrite Hiff. split.
      * intros H [|j] b' o' Hb' Ho'.
        -- simpl in Hb'. rewrite Nat.add_0_r in Ho'. congruence.
        -- simpl in Hb'. rewrite Nat.add_succ_r in Ho'. eapply H; eauto.
      * intros H j b' o' Hb' Ho'. apply (H (S j)); [exact Hb' |].
        now rewrite Nat.add_succ_r.
    + exists false. split; [reflexivity |]. split; [discriminate |].
      intros H. specialize (H 0%nat b o eq_refl).
      rewrite Nat.add_0_r in H. specialize (H Ho). congruence.
Qed.

(** C8. For two filters with the same number of buckets, [equals] returns
    a boolean, which is [true] exactly when each bucket of the argument
    equals the bucket of [this] at the same index; the result depends on the
    buckets alone, not on [_seed], [_length], [_bucketSize],
    [_fingerprintLength], [_maxKicks] or [_size]. *)
Theorem equals_compares_buckets {prng : Type} (f g : CuckooFilter.t prng) :
  List.length (CuckooFilter._filter f) = List.length (CuckooFilter._filter g) ->
  (exists r, CuckooFilter.equals f g = Returned r
     /\ (r = true <->
         forall i b o,
           CuckooFilter._filter f !! i = Some b ->
           CuckooFilter._filter g !! i = Some o ->
           Bucket.equals o b = true))
  /\ forall f' g' : CuckooFilter.t prng,
       CuckooFilter._filter f' = CuckooFilter._filter f ->
       CuckooFilter._filter g' = CuckooFilter._filter g ->
       CuckooFilter.equals f' g' = CuckooFilter.equals f g.
Proof.
  intros Hlen. split.
  - unfold CuckooFilter.equals.
    apply (equals_from_spec (CuckooFilter._filter f) (CuckooFilter._filter g) 0).
    intros j Hj. apply lookup_lt_is_Some. simpl. lia.
  - intros f' g' Hf Hg. unfold CuckooFilter.equals. now rewrite Hf, Hg.
Qed.

(** ** No false negatives *)

Lemma elem_of_insert_other {A : Type} (l : list A) (r : nat) (x y old : A) :
  x ∈ l -> l !! r = Some old -> x ∈ <[r := y]> l \/ old = x.
Proof.
  intros Hin Hr. apply list_elem_of_lookup in Hin as [q Hq].
  destruct (decide (q = r)) as [-> | Hne]; [right; congruence | left].
  apply list_elem_of_lookup. exists q. now rewrite list_lookup_insert_ne.
Qed.

Section Membership.

Context {prng : Type}.
Variable xxh64 : string -> Z -> Z.
Variable random : prng -> Q * prng.
Hypothesis random_unit : CuckooFilter.unit_random random.
Implicit Types f : CuckooFilter.t prng.

Local Abbreviation hash := (CuckooFilter.hash xxh64).
Local Abbreviation _locations := (CuckooFilter._locations xxh64).
Local Abbreviation add := (CuckooFilter.add xxh64 random).
Local Abbreviation remove := (CuckooFilter.remove xxh64).
Local Abbreviation has := (CuckooFilter.has xxh64).
Local Abbreviation held := (CuckooFilter.held xxh64).
Local Abbreviation in_bucket := CuckooFilter.in_bucket.

(** The bucket a fingerprint [e] is carried to from bucket [i]. *)
Local Abbreviation alternate f i e :=
  (Z.rem (asUintN 32 (Z.lxor i (hash f e))) (CuckooFilter._size f)).

Lemma locations_same_parameters f f' (x : string) :
  CuckooFilter.same_parameters f f' -> _locations f' x = _locations f x.
Proof.
  intros (Hs & _ & Hfl & _ & Hseed).
  unfold CuckooFilter._locations, CuckooFilter.hash. now rewrite Hs, Hfl, Hseed.
Qed.

Lemma hash_same_parameters f f' (e : string) :
  CuckooFilter.same_parameters f f' -> hash f' e = hash f e.
Proof. intros (_ & _ & _ & _ & Hseed). unfold CuckooFilter.hash. now rewrite Hseed. Qed.

Lemma has_held f (x : string) :
  CuckooFilter.wf f -> (has f x = Returned true <-> held f x).
Proof.
  intros Hwf. unfold CuckooFilter.has, CuckooFilter.held, CuckooFilter.in_bucket.
  destruct (_locations f x) as [loc | e] eqn:Hloc.
  - destruct (locations_buckets xxh64 f x loc Hwf Hloc) as (b1 & b2 & Hb1 & Hb2).
    rewrite Hb1, Hb2. split.
    + intros H. exists loc. split; [reflexivity |].
      destruct (Bucket.has b1 _) eqn:H1; [left; eauto |].
      injection H as H. right; eauto.
    + intros (loc' & [= <-] & [(b & Hb & Hh) | (b & Hb & Hh)]).
      * rewrite Hb1 in Hb. injection Hb as <-. now rewrite Hh.
      * rewrite Hb2 in Hb. injection Hb as <-. rewrite Hh.
        now destruct (Bucket.has b1 _).
  - split; [discriminate | intros (loc & Hl & _); discriminate].
Qed.

(** The two indices of an element are the alternates of each other. *)
Lemma locations_alternate f (x : string) (loc : CuckooFilter.locations) :
  CuckooFilter.wf f -> _locations f x = Returned loc ->
  alternate f (CuckooFilter.firstIndex loc) (CuckooFilter.fingerprint loc)
  = CuckooFilter.secondIndex loc
  /\ alternate f (CuckooFilter.secondIndex loc) (CuckooFilter.fingerprint loc)
     = CuckooFilter.firstIndex loc.
Proof.
  intros Hwf Hloc.
  destruct (locations_inv xxh64 f x loc Hloc) as (_ & _ & H1 & H2).
  pose proof (rem_index_range f (hash f x) Hwf) as R1.
  pose proof (rem_index_range f
    (Z.lxor (hash f x) (hash f (CuckooFilter.fingerprint loc))) Hwf) as R2.
  rewrite <- H1 in R1. rewrite <- H2 in R2.
  destruct Hwf as (_ & (k & Hk & Hs) & _). rewrite Hs in *.
  assert (H2' : CuckooFilter.secondIndex loc
                = Z.lxor (CuckooFilter.firstIndex loc)
                    (hash f (CuckooFilter.fingerprint loc) mod 2 ^ k)).
  { rewrite H2, H1. assert (0 < 2 ^ k) by (apply Z.pow_pos_nonneg; lia).
    rewrite !rem_asUintN by lia. unfold asUintN.
    rewrite !mod_pow2_mod_pow2 by lia. apply lxor_mod_pow2. lia. }
  rewrite !alternate_index by lia. split; [now rewrite H2' |].
  rewrite H2'. apply lxor_involutive.
Qed.

Lemma in_bucket_ext f f' (i : Z) (e : string) :
  CuckooFilter._filter f' = CuckooFilter._filter f ->
  in_bucket f i e -> in_bucket f' i e.
Proof.
  intros Heq (b & Hb & Hh). exists b. split; [| exact Hh].
  unfold CuckooFilter.bucket in *. now rewrite Heq.
Qed.

Lemma bucket_set_bucket_ne f (i j : Z) (b : Bucket.t) :
  0 <= j -> i <> j ->
  CuckooFilter.bucket (CuckooFilter.set_bucket f j b) i
  = CuckooFilter.bucket f i.
Proof.
  intros Hj Hne. unfold CuckooFilter.bucket. simpl.
  destruct (Z.ltb_spec i 0); [reflexivity |].
  apply list_lookup_insert_ne. lia.
Qed.

(** A kick leaves a fingerprint where it is, unless it is the one kicked
    out of its slot. *)
Lemma kicked_keeps f fp index f' tmp index' (i : Z) (e : string) :
  in_bucket f i e ->
  CuckooFilter.kicked_from xxh64 f fp index f' tmp index' ->
  in_bucket f' i e \/ (tmp = e /\ index = i).
Proof.
  intros (bi & Hbi & Hhi) (b & r & g & Hb & _ & Hat & -> & _).
  destruct (bucket_Some _ _ _ Hb) as [Hindex _].
  destruct (Z.eq_dec i index) as [-> | Hne].
  - assert (bi = b) by (rewrite Hb in Hbi; congruence). subst bi.
    destruct (at_Some b r tmp Hat) as [Hr Hslot].
    apply bucket_has_elem in Hhi.
    destruct (elem_of_insert_other _ (Z.to_nat r) _ (Some fp) _ Hhi Hslot)
      as [Hin | Heq].
    + left. exists (Bucket.set b r (Some fp)). split.
      * apply (bucket_set_bucket (CuckooFilter.with_rng f g) index b); exact Hb.
      * apply bucket_has_elem. rewrite set_in_range; [exact Hin | lia |].
        eapply lookup_lt_Some; eauto.
    + right. split; [congruence | reflexivity].
  - left. exists bi. split; [| exact Hhi].
    rewrite bucket_set_bucket_ne by assumption. exact Hbi.
Qed.

Lemma kicked_stores f fp index f' tmp index' :
  CuckooFilter.kicked_from xxh64 f fp index f' tmp index' ->
  in_bucket f' index fp.
Proof.
  intros (b & r & g & Hb & _ & Hat & -> & _).
  destruct (at_Some b r tmp Hat) as [Hr Hslot].
  pose proof (lookup_lt_Some _ _ _ Hslot) as Hlt.
  exists (Bucket.set b r (Some fp)). split.
  - apply (bucket_set_bucket (CuckooFilter.with_rng f g) index b); exact Hb.
  - apply bucket_has_elem. rewrite set_in_range by (assumption || lia).
    simpl. now apply list_elem_of_insert.
Qed.

Lemma placed_keeps f fp index f' (i : Z) (e : string) :
  in_bucket f i e -> CuckooFilter.placed_from f fp index f' ->
  in_bucket f' i e.
Proof.
  intros (bi & Hbi & Hhi) (b & Hb & Hfree & ->).
  destruct (bucket_Some _ _ _ Hb) as [Hindex _].
  apply (in_bucket_ext (CuckooFilter.set_bucket f index (Bucket.add b fp)));
    [reflexivity |].
  destruct (Z.eq_dec i index) as [-> | Hne].
  - assert (bi = b) by (rewrite Hb in Hbi; congruence). subst bi.
    exists (Bucket.add b fp). split; [now apply (bucket_set_bucket f index b) |].
    apply bucket_has_elem. apply bucket_has_elem in Hhi.
    unfold Bucket.add. rewrite Hfree. simpl. now apply elem_of_put_mono.
  - exists bi. split; [| exact Hhi].
    rewrite bucket_set_bucket_ne by assumption. exact Hbi.
Qed.

Lemma placed_stores f fp index f' :
  CuckooFilter.wf f -> CuckooFilter.placed_from f fp index f' ->
  in_bucket f' index fp.
Proof.
  intros Hwf (b & Hb & Hfree & ->).
  destruct (wf_bucket f index b Hwf Hb) as (Hbwf & _ & _).
  apply (in_bucket_ext (CuckooFilter.set_bucket f index (Bucket.add b fp)));
    [reflexivity |].
  exists (Bucket.add b fp). split; [now apply (bucket_set_bucket f index b) |].
  apply bucket_has_elem. unfold Bucket.add. rewrite Hfree. simpl.
  apply elem_of_put. unfold Bucket.wf, Bucket.isFree, Bucket.length in *.
  apply Z.ltb_lt in Hfree. lia.
Qed.

Local Abbreviation tracked := CuckooFilter.tracked.

Lemma tracked_kick f0 (e : string) (i1 i2 : Z) :
  alternate f0 i1 e = i2 -> alternate f0 i2 e = i1 ->
  forall f fp index f' tmp index',
    CuckooFilter.wf f -> tracked f0 e i1 i2 f fp index ->
    CuckooFilter.kicked_from xxh64 f fp index f' tmp index' ->
    tracked f0 e i1 i2 f' tmp index'.
Proof.
  intros A1 A2 f fp index f' tmp index' Hwf [Hp Hsrc] Hk.
  destruct (kicked_from_wf xxh64 _ _ _ _ _ _ Hwf Hk) as (_ & Hp' & _).
  split; [eapply same_parameters_trans; eauto |].
  assert (Halt : index' = alternate f0 index tmp).
  { destruct Hk as (b & r & g & _ & _ & _ & _ & ->).
    rewrite (hash_same_parameters f0 f) by exact Hp.
    destruct Hp as (-> & _). reflexivity. }
  destruct Hsrc as [H | [H | [-> Hidx]]].
  - destruct (kicked_keeps _ _ _ _ _ _ _ _ H Hk) as [H' | [-> ->]]; [auto |].
    right; right. split; [reflexivity | right; congruence].
  - destruct (kicked_keeps _ _ _ _ _ _ _ _ H Hk) as [H' | [-> ->]]; [auto |].
    right; right. split; [reflexivity | left; congruence].
  - pose proof (kicked_stores _ _ _ _ _ _ Hk) as H.
    destruct Hidx as [-> | ->]; auto.
Qed.

(** What [add] does to a tracked fingerprint: it stays in its buckets when
    it was there, and it gets there when it is the fingerprint of the added
    element and the call succeeds. *)
Lemma add_tracked f (y : string) (throwError destructive : bool)
    (e : string) (i1 i2 : Z) :
  CuckooFilter.consistent f ->
  alternate f i1 e = i2 -> alternate f i2 e = i1 ->
  (in_bucket f i1 e \/ in_bucket f i2 e
   \/ exists ly, _locations f y = Returned ly
        /\ CuckooFilter.fingerprint ly = e
        /\ (CuckooFilter.firstIndex ly = i1 \/ CuckooFilter.firstIndex ly = i2)
        /\ (CuckooFilter.secondIndex ly = i1 \/ CuckooFilter.secondIndex ly = i2)
        /\ fst (add f y throwError destructive) = Returned true) ->
  destructive = false
  \/ fst (add f y throwError destructive) = Returned true ->
  in_bucket (snd (add f y throwError destructive)) i1 e
  \/ in_bucket (snd (add f y throwError destructive)) i2 e.
Proof.
  intros [Hwf Hlen] A1 A2. unfold CuckooFilter.add.
  destruct (_locations f y) as [loc | err] eqn:Hloc.
  2: { intros [H | [H | (ly & Hly & _)]] _; auto; discriminate. }
  destruct (CuckooFilter.bucket f (CuckooFilter.firstIndex loc))
    as [b1|] eqn:Hb1.
  2: { intros [H | [H | (ly & _ & _ & _ & _ & Ho)]] _; auto; discriminate. }
  assert (Hplaced : forall index fk fp1 f1,
    CuckooFilter.wf f1 -> tracked f e i1 i2 f1 fp1 index ->
    CuckooFilter.placed_from f1 fp1 index fk ->
    in_bucket fk i1 e \/ in_bucket fk i2 e).
  { intros index fk fp1 f1 Hwf1 [_ Hsrc] Hpl.
    destruct Hsrc as [H | [H | [-> Hidx]]].
    - left. eapply placed_keeps; eauto.
    - right. eapply placed_keeps; eauto.
    - pose proof (placed_stores _ _ _ _ Hwf1 Hpl) as H.
      destruct Hidx as [-> | ->]; auto. }
  destruct (Bucket.isFree b1) eqn:Hfree1.
  { intros Hsrc _. cbn [snd].
    apply (Hplaced (CuckooFilter.firstIndex loc) _
             (CuckooFilter.fingerprint loc) f Hwf).
    - split; [apply same_parameters_refl |].
      destruct Hsrc as [H | [H | (ly & [= <-] & <- & Hi & _)]]; auto.
    - exists b1. auto. }
  destruct (CuckooFilter.bucket f (CuckooFilter.secondIndex loc))
    as [b2|] eqn:Hb2.
  2: { intros [H | [H | (ly & _ & _ & _ & _ & Ho)]] _; auto; discriminate. }
  destruct (Bucket.isFree b2) eqn:Hfree2.
  { intros Hsrc _. cbn [snd].
    apply (Hplaced (CuckooFilter.secondIndex loc) _
             (CuckooFilter.fingerprint loc) f Hwf).
    - split; [apply same_parameters_refl |].
      destruct Hsrc as [H | [H | (ly & [= <-] & <- & _ & Hi & _)]]; auto.
    - exists b2. auto. }
  destruct (random (CuckooFilter._rng f)) as [u g].
  set (f0 := CuckooFilter.with_rng f g).
  set (index := if Qle_bool (1 # 2) u then CuckooFilter.secondIndex loc
                else CuckooFilter.firstIndex loc).
  assert (Hwf0 : CuckooFilter.wf f0)
    by (eapply wf_ext; [| | | exact Hwf]; reflexivity).
  assert (Hb0 : exists b, CuckooFilter.bucket f0 index = Some b
                          /\ Bucket.isFree b = false).
  { unfold index. destruct (Qle_bool (1 # 2) u); eauto. }
  destruct Hb0 as (b0 & Hb0 & Hfree0).
  pose proof (kick_invariant xxh64 random random_unit
                (tracked f e i1 i2) (tracked_kick f e i1 i2 A1 A2)
                (Z.to_nat (CuckooFilter._maxKicks f)) f0
                (CuckooFilter.fingerprint loc) index [] b0 Hwf0) as Hinv.
  destruct (CuckooFilter.kick xxh64 random
              (Z.to_nat (CuckooFilter._maxKicks f)) f0
              (CuckooFilter.fingerprint loc) index [])
    as [fk | fk logs | fk] eqn:Hk; cbn [fst snd]; intros Hsrc Hd.
  - destruct Hinv as (f1 & fp1 & index1 & Hwf1 & Htr & Hpl); auto.
    { split; [unfold CuckooFilter.same_parameters; simpl; auto |].
      destruct Hsrc as [H | [H | (ly & [= <-] & <- & Hi1 & Hi2 & _)]].
      - left. eapply in_bucket_ext; [| exact H]. reflexivity.
      - right; left. eapply in_bucket_ext; [| exact H]. reflexivity.
      - right; right. split; [reflexivity |].
        unfold index. destruct (Qle_bool (1 # 2) u); assumption. }
    eapply Hplaced; eauto.
  - assert (destructive = false) as ->.
    { destruct Hd as [Hd | Hd]; [exact Hd |]. destruct throwError; discriminate. }
    destruct (kick_exhausted xxh64 random _ _ _ _ _ _ _ Hk) as (Hf & _ & _).
    simpl in Hf.
    destruct Hsrc as [H | [H | (ly & _ & _ & _ & _ & Ho)]].
    + left. eapply in_bucket_ext; [exact Hf | exact H].
    + right. eapply in_bucket_ext; [exact Hf | exact H].
    + destruct throwError; discriminate.
  - exfalso. apply Hinv; auto.
    split; [unfold CuckooFilter.same_parameters; simpl; auto |].
    destruct Hsrc as [H | [H | (ly & _ & _ & _ & _ & Ho)]]; [| | discriminate].
    + left. eapply in_bucket_ext; [| exact H]. reflexivity.
    + right; left. eapply in_bucket_ext; [| exact H]. reflexivity.
Qed.

Lemma add_keeps_held f (x y : string) (throwError destructive : bool) :
  CuckooFilter.consistent f -> held f x ->
  destructive = false
  \/ fst (add f y throwError destructive) = Returned true ->
  held (snd (add f y throwError destructive)) x.
Proof.
  intros Hc (loc & Hloc & Hin) Hd.
  destruct (locations_alternate f x loc (proj1 Hc) Hloc) as [A1 A2].
  destruct (add_consistent xxh64 random random_unit f y throwError destructive Hc)
    as [_ Hp].
  exists loc. split; [now rewrite (locations_same_parameters f) |].
  apply (add_tracked f y throwError destructive _ _ _ Hc A1 A2); [| exact Hd].
  destruct Hin; auto.
Qed.

Lemma add_stores_held f (x : string) (throwError destructive : bool) :
  CuckooFilter.consistent f ->
  fst (add f x throwError destructive) = Returned true ->
  held (snd (add f x throwError destructive)) x.
Proof.
  intros Hc Ho.
  destruct (_locations f x) as [loc | err] eqn:Hloc.
  2: { unfold CuckooFilter.add in Ho. rewrite Hloc in Ho. discriminate. }
  destruct (locations_alternate f x loc (proj1 Hc) Hloc) as [A1 A2].
  destruct (add_consistent xxh64 random random_unit f x throwError destructive Hc)
    as [_ Hp].
  exists loc. split; [now rewrite (locations_same_parameters f) |].
  apply (add_tracked f x throwError destructive _ _ _ Hc A1 A2); [| auto].
  right; right. exists loc. auto 10.
Qed.

Lemma removed_keeps f (i j : Z) (e fp : string) (b : Bucket.t) (n : Z) :
  in_bucket f i e -> CuckooFilter.bucket f j = Some b ->
  (i = j -> e <> fp) ->
  in_bucket
    (CuckooFilter.with_length
       (CuckooFilter.set_bucket f j (Bucket.remove b fp)) n) i e.
Proof.
  intros (bi & Hbi & Hhi) Hb Hne.
  destruct (bucket_Some _ _ _ Hb) as [Hj _].
  apply (in_bucket_ext (CuckooFilter.set_bucket f j (Bucket.remove b fp)));
    [reflexivity |].
  destruct (Z.eq_dec i j) as [-> | Hij].
  - assert (bi = b) by (rewrite Hb in Hbi; congruence). subst bi.
    exists (Bucket.remove b fp). split; [now apply (bucket_set_bucket f j b) |].
    apply bucket_has_elem. apply bucket_has_elem in Hhi.
    simpl. apply elem_of_unset_first_ne; auto.
  - exists bi. split; [| exact Hhi].
    rewrite bucket_set_bucket_ne by assumption. exact Hbi.
Qed.

Lemma remove_keeps_held f (x y : string) :
  CuckooFilter.consistent f -> held f x ->
  ~ CuckooFilter.collides xxh64 f x y ->
  held (snd (remove f y)) x.
Proof.
  intros Hc (loc & Hloc & Hin) Hnc.
  destruct (remove_consistent xxh64 f y Hc) as [_ Hp].
  exists loc. split; [now rewrite (locations_same_parameters f) |].
  clear Hp. unfold CuckooFilter.remove.
  destruct (_locations f y) as [ly | err] eqn:Hly; [| exact Hin].
  assert (Hfp : forall i j,
    (i = CuckooFilter.firstIndex loc \/ i = CuckooFilter.secondIndex loc) ->
    (j = CuckooFilter.firstIndex ly \/ j = CuckooFilter.secondIndex ly) ->
    i = j -> CuckooFilter.fingerprint loc <> CuckooFilter.fingerprint ly).
  { intros i j Hi Hj Hij Heq. apply Hnc. exists loc, ly.
    split; [exact Hloc | split; [exact Hly | split; [now symmetry |]]].
    rewrite Hij in Hi.
    destruct Hi as [Hi | Hi], Hj as [Hj | Hj]; rewrite Hj in Hi; auto. }
  destruct (CuckooFilter.bucket f (CuckooFilter.firstIndex ly))
    as [b1|] eqn:Hb1; [| exact Hin].
  destruct (Bucket.has b1 (CuckooFilter.fingerprint ly)).
  { cbn [snd]. destruct Hin as [H | H]; [left | right];
      (eapply removed_keeps; [exact H | exact Hb1 | apply Hfp; auto]). }
  destruct (CuckooFilter.bucket f (CuckooFilter.secondIndex ly))
    as [b2|] eqn:Hb2; [| exact Hin].
  destruct (Bucket.has b2 (CuckooFilter.fingerprint ly)); [| exact Hin].
  cbn [snd]. destruct Hin as [H | H]; [left | right];
    (eapply removed_keeps; [exact H | exact Hb2 | apply Hfp; auto]).
Qed.

Lemma run_keeps_held (cs : list CuckooFilter.call) f (x : string) :
  CuckooFilter.consistent f -> held f x ->
  CuckooFilter.all_harmless xxh64 random f x cs ->
  held (CuckooFilter.run xxh64 random f cs) x.
Proof.
  revert f; induction cs as [|c cs IH]; intros f Hc Hh Hall; [exact Hh |].
  destruct Hall as [Hok Hall]. simpl.
  destruct (step_consistent xxh64 random random_unit f c Hc) as [Hc' _].
  apply IH; [exact Hc' | | exact Hall].
  destruct c as [y t d | y | y]; simpl in *.
  - now apply add_keeps_held.
  - now apply remove_keeps_held.
  - exact Hh.
Qed.

(** C2 (amended). On a filter that is never reseeded: once [add(x)] has
    returned [true], [has(x)] returns [true] after any further calls, as long
    as every later [add] with [destructive = true] succeeds and no element
    that collides with [x] (same fingerprint, a common bucket) is passed to
    [remove]. *)
Theorem no_false_negatives f (x : string) (throwError destructive : bool)
    (cs : list CuckooFilter.call) :
  CuckooFilter.consistent f ->
  fst (add f x throwError destructive) = Returned true ->
  CuckooFilter.all_harmless xxh64 random
    (snd (add f x throwError destructive)) x cs ->
  has (CuckooFilter.run xxh64 random
         (snd (add f x throwError destructive)) cs) x
  = Returned true.
Proof.
  intros Hc Ho Hall.
  destruct (add_consistent xxh64 random random_unit f x throwError destructive Hc)
    as [Hc' _].
  destruct (run_consistent xxh64 random random_unit cs _ Hc') as [[Hwf _] _].
  apply has_held; [exact Hwf |].
  apply run_keeps_held; [exact Hc' | | exact Hall].
  now apply add_stores_held.
Qed.

End Membership.

(** ** The scalable Bloom filter *)

Section Scalable.

Context {store prng : Type}.
Variable allocate : Q -> Q -> Q -> store.
Variable insert : Z -> string -> store -> store.
Variable load : store -> Q.
Variable seedrandom : Z -> prng.
Variable defaultSeed : Z.
Implicit Types f : ScalableBloomFilter.t store prng.
Implicit Types p : PartitionBloomFilter.t store prng.

Local Abbreviation constructor :=
  (ScalableBloomFilter.constructor allocate seedrandom defaultSeed).
Local Abbreviation add :=
  (ScalableBloomFilter.add allocate insert load seedrandom defaultSeed).
Local Abbreviation run :=
  (ScalableBloomFilter.run allocate insert load seedrandom defaultSeed).
Local Abbreviation set_seed := (ScalableBloomFilter.set_seed seedrandom).
Local Abbreviation created_with := ScalableBloomFilter.created_with.

(** C9. Assigning the seed stores it, restarts the generator from it and
    hands it to every inner filter; the inner filters stay in place with
    their bit vectors and sizing, and [_initial_size], [_error_rate] and
    [_ratio] stay as they are. *)
Theorem seed_propagates f (s : Z) :
  ScalableBloomFilter._seed (set_seed s f) = s
  /\ ScalableBloomFilter._rng (set_seed s f) = seedrandom s
  /\ List.length (ScalableBloomFilter._filters (set_seed s f))
     = List.length (ScalableBloomFilter._filters f)
  /\ (forall j p,
        ScalableBloomFilter._filters f !! j = Some p ->
        exists p',
          ScalableBloomFilter._filters (set_seed s f) !! j = Some p'
          /\ PartitionBloomFilter._seed p' = s
          /\ PartitionBloomFilter._rng p' = seedrandom s
          /\ PartitionBloomFilter._filter p' = PartitionBloomFilter._filter p
          /\ PartitionBloomFilter._capacity p'
             = PartitionBloomFilter._capacity p
          /\ PartitionBloomFilter._errorRate p'
             = PartitionBloomFilter._errorRate p
          /\ PartitionBloomFilter._loadFactor p'
             = PartitionBloomFilter._loadFactor p)
  /\ ScalableBloomFilter._initial_size (set_seed s f)
     = ScalableBloomFilter._initial_size f
  /\ ScalableBloomFilter._error_rate (set_seed s f)
     = ScalableBloomFilter._error_rate f
  /\ ScalableBloomFilter._ratio (set_seed s f) = ScalableBloomFilter._ratio f.
Proof.
  repeat split; simpl.
  - apply length_map.
  - intros j p Hj.
    exists (PartitionBloomFilter.set_seed seedrandom s p).
    split; [| repeat split].
    change (map ?g ?l) with (g <$> l). now rewrite list_lookup_fmap, Hj.
Qed.

Local Abbreviation grown_from := ScalableBloomFilter.grown_from.

Lemma constructor_grown (initial_size error_rate ratio : Q) :
  grown_from initial_size error_rate ratio
    (constructor initial_size error_rate ratio).
Proof.
  split; [reflexivity | split; [reflexivity | split; [reflexivity |]]].
  intros [|j] p H; simpl in H; [| discriminate].
  injection H as <-. split; [reflexivity | split; reflexivity].
Qed.

Lemma set_seed_grown (initial_size error_rate ratio : Q) f (s : Z) :
  grown_from initial_size error_rate ratio f ->
  grown_from initial_size error_rate ratio (set_seed s f).
Proof.
  intros (H1 & H2 & H3 & H4).
  split; [exact H1 | split; [exact H2 | split; [exact H3 |]]].
  intros j p H. simpl in H. change (map ?g ?l) with (g <$> l) in H.
  rewrite list_lookup_fmap in H.
  destruct (ScalableBloomFilter._filters f !! j) as [q|] eqn:Hq;
    [| discriminate].
  injection H as <-. exact (H4 j q Hq).
Qed.

Lemma add_to_last_created (initial_size error_rate ratio : Q)
    (x : string) (l : list (PartitionBloomFilter.t store prng)) :
  (forall j p, l !! j = Some p ->
               created_with initial_size error_rate ratio j p) ->
  forall j p,
    ScalableBloomFilter.add_to_last insert x l !! j = Some p ->
    created_with initial_size error_rate ratio j p.
Proof.
  intros Hall j p. unfold ScalableBloomFilter.add_to_last.
  destruct (last l) as [q|] eqn:Hlast; [| apply Hall].
  rewrite last_lookup in Hlast.
  replace (Nat.pred (List.length l)) with (List.length l - 1)%nat in Hlast
    by lia.
  destruct (decide (j = (List.length l - 1)%nat)) as [-> | Hne].
  - rewrite list_lookup_insert_eq by (eapply lookup_lt_Some; eauto).
    intros [= <-]. specialize (Hall _ _ Hlast).
    unfold ScalableBloomFilter.created_with in *. simpl. exact Hall.
  - rewrite list_lookup_insert_ne by auto. apply Hall.
Qed.

Lemma add_grown (initial_size error_rate ratio : Q) f (x : string) :
  grown_from initial_size error_rate ratio f ->
  grown_from initial_size error_rate ratio (snd (add x f)).
Proof.
  intros (H1 & H2 & H3 & H4). unfold ScalableBloomFilter.add.
  destruct (last (ScalableBloomFilter._filters f)) as [cur|] eqn:Hlast.
  2: { split; [exact H1 | split; [exact H2 | split; [exact H3 | exact H4]]]. }
  cbn [snd]. split; [exact H1 | split; [exact H2 | split; [exact H3 |]]].
  simpl. apply add_to_last_created.
  destruct (Qlt_le_dec _ _); [| exact H4].
  intros j p Hj. apply lookup_app_Some in Hj as [Hj | [Hge Hj]];
    [now apply H4 |].
  apply list_lookup_singleton_Some in Hj as [Hj <-].
  assert (j = List.length (ScalableBloomFilter._filters f)) as -> by lia.
  assert (Hpos : (0 < List.length (ScalableBloomFilter._filters f))%nat).
  { destruct (ScalableBloomFilter._filters f); [discriminate | simpl; lia]. }
  unfold ScalableBloomFilter.created_with, ScalableBloomFilter.newSize,
    ScalableBloomFilter.newErrorRate. simpl.
  rewrite H1, H2, H3.
  destruct (List.length (ScalableBloomFilter._filters f)); [lia | auto].
Qed.

(** C4 (amended). After any sequence of [add] calls and seed assignments
    on a filter built with [(initial_size, error_rate, ratio)], the inner
    filter at index [j >= 1] was created with size
    [initial_size * 2^(j+1) * LN2], error rate [error_rate * ratio^j] and
    load factor [ratio]; the initial filter, at index 0, was created with
    size [initial_size], error rate [error_rate] and load factor [ratio]. *)
Theorem inner_filter_parameters (initial_size error_rate ratio : Q)
    (cs : list ScalableBloomFilter.call) (j : nat) p :
  ScalableBloomFilter._filters
    (run (constructor initial_size error_rate ratio) cs) !! j = Some p ->
  created_with initial_size error_rate ratio j p.
Proof.
  assert (H : grown_from initial_size error_rate ratio
                (run (constructor initial_size error_rate ratio) cs)).
  { unfold ScalableBloomFilter.run.
    generalize (constructor_grown initial_size error_rate ratio).
    generalize (constructor initial_size error_rate ratio) as f.
    induction cs as [|c cs IH]; intros f Hf; [exact Hf |].
    simpl. apply IH. destruct c as [x | s]; simpl.
    - now apply add_grown.
    - now apply set_seed_grown. }
  intros Hj. now apply H.
Qed.

End Scalable.

(** ** Sizing by [create] *)

Lemma digits2_pos_bounds (p : positive) :
  2 ^ (Zpos (digits2_pos p) - 1) <= Zpos p < 2 ^ Zpos (digits2_pos p).
Proof.
  induction p as [p IH | p IH |]; cbn [digits2_pos].
  - rewrite Pos2Z.inj_succ.
    replace (Z.succ (Zpos (digits2_pos p)) - 1) with (Zpos (digits2_pos p))
      by lia.
    rewrite Z.pow_succ_r by lia.
    replace (Zpos (digits2_pos p)) with (Zpos (digits2_pos p) - 1 + 1) at 1
      by lia.
    rewrite Z.pow_add_r in * by lia. lia.
  - rewrite Pos2Z.inj_succ.
    replace (Z.succ (Zpos (digits2_pos p)) - 1) with (Zpos (digits2_pos p))
      by lia.
    rewrite Z.pow_succ_r by lia.
    replace (Zpos (digits2_pos p)) with (Zpos (digits2_pos p) - 1 + 1) at 1
      by lia.
    rewrite Z.pow_add_r in * by lia. lia.
  - simpl. lia.
Qed.

Lemma digits2_pos_unique (p : positive) (d : Z) :
  2 ^ (d - 1) <= Zpos p < 2 ^ d -> Zpos (digits2_pos p) = d.
Proof.
  intros [Hlo Hhi]. pose proof (digits2_pos_bounds p) as [Hlo' Hhi'].
  assert (0 < d).
  { destruct (Z.ltb_spec 0 d); [assumption |].
    destruct (Z.eq_dec d 0) as [-> | Hne]; [simpl in Hhi; lia |].
    rewrite Z.pow_neg_r in Hhi by lia. lia. }
  destruct (Z.lt_trichotomy (Zpos (digits2_pos p)) d) as [Hlt | [Heq | Hgt]];
    [| exact Heq |].
  - assert (2 ^ Zpos (digits2_pos p) <= 2 ^ (d - 1))
      by (apply Z.pow_le_mono_r; lia). lia.
  - assert (2 ^ d <= 2 ^ (Zpos (digits2_pos p) - 1))
      by (apply Z.pow_le_mono_r; lia). lia.
Qed.

(** A double between two positive doubles of one binade is of that binade,
    with its mantissa between theirs. *)
Lemma leb_between (lo hi : positive) (e : Z) (x : Number.t) :
  Number.leb (S754_finite false lo e) x = true ->
  Number.leb x (S754_finite false hi e) = true ->
  exists m, x = S754_finite false m e /\ Zpos lo <= Zpos m <= Zpos hi.
Proof.
  unfold Number.leb, SFleb.
  destruct x as [s | s | | s m e']; cbn [SFcompare];
    try discriminate; try (destruct s; discriminate).
  destruct s; [discriminate |].
  destruct (Z.compare_spec e e') as [<- | Hlt | Hgt].
  - rewrite Z.compare_refl.
    change (Pos.compare_cont Eq ?a ?b) with (Pos.compare a b).
    intros H1 H2. exists m. split; [reflexivity |].
    split.
    + destruct (Pos.compare_spec lo m); try discriminate; lia.
    + destruct (Pos.compare_spec m hi); try discriminate; lia.
  - intros _. rewrite (proj2 (Z.compare_gt_iff e' e)) by lia. discriminate.
  - discriminate.
Qed.

(** The rounded sum of a double of [[6.5, 6.75]] and a double of
    [[2.75, 3.25]] lies in [(9, 10]]: the exact sum has 55 bits, two of which
    are rounded away. *)
Lemma add_in_range (ma mb : positive) :
  13 * 2 ^ 49 <= Zpos ma <= 27 * 2 ^ 48 ->
  11 * 2 ^ 49 <= Zpos mb <= 13 * 2 ^ 49 ->
  exists m, Number.add (S754_finite false ma (-50)) (S754_finite false mb (-51))
            = S754_finite false m (-49)
            /\ 9 * 2 ^ 49 < Zpos m <= 10 * 2 ^ 49.
Proof.
  intros Ha Hb.
  change (Number.add _ _)
    with (binary_round Number.prec Number.emax false (ma~0 + mb)%positive (-51)).
  assert (HM : 37 * 2 ^ 49 <= Zpos (ma~0 + mb) <= 40 * 2 ^ 49) by lia.
  revert HM. generalize (ma~0 + mb)%positive as M. clear. intros M HM.
  unfold binary_round.
  assert (Hd : Zpos (digits2_pos M) = 55)
    by (apply digits2_pos_unique; lia).
  rewrite Hd.
  change (shl_align M (-51) _) with (M, -51).
  unfold binary_round_aux, shr_fexp. cbn [Zdigits2]. rewrite Hd.
  change (fexp Number.prec Number.emax (55 + -51) - -51) with 2.
  cbn [shr shr_record_of_loc iter_pos].
  assert (Hcase : forall p (r s : bool),
             9 * 2 ^ 49 < Zpos p ->
             Zpos p + (if r then 1 else 0) <= 10 * 2 ^ 49 ->
             exists m,
               (let '(mrs'', e'') :=
                  shr_fexp Number.prec Number.emax
                    (round_nearest_even
                       (shr_m {| shr_m := Zpos p; shr_r := r; shr_s := s |})
                       (loc_of_shr_record
                          {| shr_m := Zpos p; shr_r := r; shr_s := s |}))
                    (-51 + 2) loc_Exact in
                match shr_m mrs'' with
                | 0 => S754_zero false
                | Zpos m => if e'' <=? Number.emax - Number.prec
                            then S754_finite false m e''
                            else S754_infinity false
                | Zneg _ => S754_nan
                end) = S754_finite false m (-49)
               /\ 9 * 2 ^ 49 < Zpos m <= 10 * 2 ^ 49).
  { intros p r s Hlo Hhi.
    assert (Hm : exists m,
               round_nearest_even (Zpos p)
                 (loc_of_shr_record
                    {| shr_m := Zpos p; shr_r := r; shr_s := s |})
               = Zpos m /\ 9 * 2 ^ 49 < Zpos m <= 10 * 2 ^ 49).
    { destruct r, s; cbn [loc_of_shr_record round_nearest_even].
      - exists (p + 1)%positive. split; [reflexivity | lia].
      - destruct (Z.even (Zpos p)).
        + exists p. split; [reflexivity | lia].
        + exists (p + 1)%positive. split; [reflexivity | lia].
      - exists p. split; [reflexivity | lia].
      - exists p. split; [reflexivity | lia]. }
    destruct Hm as (m & Hm & Hb). cbn [shr_m]. rewrite Hm.
    unfold shr_fexp. cbn [Zdigits2].
    assert (Hd' : Zpos (digits2_pos m) = 53)
      by (apply digits2_pos_unique; lia).
    rewrite Hd'. exists m. split; [reflexivity | exact Hb]. }
  destruct M as [[p | p |] | [p | p |] |]; try lia; cbn [shr_1 orb];
    apply Hcase; lia.
Qed.

Lemma ceil_ten (m : positive) :
  9 * 2 ^ 49 < Zpos m <= 10 * 2 ^ 49 ->
  Number.ceil (S754_finite false m (-49)) = Number.ofZ 10.
Proof.
  intros H. unfold Number.ceil.
  change (0 <=? -49) with false. cbv iota.
  replace (Zneg m / 2 ^ (- -49)) with (-10); [reflexivity |].
  apply (Z.div_unique _ _ _ (Zneg m + 10 * 2 ^ 49)); lia.
Qed.

(** [Math.ceil(a + b)] is 10 for every double [a] of [[6.5, 6.75]] and every
    double [b] of [[2.75, 3.25]]. *)
Lemma ceil_sum_ten (a b : Number.t) :
  Number.leb (Number.literal 13 2) a = true ->
  Number.leb a (Number.literal 27 4) = true ->
  Number.leb (Number.literal 11 4) b = true ->
  Number.leb b (Number.literal 13 4) = true ->
  Number.integer (Number.ceil (Number.add a b)) = Some 10.
Proof.
  intros Ha1 Ha2 Hb1 Hb2.
  destruct (leb_between 7318349394477056 7599824371187712 (-50) a Ha1 Ha2)
    as (ma & -> & Hma).
  destruct (leb_between 6192449487634432 7318349394477056 (-51) b Hb1 Hb2)
    as (mb & -> & Hmb).
  destruct (add_in_range ma mb) as (m & -> & Hm); [lia | lia |].
  now rewrite (ceil_ten m Hm).
Qed.

Lemma constructor_size_pow2 {prng : Type} (seedrandom : Z -> prng)
    (defaultSeed c k bs mk : Z) :
  CuckooFilter._size (CuckooFilter.constructor seedrandom defaultSeed c k bs mk)
  = getNearestPow2 c mod 2 ^ 32
  /\ (c <= 2 ^ 31 ->
      CuckooFilter._size
        (CuckooFilter.constructor seedrandom defaultSeed c k bs mk)
      = getNearestPow2 c).
Proof.
  split; [reflexivity |]. intros Hc.
  change (asUintN 32 (getNearestPow2 c) = getNearestPow2 c).
  destruct (getNearestPow2_pow c) as (j & Hj & -> & _ & Hmin).
  assert (j <= 31) by (apply Hmin; lia).
  unfold asUintN. apply Z.mod_small.
  split; [apply Z.pow_nonneg; lia | apply Z.pow_lt_mono_r; lia].
Qed.

(** C5 (amended). With [capacity] the double
    [Math.ceil(Math.max(n, 32) / bucketSize / 0.955)] and [fl] the double
    [Math.ceil(Math.log2(1 / p) + Math.log2(2 * bucketSize))], both computed
    in double arithmetic as the code computes them: [create(n, p,
    bucketSize)] throws a [RangeError] when [capacity] is not an integer (it
    is infinite for a bucket size of 0); when [capacity] and [fl] are
    integers it builds a filter whose fingerprint length is [fl] and whose
    [_size] is the least power of two that is at least [capacity], reduced
    modulo [2^32]: the power of two itself when [capacity <= 2^31]. In
    particular [create(1000, 0.01, 4)] has [_size = 512], and
    [_fingerprintLength = 10] on every engine whose [Math.log2(100)] lies
    between 6.5 and 6.75 and whose [Math.log2(8)] lies between 2.75 and
    3.25. *)
Theorem create_sizing {prng : Type} (seedrandom : Z -> prng) (defaultSeed : Z)
    (log2 : Number.t -> Number.t)
    (n : Z) (p : Number.t) (bucketSize maxKicks : Z) :
  let create := CuckooFilter.create seedrandom defaultSeed log2 in
  let capacity := CuckooFilter.capacity n bucketSize in
  let fl :=
    CuckooFilter.computeFingerpintLength log2 (Number.ofZ bucketSize) p in
  (Number.integer capacity = None ->
   create n p bucketSize maxKicks = Some (Thrown RangeError))
  /\ (forall c k,
        Number.integer capacity = Some c -> Number.integer fl = Some k ->
        exists f,
          create n p bucketSize maxKicks = Some (Returned f)
          /\ CuckooFilter._fingerprintLength f = k
          /\ (exists j, 0 <= j /\ getNearestPow2 c = 2 ^ j
                /\ c <= 2 ^ j
                /\ forall i, 0 <= i -> c <= 2 ^ i -> j <= i)
          /\ CuckooFilter._size f = getNearestPow2 c mod 2 ^ 32
          /\ (c <= 2 ^ 31 -> CuckooFilter._size f = getNearestPow2 c))
  /\ (Number.leb (Number.literal 13 2) (log2 (Number.ofZ 100)) = true ->
      Number.leb (log2 (Number.ofZ 100)) (Number.literal 27 4) = true ->
      Number.leb (Number.literal 11 4) (log2 (Number.ofZ 8)) = true ->
      Number.leb (log2 (Number.ofZ 8)) (Number.literal 13 4) = true ->
      exists f,
        create 1000 (Number.literal 1 100) 4 maxKicks = Some (Returned f)
        /\ CuckooFilter._fingerprintLength f = 10
        /\ CuckooFilter._size f = 512).
Proof.
  intros create capacity fl. split; [| split].
  - intros Hc. unfold create, CuckooFilter.create. fold capacity.
    now rewrite Hc.
  - intros c k Hc Hk.
    exists (CuckooFilter.constructor seedrandom defaultSeed c k bucketSize
              maxKicks).
    split.
    { unfold create, CuckooFilter.create. fold capacity. fold fl.
      now rewrite Hc, Hk. }
    split; [reflexivity |].
    split; [apply getNearestPow2_pow |].
    apply constructor_size_pow2.
  - intros Ha1 Ha2 Hb1 Hb2.
    exists (CuckooFilter.constructor seedrandom defaultSeed 262 10 4 maxKicks).
    split; [| split; [reflexivity | vm_compute; reflexivity]].
    unfold create, CuckooFilter.create.
    replace (Number.integer (CuckooFilter.capacity 1000 4)) with (Some 262)
      by (vm_compute; reflexivity).
    unfold CuckooFilter.computeFingerpintLength.
    replace (Number.div (Number.ofZ 1) (Number.literal 1 100))
      with (Number.ofZ 100) by (vm_compute; reflexivity).
    replace (Number.mul (Number.ofZ 2) (Number.ofZ 4))
      with (Number.ofZ 8) by (vm_compute; reflexivity).
    now rewrite (ceil_sum_ten _ _ Ha1 Ha2 Hb1 Hb2).
Qed.

(** * The properties on the small instance *)

Lemma demo_random_unit : CuckooFilter.unit_random Demo.random.
Proof.
  intros g. unfold Demo.random, Qle, Qlt. cbn [fst Qnum Qden].
  pose proof (Nat.mod_upper_bound g 4). lia.
Qed.

Lemma demo_small_consistent : CuckooFilter.consistent Demo.small.
Proof. apply constructor_consistent; lia. Qed.

Lemma demo_tiny_consistent : CuckooFilter.consistent Demo.tiny.
Proof. apply constructor_consistent; lia. Qed.

(** C1 at work: the one-slot filter holds ["a"]; adding ["bb"] kicks once,
    gives up and puts the fingerprint of ["a"] back. *)
Lemma add_rollback_witness :
  let f := snd (CuckooFilter.add Demo.xxh64 Demo.random Demo.tiny "a" false false) in
  let f' := CuckooFilter.with_rng f 2%nat in
  CuckooFilter.add Demo.xxh64 Demo.random f "bb" false false
  = (Returned false, f')
  /\ (Returned false = Returned false \/ Returned false = Thrown FilterFull)
  /\ CuckooFilter._filter f' = CuckooFilter._filter f
  /\ CuckooFilter._length f' = CuckooFilter._length f
  /\ CuckooFilter.same_parameters f f'.
Proof.
  intros f f'.
  assert (H1 : CuckooFilter.add Demo.xxh64 Demo.random f "bb" false false
               = (Returned false, f')) by (vm_compute; reflexivity).
  assert (H2 : @Returned bool false = Returned false
               \/ Returned false = Thrown FilterFull) by (left; reflexivity).
  split; [exact H1 | split; [exact H2 |]].
  exact (add_rollback Demo.xxh64 Demo.random f "bb" false _ f' H1 H2).
Defined.

(** C2 as stated fails twice over. In the one-slot filter that holds
    ["a"], a destructive [add] of ["bb"] that finds the filter full leaves
    the fingerprint of ["bb"] in the slot and drops the one of ["a"]; and
    [remove] of ["b"], which has the hash of ["a"], removes the fingerprint
    that stands for both. In each case ["a"] was added with success and
    never removed, and [has("a")] returns [false]. *)
Lemma false_negative_counterexample :
  let add := CuckooFilter.add Demo.xxh64 Demo.random in
  let has := CuckooFilter.has Demo.xxh64 in
  let f := snd (add Demo.tiny "a" false false) in
  fst (add Demo.tiny "a" false false) = Returned true
  /\ has f "a" = Returned true
  /\ add f "bb" false true
     = (Returned false,
        CuckooFilter.with_rng
          (CuckooFilter.with_filter f [Bucket.mk 1 [Some "10"]]) 2%nat)
  /\ has (snd (add f "bb" false true)) "a" = Returned false
  /\ "b" <> "a"
  /\ fst (CuckooFilter.remove Demo.xxh64 f "b") = Returned true
  /\ has (snd (CuckooFilter.remove Demo.xxh64 f "b")) "a" = Returned false.
Proof.
  intros add has f. repeat split; try (vm_compute; reflexivity). discriminate.
Qed.

(** C2 (amended) at work on the four-bucket filter. *)
Lemma no_false_negatives_witness :
  let cs := [CuckooFilter.Add "bb" false false;
             CuckooFilter.Add "ccc" true true;
             CuckooFilter.Remove "bb";
             CuckooFilter.Has "a";
             CuckooFilter.Add "a" false true] in
  let f := snd (CuckooFilter.add Demo.xxh64 Demo.random Demo.small "a" false false) in
  CuckooFilter.unit_random Demo.random
  /\ CuckooFilter.consistent Demo.small
  /\ fst (CuckooFilter.add Demo.xxh64 Demo.random Demo.small "a" false false)
     = Returned true
  /\ CuckooFilter.all_harmless Demo.xxh64 Demo.random f "a" cs
  /\ CuckooFilter.has Demo.xxh64 (CuckooFilter.run Demo.xxh64 Demo.random f cs) "a"
     = Returned true.
Proof.
  intros cs f.
  assert (H1 : fst (CuckooFilter.add Demo.xxh64 Demo.random Demo.small "a"
                      false false) = Returned true)
    by (vm_compute; reflexivity).
  assert (H2 : CuckooFilter.all_harmless Demo.xxh64 Demo.random f "a" cs).
  { repeat split.
    - left; reflexivity.
    - right; vm_compute; reflexivity.
    - intros (lx & ly & Hx & Hy & Hfp & _).
      vm_compute in Hx, Hy.
      injection Hx as <-. injection Hy as <-. discriminate Hfp.
    - right; vm_compute; reflexivity. }
  split; [exact demo_random_unit |].
  split; [exact demo_small_consistent |].
  split; [exact H1 | split; [exact H2 |]].
  exact (no_false_negatives Demo.xxh64 Demo.random demo_random_unit
           Demo.small "a" false false cs demo_small_consistent H1 H2).
Defined.

(** C3 at work: the locations of ["abc"] in the four-bucket filter. *)
Lemma locations_partial_key_witness :
  let loc := CuckooFilter.mkLocations "011" 3 0 in
  (exists k, 0 <= k <= 32 /\ CuckooFilter._size Demo.small = 2 ^ k)
  /\ CuckooFilter._locations Demo.xxh64 Demo.small "abc" = Returned loc
  /\ CuckooFilter.secondIndex loc
     = Z.lxor (CuckooFilter.firstIndex loc)
         (CuckooFilter.hash Demo.xxh64 Demo.small (CuckooFilter.fingerprint loc)
          mod CuckooFilter._size Demo.small)
       mod CuckooFilter._size Demo.small
  /\ String.length (CuckooFilter.fingerprint loc)
     = Z.to_nat (CuckooFilter._fingerprintLength Demo.small)
  /\ digits_value 0 (CuckooFilter.fingerprint loc)
     = CuckooFilter.hash Demo.xxh64 Demo.small "abc"
       mod 2 ^ Z.of_nat (String.length (CuckooFilter.fingerprint loc)).
Proof.
  intros loc.
  assert (H1 : exists k, 0 <= k <= 32 /\ CuckooFilter._size Demo.small = 2 ^ k)
    by (exists 2; split; [lia | reflexivity]).
  assert (H2 : CuckooFilter._locations Demo.xxh64 Demo.small "abc"
               = Returned loc) by (vm_compute; reflexivity).
  split; [exact H1 | split; [exact H2 |]].
  exact (locations_partial_key Demo.xxh64 Demo.small "abc" loc H1 H2).
Defined.

(** C4 as stated fails at index 0: the initial filter of
    [new ScalableBloomFilter(8, 0.01, 0.5)] was created with size 8, and
    [8 * 2^(0+1) * LN2] exceeds 11, so no rounding makes the two agree. *)
Lemma initial_filter_counterexample :
  exists p,
    ScalableBloomFilter._filters Demo.scalable !! 0%nat = Some p
    /\ PartitionBloomFilter._capacity p = 8%Q
    /\ PartitionBloomFilter._errorRate p = (1 # 100)%Q
    /\ (8 + 3 < 8 * ScalableBloomFilter._s ^ Z.of_nat (0 + 1) * LN2)%Q
    /\ ~ (PartitionBloomFilter._capacity p
          == 8 * ScalableBloomFilter._s ^ Z.of_nat (0 + 1) * LN2)%Q.
Proof.
  eexists. split; [reflexivity |]. simpl.
  split; [reflexivity | split; [reflexivity | split]].
  - reflexivity.
  - intros H. vm_compute in H. discriminate H.
Qed.

(** C4 (amended) at work: the fourth [add] meets a filter loaded at 3/4 and
    grows the list; the filter at index 1 was created with size
    [8 * 2^2 * LN2] and error rate [0.01 * 0.5]. *)
Lemma inner_filter_parameters_witness :
  let cs := [ScalableBloomFilter.Add "a"; ScalableBloomFilter.Add "b";
             ScalableBloomFilter.Add "c"; ScalableBloomFilter.Add "d"] in
  let f :=
    ScalableBloomFilter.run Demo.allocate Demo.insert Demo.load
      Demo.seedrandom Demo.defaultSeed
      (ScalableBloomFilter.constructor Demo.allocate Demo.seedrandom
         Demo.defaultSeed 8 (1 # 100) (1 # 2)) cs in
  let p :=
    PartitionBloomFilter.mk (8 * ScalableBloomFilter._s ^ 2 * LN2)%Q
      ((1 # 100) * (1 # 2) ^ 1)%Q (1 # 2)%Q 0 0%nat ["d"] in
  ScalableBloomFilter._filters f !! 1%nat = Some p
  /\ ScalableBloomFilter.created_with 8 (1 # 100) (1 # 2) 1 p.
Proof.
  intros cs f p.
  assert (H : ScalableBloomFilter._filters f !! 1%nat = Some p)
    by reflexivity.
  split; [exact H |].
  exact (inner_filter_parameters Demo.allocate Demo.insert Demo.load
           Demo.seedrandom Demo.defaultSeed 8 (1 # 100) (1 # 2) cs 1 p H).
Defined.

(** C5 as stated fails for large sizes: [create(2^33, 0.01, 1)] asks for
    8994695908 buckets, the next power of two is [2^34], and its low 32 bits
    are 0, whatever [Math.log2] returns. It also fails as a statement on
    exact numbers: for [create(32, 0.953125, 61)] the exact value of
    [log2(1/p) + log2(2*bucketSize)] is [log2(128) = 7], and with the doubles
    nearest to the two logarithms the sum rounds above 7 and the code has
    [_fingerprintLength = 8]; for [n = 191] and [bucketSize = 5] the exact
    quotient is 40 and the code computes a capacity of 41. *)
Lemma create_size_counterexample :
  Number.integer (CuckooFilter.capacity (2 ^ 33) 1) = Some 8994695908
  /\ getNearestPow2 8994695908 = 2 ^ 34
  /\ (forall log2 f,
        CuckooFilter.create Demo.seedrandom Demo.defaultSeed log2
          (2 ^ 33) (Number.literal 1 100) 1 500 = Some (Returned f) ->
        CuckooFilter._size f = 0
        /\ CuckooFilter._size f <> getNearestPow2 8994695908)
  /\ (exists f,
        CuckooFilter.create Demo.seedrandom Demo.defaultSeed Demo.log2
          (2 ^ 33) (Number.literal 1 100) 1 500 = Some (Returned f))
  /\ (1 / (61 # 64) * (2 * 61) == 2 ^ 7)%Q
  /\ (exists f,
        CuckooFilter.create Demo.seedrandom Demo.defaultSeed Demo.log2
          32 (Number.literal 61 64) 61 500 = Some (Returned f)
        /\ CuckooFilter._fingerprintLength f = 8)
  /\ Qceiling (inject_Z (Z.max 191 32) / inject_Z 5 / (955 # 1000))%Q = 40
  /\ Number.integer (CuckooFilter.capacity 191 5) = Some 41.
Proof.
  assert (H1 : Number.integer (CuckooFilter.capacity (2 ^ 33) 1)
               = Some 8994695908) by (vm_compute; reflexivity).
  assert (H2 : getNearestPow2 8994695908 = 2 ^ 34)
    by (vm_compute; reflexivity).
  split; [exact H1 | split; [exact H2 | split; [| split; [| split; [| split]]]]].
  - intros log2 f. unfold CuckooFilter.create. rewrite H1.
    destruct (Number.integer (CuckooFilter.computeFingerpintLength _ _ _))
      as [k |]; [| discriminate].
    intros H. injection H as <-.
    assert (H3 : CuckooFilter._size
                   (CuckooFilter.constructor Demo.seedrandom Demo.defaultSeed
                      8994695908 k 1 500) = 0).
    { change (asUintN 32 (getNearestPow2 8994695908) = 0).
      vm_compute. reflexivity. }
    split; [exact H3 |]. rewrite H3, H2. discriminate.
  - eexists. vm_compute. reflexivity.
  - reflexivity.
  - eexists. split; vm_compute; reflexivity.
  - split; vm_compute; reflexivity.
Qed.

(** C5 (amended) at work on [create(1000, 0.01, 4)]. *)
Lemma create_sizing_witness :
  Number.leb (Number.literal 13 2) (Demo.log2 (Number.ofZ 100)) = true
  /\ Number.leb (Demo.log2 (Number.ofZ 100)) (Number.literal 27 4) = true
  /\ Number.leb (Number.literal 11 4) (Demo.log2 (Number.ofZ 8)) = true
  /\ Number.leb (Demo.log2 (Number.ofZ 8)) (Number.literal 13 4) = true
  /\ exists f,
      CuckooFilter.create Demo.seedrandom Demo.defaultSeed Demo.log2
        1000 (Number.literal 1 100) 4 500 = Some (Returned f)
      /\ CuckooFilter._fingerprintLength f = 10
      /\ CuckooFilter._size f = 512.
Proof.
  assert (H1 : Number.leb (Number.literal 13 2) (Demo.log2 (Number.ofZ 100))
               = true) by (vm_compute; reflexivity).
  assert (H2 : Number.leb (Demo.log2 (Number.ofZ 100)) (Number.literal 27 4)
               = true) by (vm_compute; reflexivity).
  assert (H3 : Number.leb (Number.literal 11 4) (Demo.log2 (Number.ofZ 8))
               = true) by (vm_compute; reflexivity).
  assert (H4 : Number.leb (Demo.log2 (Number.ofZ 8)) (Number.literal 13 4)
               = true) by (vm_compute; reflexivity).
  split; [exact H1 | split; [exact H2 | split; [exact H3 | split; [exact H4 |]]]].
  exact (proj2 (proj2
    (create_sizing Demo.seedrandom Demo.defaultSeed Demo.log2
       1000 (Number.literal 1 100) 4 500)) H1 H2 H3 H4).
Defined.

(** C6 at work: a filter with fingerprints of 65 bits refuses every
    element, the four-bucket filter with fingerprints of 3 bits none. *)
Lemma fingerprint_length_check_witness :
  let wide := CuckooFilter.constructor Demo.seedrandom Demo.defaultSeed 4 65 2 8 in
  (CuckooFilter.add Demo.xxh64 Demo.random wide "a" false false
   = (Thrown InvalidArgument, wide)
   /\ CuckooFilter.has Demo.xxh64 wide "a" = Thrown InvalidArgument
   /\ CuckooFilter.remove Demo.xxh64 wide "a" = (Thrown InvalidArgument, wide))
  /\ (fst (CuckooFilter.add Demo.xxh64 Demo.random Demo.small "a" false false)
      <> Thrown InvalidArgument
      /\ CuckooFilter.has Demo.xxh64 Demo.small "a" <> Thrown InvalidArgument
      /\ fst (CuckooFilter.remove Demo.xxh64 Demo.small "a")
         <> Thrown InvalidArgument).
Proof.
  intros wide. split.
  - destruct (fingerprint_length_check Demo.xxh64 Demo.random wide "a"
                false false) as (Hbits & Hthrow & _).
    apply Hthrow. rewrite Hbits. simpl. lia.
  - destruct (fingerprint_length_check Demo.xxh64 Demo.random Demo.small "a"
                false false) as (Hbits & _ & Hfine).
    apply Hfine. rewrite Hbits. simpl. lia.
Defined.

(** C7 as stated fails: [remove] raises on filters that hold the
    fingerprint of ["a"] in no bucket. [new CuckooFilter(4, 65, 2, 8)] is
    well-formed and empty, and [remove("a")] raises the error of
    [_locations]; [new CuckooFilter(2^33, 3, 2, 8)] has no bucket, and
    [remove("a")] raises a [TypeError]. *)
Lemma remove_raises_counterexample :
  let wide :=
    CuckooFilter.constructor Demo.seedrandom Demo.defaultSeed 4 65 2 8 in
  let hollow :=
    CuckooFilter.constructor Demo.seedrandom Demo.defaultSeed (2 ^ 33) 3 2 8 in
  CuckooFilter.wf wide
  /\ CuckooFilter.used wide = 0
  /\ CuckooFilter.remove Demo.xxh64 wide "a" = (Thrown InvalidArgument, wide)
  /\ fst (CuckooFilter.remove Demo.xxh64 wide "a") <> Returned false
  /\ CuckooFilter._filter hollow = []
  /\ CuckooFilter.remove Demo.xxh64 hollow "a" = (Thrown TypeError, hollow)
  /\ fst (CuckooFilter.remove Demo.xxh64 hollow "a") <> Returned false.
Proof.
  intros wide hollow.
  assert (Hwf : CuckooFilter.wf wide).
  { apply (constructor_consistent Demo.seedrandom Demo.defaultSeed 4 65 2 8);
      lia. }
  assert (H1 : CuckooFilter.remove Demo.xxh64 wide "a"
               = (Thrown InvalidArgument, wide)) by (vm_compute; reflexivity).
  assert (H2 : CuckooFilter._filter hollow = []).
  { change (allocateArray (asUintN 32 (getNearestPow2 (2 ^ 33)))
              (Bucket.create 2) = []).
    replace (asUintN 32 (getNearestPow2 (2 ^ 33))) with 0
      by (vm_compute; reflexivity).
    reflexivity. }
  assert (H3 : CuckooFilter.remove Demo.xxh64 hollow "a"
               = (Thrown TypeError, hollow)).
  { unfold CuckooFilter.remove.
    destruct (CuckooFilter._locations Demo.xxh64 hollow "a")
      as [loc | e] eqn:Hloc.
    - assert (Hb : forall i, CuckooFilter.bucket hollow i = None).
      { intros i. unfold CuckooFilter.bucket. rewrite H2.
        now destruct (i <? 0). }
      now rewrite Hb.
    - destruct (locations_thrown Demo.xxh64 hollow "a" e Hloc) as [_ Hfl].
      simpl in Hfl. lia. }
  split; [exact Hwf |].
  split; [vm_compute; reflexivity |].
  split; [exact H1 |].
  split; [rewrite H1; discriminate |].
  split; [exact H2 |].
  split; [exact H3 | rewrite H3; discriminate].
Qed.

(** C7 (amended) at work: ["a"] sits in bucket 1 of the four-bucket filter
    and [remove] takes it out of there; [_length] falls from 1 to 0. *)
Lemma remove_first_match_witness :
  let f := snd (CuckooFilter.add Demo.xxh64 Demo.random Demo.small "a" false false) in
  let f' := snd (CuckooFilter.remove Demo.xxh64 f "a") in
  CuckooFilter._fingerprintLength f <= 64
  /\ CuckooFilter.wf f
  /\ CuckooFilter._locations Demo.xxh64 f "a"
     = Returned (CuckooFilter.mkLocations "001" 1 2)
  /\ fst (CuckooFilter.remove Demo.xxh64 f "a") = Returned true
  /\ CuckooFilter._length f = 1
  /\ CuckooFilter.removed_from f 1 "001" f'.
Proof.
  intros f f'.
  assert (H0 : CuckooFilter._fingerprintLength f <= 64)
    by (vm_compute; discriminate).
  assert (H1 : CuckooFilter.wf f).
  { apply (add_consistent Demo.xxh64 Demo.random demo_random_unit
             Demo.small "a" false false demo_small_consistent). }
  assert (H2 : CuckooFilter._locations Demo.xxh64 f "a"
               = Returned (CuckooFilter.mkLocations "001" 1 2))
    by (vm_compute; reflexivity).
  split; [exact H0 | split; [exact H1 | split; [exact H2 |]]].
  destruct (proj2 (remove_first_match Demo.xxh64 f "a") H0)
    as (loc & Hloc & _ & Hcases).
  rewrite H2 in Hloc. injection Hloc as <-.
  cbn [CuckooFilter.firstIndex CuckooFilter.fingerprint] in Hcases.
  replace (CuckooFilter.bucket f 1)
    with (Some (Bucket.mk 2 [Some "001"; None])) in Hcases
    by (vm_compute; reflexivity).
  replace (Bucket.has (Bucket.mk 2 [Some "001"; None]) "001") with true
    in Hcases by (vm_compute; reflexivity).
  destruct Hcases as [Ht Hr].
  split; [exact Ht | split; [vm_compute; reflexivity | exact Hr]].
Defined.

(** C8 at work: the empty four-bucket filter against the one that holds
    ["a"]. *)
Lemma equals_compares_buckets_witness :
  let f := Demo.small in
  let g := snd (CuckooFilter.add Demo.xxh64 Demo.random Demo.small "a" false false) in
  List.length (CuckooFilter._filter f) = List.length (CuckooFilter._filter g)
  /\ CuckooFilter.equals f g = Returned false
  /\ CuckooFilter.equals (CuckooFilter.with_length f 7) g
     = CuckooFilter.equals f g.
Proof.
  intros f g.
  assert (H : List.length (CuckooFilter._filter f)
              = List.length (CuckooFilter._filter g)) by reflexivity.
  split; [exact H |].
  split; [vm_compute; reflexivity |].
  exact (proj2 (equals_compares_buckets f g H)
           (CuckooFilter.with_length f 7) g eq_refl eq_refl).
Defined.

(** C9 at work: seed 42 on [new ScalableBloomFilter(8, 0.01, 0.5)] after
    one insertion. *)
Lemma seed_propagates_witness :
  let f :=
    ScalableBloomFilter.run Demo.allocate Demo.insert Demo.load
      Demo.seedrandom Demo.defaultSeed Demo.scalable
      [ScalableBloomFilter.Add "a"] in
  let f' := ScalableBloomFilter.set_seed Demo.seedrandom 42 f in
  ScalableBloomFilter._seed f' = 42
  /\ ScalableBloomFilter._filters f'
     = [PartitionBloomFilter.mk 8%Q (1 # 100)%Q (1 # 2)%Q 42 42%nat ["a"]].
Proof.
  intros f f'.
  split; [exact (proj1 (seed_propagates Demo.seedrandom f 42)) | reflexivity].
Defined.

(** C10 at work: five insertions of one element fill its two buckets and
    fail the fifth time; a removal follows. *)
Lemma length_counts_buckets_witness :
  let cs := [CuckooFilter.Add "a" false false; CuckooFilter.Add "a" false false;
             CuckooFilter.Add "a" false false; CuckooFilter.Add "a" false false;
             CuckooFilter.Add "a" false true; CuckooFilter.Remove "a"] in
  let f :=
    CuckooFilter.run Demo.xxh64 Demo.random
      (CuckooFilter.constructor Demo.seedrandom Demo.defaultSeed 4 3 2 8) cs in
  CuckooFilter.unit_random Demo.random
  /\ 0 < 2
  /\ CuckooFilter._length f = 3
  /\ CuckooFilter._length f = CuckooFilter.used f.
Proof.
  intros cs f.
  assert (H : 0 < 2) by lia.
  split; [exact demo_random_unit | split; [exact H |]].
  split; [vm_compute; reflexivity |].
  exact (length_counts_buckets Demo.xxh64 Demo.random demo_random_unit
           Demo.seedrandom Demo.defaultSeed 4 3 2 8 cs H).
Defined.

(** * Further properties of the cuckoo filter *)

Section Outcomes.

Context {prng : Type}.
Variable xxh64 : string -> Z -> Z.
Variable random : prng -> Q * prng.
Implicit Types f : CuckooFilter.t prng.

Local Abbreviation add := (CuckooFilter.add xxh64 random).
Local Abbreviation remove := (CuckooFilter.remove xxh64).
Local Abbreviation has := (CuckooFilter.has xxh64).

(** The loop counts one more element exactly when it places one. *)
Lemma kick_length (n : nat) :
  forall f (fp : string) (index : Z) (logs : list CuckooFilter.log),
    match CuckooFilter.kick xxh64 random n f fp index logs with
    | CuckooFilter.Placed f' =>
        CuckooFilter._length f' = CuckooFilter._length f + 1
    | CuckooFilter.Exhausted f' _ =>
        CuckooFilter._length f' = CuckooFilter._length f
    | CuckooFilter.Crashed f' =>
        CuckooFilter._length f' = CuckooFilter._length f
    end.
Proof.
  induction n as [|n IH]; intros f fp index logs; [reflexivity |].
  cbn [CuckooFilter.kick].
  destruct (CuckooFilter.bucket f index) as [b|]; [| reflexivity].
  destruct (randomInt random 0 (Bucket.length b - 1) (CuckooFilter._rng f))
    as [r g].
  destruct (Bucket.at_ b r) as [tmp|]; [| reflexivity].
  match goal with
  | |- context [CuckooFilter.bucket ?f1 ?i1] =>
      destruct (CuckooFilter.bucket f1 i1) as [b'|]; [| reflexivity]
  end.
  destruct (Bucket.isFree b'); [reflexivity |].
  match goal with
  | |- context [CuckooFilter.kick _ _ n ?f1 ?fp1 ?i1 ?l1] =>
      specialize (IH f1 fp1 i1 l1);
      destruct (CuckooFilter.kick xxh64 random n f1 fp1 i1 l1); exact IH
  end.
Qed.

Lemma add_length f (x : string) (throwError destructive : bool) :
  CuckooFilter._length (snd (add f x throwError destructive))
  = match fst (add f x throwError destructive) with
    | Returned true => CuckooFilter._length f + 1
    | _ => CuckooFilter._length f
    end.
Proof.
  unfold CuckooFilter.add.
  destruct (CuckooFilter._locations xxh64 f x) as [loc | e]; [| reflexivity].
  destruct (CuckooFilter.bucket f (CuckooFilter.firstIndex loc)) as [b1|];
    [| reflexivity].
  destruct (Bucket.isFree b1); [reflexivity |].
  destruct (CuckooFilter.bucket f (CuckooFilter.secondIndex loc)) as [b2|];
    [| reflexivity].
  destruct (Bucket.isFree b2); [reflexivity |].
  destruct (random (CuckooFilter._rng f)) as [u g].
  match goal with
  | |- context [CuckooFilter.kick _ _ ?n ?f0 ?fp ?i ?l] =>
      pose proof (kick_length n f0 fp i l) as Hk;
      destruct (CuckooFilter.kick xxh64 random n f0 fp i l) as [fk | fk logs | fk]
  end; cbn [fst snd].
  - exact Hk.
  - assert (Hlen : CuckooFilter._length
                     (if destructive then fk else CuckooFilter.rollback logs fk)
                   = CuckooFilter._length f).
    { destruct destructive; [exact Hk |].
      destruct (rollback_fields logs fk) as (_ & Hl & _). now rewrite Hl. }
    destruct throwError; exact Hlen.
  - exact Hk.
Qed.

(** X1. The counter follows the outcome: [add] raises [_length] by one
    when it returns [true] and leaves it alone otherwise (a [false], any
    exception); [remove] lowers it by one when it returns [true] and leaves
    it alone otherwise. *)
Theorem length_follows_outcome f (x : string) (throwError destructive : bool) :
  CuckooFilter._length (snd (add f x throwError destructive))
  = match fst (add f x throwError destructive) with
    | Returned true => CuckooFilter._length f + 1
    | _ => CuckooFilter._length f
    end
  /\ CuckooFilter._length (snd (remove f x))
     = match fst (remove f x) with
       | Returned true => CuckooFilter._length f - 1
       | _ => CuckooFilter._length f
       end.
Proof.
  split; [apply add_length |].
  unfold CuckooFilter.remove.
  destruct (CuckooFilter._locations xxh64 f x) as [loc | e]; [| reflexivity].
  destruct (CuckooFilter.bucket f (CuckooFilter.firstIndex loc)) as [b1|];
    [| reflexivity].
  destruct (Bucket.has b1 _); [reflexivity |].
  destruct (CuckooFilter.bucket f (CuckooFilter.secondIndex loc)) as [b2|];
    [| reflexivity].
  destruct (Bucket.has b2 _); reflexivity.
Qed.

Lemma remove_has f (x : string) : fst (remove f x) = has f x.
Proof.
  unfold CuckooFilter.remove, CuckooFilter.has.
  destruct (CuckooFilter._locations xxh64 f x) as [loc | e]; [| reflexivity].
  destruct (CuckooFilter.bucket f (CuckooFilter.firstIndex loc)) as [b1|];
    [| reflexivity].
  destruct (Bucket.has b1 _); [reflexivity |].
  destruct (CuckooFilter.bucket f (CuckooFilter.secondIndex loc)) as [b2|];
    [| reflexivity].
  destruct (Bucket.has b2 _); reflexivity.
Qed.

Lemma bucket_length_le_used f (i : Z) (b : Bucket.t) :
  CuckooFilter.bucket f i = Some b -> Bucket.length b <= CuckooFilter.used f.
Proof.
  unfold CuckooFilter.bucket, CuckooFilter.used.
  destruct (i <? 0); [discriminate |].
  generalize (Z.to_nat i) as n. generalize (CuckooFilter._filter f) as l.
  assert (Hnn : forall l : list Bucket.t,
             0 <= foldl (fun acc val => acc + Bucket.length val) 0 l).
  { induction l as [|y l IH]; simpl; [lia |].
    rewrite foldl_lengths.
    pose proof (occupied_bounds (Bucket._elements y)) as Hy.
    change (Bucket.occupied (Bucket._elements y)) with (Bucket.length y) in Hy.
    lia. }
  induction l as [|y l IH]; intros n Hn; [discriminate |].
  simpl. rewrite foldl_lengths. destruct n as [|n]; simpl in Hn.
  - injection Hn as ->. specialize (Hnn l). lia.
  - specialize (IH n Hn).
    pose proof (occupied_bounds (Bucket._elements y)) as Hy.
    change (Bucket.occupied (Bucket._elements y)) with (Bucket.length y) in Hy.
    lia.
Qed.

(** X3. While a well-formed filter holds fewer elements than one bucket
    has slots, [add] succeeds (given a fingerprint length of at most 64),
    without a relocation: the generator is not drawn from. *)
Theorem early_add_succeeds f (x : string) (throwError destructive : bool) :
  CuckooFilter.consistent f ->
  CuckooFilter._fingerprintLength f <= 64 ->
  CuckooFilter._length f < CuckooFilter._bucketSize f ->
  fst (add f x throwError destructive) = Returned true
  /\ CuckooFilter._rng (snd (add f x throwError destructive))
     = CuckooFilter._rng f.
Proof.
  intros [Hwf Hlen] Hfl Hfew.
  destruct (locations_defined xxh64 f x Hfl) as [loc Hloc].
  destruct (locations_buckets xxh64 f x loc Hwf Hloc) as (b1 & b2 & Hb1 & _).
  unfold CuckooFilter.add. rewrite Hloc, Hb1.
  destruct (wf_bucket f _ b1 Hwf Hb1) as (_ & Hsz & _).
  pose proof (bucket_length_le_used f _ b1 Hb1) as Hle.
  assert (Hfree : Bucket.isFree b1 = true).
  { unfold Bucket.isFree. apply Z.ltb_lt. lia. }
  rewrite Hfree. split; reflexivity.
Qed.

End Outcomes.

Lemma unset_first_put (l : list (option string)) (e : string) :
  Some e ∉ l -> Bucket.occupied l < Z.of_nat (List.length l) ->
  Bucket.unset_first (Bucket.put l e) e = l.
Proof.
  induction l as [|[y|] l IH]; simpl Bucket.occupied; simpl List.length;
    intros Hnot Hocc; [lia | |].
  - simpl. rewrite bool_decide_eq_false_2.
    + rewrite IH; [reflexivity | | lia].
      intros H. apply Hnot. now apply list_elem_of_further.
    + intros [= ->]. apply Hnot. apply list_elem_of_here.
  - simpl. now rewrite bool_decide_eq_true_2.
Qed.

Lemma bucket_remove_add (b : Bucket.t) (e : string) :
  Bucket.wf b -> Bucket.isFree b = true -> Bucket.has b e = false ->
  Bucket.remove (Bucket.add b e) e = b.
Proof.
  unfold Bucket.wf, Bucket.add, Bucket.remove, Bucket.has.
  intros Hwf Hfree Hhas. rewrite Hfree. simpl.
  unfold Bucket.isFree, Bucket.length in Hfree. apply Z.ltb_lt in Hfree.
  apply bool_decide_eq_false in Hhas.
  rewrite unset_first_put by (assumption || lia). now destruct b.
Qed.

Lemma bucket_add_has (b : Bucket.t) (e : string) :
  Bucket.wf b -> Bucket.isFree b = true -> Bucket.has (Bucket.add b e) e = true.
Proof.
  unfold Bucket.wf, Bucket.add. intros Hwf Hfree. rewrite Hfree.
  apply bucket_has_elem. simpl. apply elem_of_put.
  unfold Bucket.isFree, Bucket.length in Hfree. apply Z.ltb_lt in Hfree. lia.
Qed.

Lemma lengths_bounded (c : Z) (l : list Bucket.t) :
  Forall (fun b => Bucket.length b <= c) l ->
  foldl (fun acc val => acc + Bucket.length val) 0 l
  <= Z.of_nat (List.length l) * c.
Proof.
  induction 1 as [|b l Hb _ IH]; simpl foldl; simpl List.length; [lia |].
  rewrite foldl_lengths. lia.
Qed.

Lemma lengths_saturated (c : Z) (l : list Bucket.t) :
  Forall (fun b => Bucket.length b <= c) l ->
  foldl (fun acc val => acc + Bucket.length val) 0 l
  = Z.of_nat (List.length l) * c ->
  Forall (fun b => Bucket.length b = c) l.
Proof.
  induction 1 as [|b l Hb Hl IH]; simpl foldl; simpl List.length;
    [constructor |].
  rewrite foldl_lengths. intros Hsum.
  pose proof (lengths_bounded c l Hl).
  constructor; [lia | apply IH; lia].
Qed.

Lemma wf_lengths {prng : Type} (f : CuckooFilter.t prng) :
  CuckooFilter.wf f ->
  Forall (fun b => Bucket.length b <= CuckooFilter._bucketSize f)
         (CuckooFilter._filter f).
Proof.
  intros (_ & _ & _ & Hall). eapply Forall_impl; [exact Hall |].
  intros b [Hwf Hsz]. unfold Bucket.wf, Bucket.length in *.
  pose proof (occupied_bounds (Bucket._elements b)). lia.
Qed.

Section Guarantees.

Context {prng : Type}.
Variable xxh64 : string -> Z -> Z.
Variable random : prng -> Q * prng.
Hypothesis random_unit : CuckooFilter.unit_random random.
Implicit Types f : CuckooFilter.t prng.

Local Abbreviation add := (CuckooFilter.add xxh64 random).
Local Abbreviation remove := (CuckooFilter.remove xxh64).
Local Abbreviation has := (CuckooFilter.has xxh64).

(** X2. On a well-formed filter whose fingerprint length is at most 64
    no call fails on a missing bucket or slot: [add] returns [true] or
    signals a full filter the way [throwError] asks for, and [has] and
    [remove] return a boolean. *)
Theorem calls_do_not_crash f (x : string) (throwError destructive : bool) :
  CuckooFilter.wf f ->
  CuckooFilter._fingerprintLength f <= 64 ->
  (fst (add f x throwError destructive) = Returned true
   \/ fst (add f x throwError destructive)
      = if throwError then Thrown FilterFull else Returned false)
  /\ (exists r, has f x = Returned r)
  /\ (exists r, fst (remove f x) = Returned r).
Proof.
  intros Hwf Hfl.
  destruct (locations_defined xxh64 f x Hfl) as [loc Hloc].
  destruct (locations_buckets xxh64 f x loc Hwf Hloc) as (b1 & b2 & Hb1 & Hb2).
  assert (Hhas : exists r, has f x = Returned r).
  { unfold CuckooFilter.has. rewrite Hloc, Hb1, Hb2.
    destruct (Bucket.has b1 _); eauto. }
  split; [| split; [exact Hhas | now rewrite remove_has]].
  unfold CuckooFilter.add. rewrite Hloc, Hb1.
  destruct (Bucket.isFree b1) eqn:Hfree1; [now left |].
  rewrite Hb2. destruct (Bucket.isFree b2) eqn:Hfree2; [now left |].
  destruct (random (CuckooFilter._rng f)) as [u g].
  set (f0 := CuckooFilter.with_rng f g).
  set (index := if Qle_bool (1 # 2) u then CuckooFilter.secondIndex loc
                else CuckooFilter.firstIndex loc).
  assert (Hwf0 : CuckooFilter.wf f0)
    by (eapply wf_ext; [| | | exact Hwf]; reflexivity).
  assert (Hb0 : exists b, CuckooFilter.bucket f0 index = Some b
                          /\ Bucket.isFree b = false).
  { unfold index. destruct (Qle_bool (1 # 2) u); eauto. }
  destruct Hb0 as (b0 & Hb0 & Hfree0).
  pose proof (kick_invariant xxh64 random random_unit (fun _ _ _ => True)
                (fun _ _ _ _ _ _ _ _ _ => I)
                (Z.to_nat (CuckooFilter._maxKicks f)) f0
                (CuckooFilter.fingerprint loc) index [] b0 Hwf0 I Hb0 Hfree0)
    as Hinv.
  destruct (CuckooFilter.kick xxh64 random
              (Z.to_nat (CuckooFilter._maxKicks f)) f0
              (CuckooFilter.fingerprint loc) index [])
    as [fk | fk logs | fk]; cbn [fst].
  - now left.
  - now right.
  - contradiction.
Qed.

(** X4. What [add] stored, [remove] finds: after a successful [add(x)] on
    a consistent filter, [remove(x)] returns [true]. *)
Theorem added_can_be_removed f (x : string) (throwError destructive : bool) :
  CuckooFilter.consistent f ->
  fst (add f x throwError destructive) = Returned true ->
  fst (remove (snd (add f x throwError destructive)) x) = Returned true.
Proof.
  intros Hc Ho. rewrite remove_has.
  destruct (add_consistent xxh64 random random_unit f x throwError destructive Hc)
    as [[Hwf _] _].
  apply has_held; [exact Hwf |].
  now apply add_stores_held.
Qed.

(** X6. A filter whose counter has reached [fullSize] takes no more
    elements: every bucket is full, and [add] signals a full filter the way
    [throwError] asks for, with or without [destructive]. *)
Theorem full_filter_rejects f (x : string) (throwError destructive : bool) :
  CuckooFilter.consistent f ->
  CuckooFilter._fingerprintLength f <= 64 ->
  CuckooFilter._length f = CuckooFilter.fullSize f ->
  fst (add f x throwError destructive)
  = if throwError then Thrown FilterFull else Returned false.
Proof.
  intros [Hwf Hlen] Hfl Hfull.
  assert (Hall : forall i b, CuckooFilter.bucket f i = Some b ->
                             Bucket.isFree b = false).
  { intros i b Hb. destruct (wf_bucket f i b Hwf Hb) as (_ & Hsz & _).
    destruct (bucket_Some f i b Hb) as [_ Hl].
    pose proof (lengths_saturated _ _ (wf_lengths f Hwf)) as Hsat.
    unfold CuckooFilter.fullSize, CuckooFilter.size in Hfull.
    destruct Hwf as (Hn & _). rewrite <- Hn, Hlen in Hfull.
    specialize (Hsat Hfull).
    pose proof (Forall_lookup_1 _ _ _ _ Hsat Hl) as Hb'. simpl in Hb'.
    unfold Bucket.isFree. apply Z.ltb_ge. lia. }
  destruct (locations_defined xxh64 f x Hfl) as [loc Hloc].
  destruct (locations_buckets xxh64 f x loc Hwf Hloc) as (b1 & b2 & Hb1 & Hb2).
  unfold CuckooFilter.add.
  rewrite Hloc, Hb1, (Hall _ _ Hb1), Hb2, (Hall _ _ Hb2).
  destruct (random (CuckooFilter._rng f)) as [u g].
  set (f0 := CuckooFilter.with_rng f g).
  set (index := if Qle_bool (1 # 2) u then CuckooFilter.secondIndex loc
                else CuckooFilter.firstIndex loc).
  assert (Hwf0 : CuckooFilter.wf f0)
    by (eapply wf_ext; [| | | exact Hwf]; reflexivity).
  assert (Hb0 : exists b, CuckooFilter.bucket f0 index = Some b
                          /\ Bucket.isFree b = false).
  { unfold index. destruct (Qle_bool (1 # 2) u);
      eexists; split; eauto; eapply Hall; eauto. }
  destruct Hb0 as (b0 & Hb0 & Hfree0).
  pose proof (kick_invariant xxh64 random random_unit
    (fun f' _ _ => forall i b, CuckooFilter.bucket f' i = Some b ->
                               Bucket.isFree b = false)) as Hinv.
  specialize (Hinv ltac:(
    intros fa fpa ia fb tmp ib Hwfa Ha (b & r & g' & Hb & Hfree & Hat & -> & _)
           i b' Hb';
    destruct (bucket_Some _ _ _ Hb) as [Hia _];
    destruct (wf_bucket fa ia b Hwfa Hb) as (Hbwf & _ & _);
    destruct (bucket_set_wf b r fpa tmp Hbwf Hat) as (_ & Hsz & Hl);
    destruct (Z.eq_dec i ia) as [-> | Hne];
    [ rewrite (bucket_set_bucket (CuckooFilter.with_rng fa g') ia b) in Hb'
        by exact Hb;
      injection Hb' as <-; unfold Bucket.isFree in *; rewrite Hl, Hsz;
      exact Hfree
    | rewrite bucket_set_bucket_ne in Hb' by assumption;
      exact (Ha i b' Hb') ])).
  specialize (Hinv (Z.to_nat (CuckooFilter._maxKicks f)) f0
                (CuckooFilter.fingerprint loc) index [] b0 Hwf0
                ltac:(intros i b Hb; exact (Hall i b Hb)) Hb0 Hfree0).
  destruct (CuckooFilter.kick xxh64 random
              (Z.to_nat (CuckooFilter._maxKicks f)) f0
              (CuckooFilter.fingerprint loc) index [])
    as [fk | fk logs | fk]; cbn [fst].
  - destruct Hinv as (f1 & fp1 & i1 & _ & Hfull1 & (b & Hb & Hfree & _)).
    rewrite (Hfull1 _ _ Hb) in Hfree. discriminate.
  - reflexivity.
  - contradiction.
Qed.

End Guarantees.

Section RoundTrip.

Context {prng : Type}.
Variable xxh64 : string -> Z -> Z.
Variable random : prng -> Q * prng.
Implicit Types f : CuckooFilter.t prng.

Local Abbreviation add := (CuckooFilter.add xxh64 random).
Local Abbreviation remove := (CuckooFilter.remove xxh64).
Local Abbreviation has := (CuckooFilter.has xxh64).

(** X5. [remove] answers what [has] answers, exception for exception, and
    it leaves the filter as it is unless that answer is [true]. *)
Theorem remove_mirrors_has f (x : string) :
  fst (remove f x) = has f x
  /\ (has f x <> Returned true -> snd (remove f x) = f).
Proof.
  split; [apply remove_has |].
  unfold CuckooFilter.remove, CuckooFilter.has.
  destruct (CuckooFilter._locations xxh64 f x) as [loc | e]; [| reflexivity].
  destruct (CuckooFilter.bucket f (CuckooFilter.firstIndex loc)) as [b1|];
    [| reflexivity].
  destruct (Bucket.has b1 _); [congruence |].
  destruct (CuckooFilter.bucket f (CuckooFilter.secondIndex loc)) as [b2|];
    [| reflexivity].
  destruct (Bucket.has b2 _); [congruence | reflexivity].
Qed.

Lemma set_bucket_restore f (i : Z) (b b' : Bucket.t) (n : Z) :
  CuckooFilter.bucket f i = Some b -> n = CuckooFilter._length f ->
  CuckooFilter.with_length
    (CuckooFilter.set_bucket
       (CuckooFilter.with_length (CuckooFilter.set_bucket f i b')
          (CuckooFilter._length f + 1)) i b) n = f.
Proof.
  intros Hb ->. destruct (bucket_Some f i b Hb) as [_ Hl].
  destruct f as [l sz bs fl len mk sd g]. simpl in *.
  unfold CuckooFilter.with_length, CuckooFilter.set_bucket,
    CuckooFilter.with_filter. simpl.
  now rewrite list_insert_insert_eq, list_insert_id.
Qed.

(** X7. Insertion and removal cancel: when [has(x)] is [false] and one of
    the two buckets of [x] is free, [add(x)] followed by [remove(x)] returns
    [true] and gives back the filter exactly as it was, the counter and the
    generator included. *)
Theorem add_remove_round_trip f (x : string) (throwError destructive : bool) :
  CuckooFilter.wf f ->
  has f x = Returned false ->
  CuckooFilter.has_room xxh64 f x ->
  fst (add f x throwError destructive) = Returned true
  /\ remove (snd (add f x throwError destructive)) x = (Returned true, f).
Proof.
  intros Hwf Hhas (loc & b1 & b2 & Hloc & Hb1 & Hb2 & Hfree).
  unfold CuckooFilter.has in Hhas. rewrite Hloc, Hb1, Hb2 in Hhas.
  destruct (Bucket.has b1 (CuckooFilter.fingerprint loc)) eqn:Hh1;
    [discriminate |].
  injection Hhas as Hh2.
  destruct (wf_bucket f _ b1 Hwf Hb1) as (Hwf1 & _ & _).
  destruct (wf_bucket f _ b2 Hwf Hb2) as (Hwf2 & _ & _).
  destruct (bucket_Some _ _ _ Hb1) as [Hi1 _].
  destruct (bucket_Some _ _ _ Hb2) as [Hi2 _].
  unfold CuckooFilter.add. rewrite Hloc, Hb1.
  destruct (Bucket.isFree b1) eqn:Hfree1; cbn [fst snd].
  - split; [reflexivity |].
    unfold CuckooFilter.remove.
    rewrite (locations_same_parameters xxh64 f)
      by (unfold CuckooFilter.same_parameters; simpl; auto).
    rewrite Hloc.
    change (CuckooFilter.bucket (CuckooFilter.with_length ?g ?n) ?i)
      with (CuckooFilter.bucket g i).
    rewrite (bucket_set_bucket f _ b1) by exact Hb1.
    rewrite bucket_add_has by assumption.
    rewrite bucket_remove_add by assumption.
    f_equal. apply set_bucket_restore; [exact Hb1 | simpl; lia].
  - destruct Hfree as [Hfree | Hfree2]; [discriminate |].
    rewrite Hb2, Hfree2. cbn [fst snd]. split; [reflexivity |].
    assert (Hne : CuckooFilter.firstIndex loc <> CuckooFilter.secondIndex loc).
    { intros Heq. rewrite Heq, Hb2 in Hb1. injection Hb1 as <-. congruence. }
    unfold CuckooFilter.remove.
    rewrite (locations_same_parameters xxh64 f)
      by (unfold CuckooFilter.same_parameters; simpl; auto).
    rewrite Hloc.
    change (CuckooFilter.bucket (CuckooFilter.with_length ?g ?n) ?i)
      with (CuckooFilter.bucket g i).
    rewrite bucket_set_bucket_ne by assumption.
    rewrite Hb1, Hh1.
    rewrite (bucket_set_bucket f _ b2) by exact Hb2.
    rewrite bucket_add_has by assumption.
    rewrite bucket_remove_add by assumption.
    f_equal. apply set_bucket_restore; [exact Hb2 | simpl; lia].
Qed.

(** X8. The load report of a consistent filter: [size] is [fullSize],
    [used] is [_length] and lies between 0 and [size], [free] is what is
    left and is not negative, [load] lies between 0 and 1, and no bucket
    holds more than [_bucketSize] fingerprints. *)
Theorem load_within_bounds f :
  CuckooFilter.consistent f ->
  let report := CuckooFilter._computeHashTableLoad f in
  HashTableLoad.size report = CuckooFilter.fullSize f
  /\ HashTableLoad.used report = CuckooFilter._length f
  /\ 0 <= HashTableLoad.used report <= HashTableLoad.size report
  /\ HashTableLoad.used report + HashTableLoad.free report
     = HashTableLoad.size report
  /\ 0 <= HashTableLoad.free report
  /\ (0 <= HashTableLoad.load report)%Q
  /\ (HashTableLoad.load report <= 1)%Q
  /\ forall i b, CuckooFilter.bucket f i = Some b ->
                 0 <= Bucket.length b <= CuckooFilter._bucketSize f.
Proof.
  intros [Hwf Hlen] report.
  pose proof (lengths_bounded _ _ (wf_lengths f Hwf)) as Hmax.
  pose proof (wf_size_pos f Hwf) as Hpos.
  destruct Hwf as (Hn & Hpow & Hbs & Hall).
  assert (Hused : 0 <= CuckooFilter.used f).
  { unfold CuckooFilter.used.
    assert (Hnn : forall l : list Bucket.t,
               0 <= foldl (fun acc val => acc + Bucket.length val) 0 l).
    { induction l as [|y l IH]; simpl; [lia |].
      rewrite foldl_lengths.
      pose proof (occupied_bounds (Bucket._elements y)) as Hy.
      change (Bucket.occupied (Bucket._elements y)) with (Bucket.length y) in Hy.
      lia. }
    apply Hnn. }
  fold (CuckooFilter.used f) in Hmax.
  unfold report, CuckooFilter._computeHashTableLoad, CuckooFilter.fullSize,
    CuckooFilter.size. cbn [HashTableLoad.size HashTableLoad.used
    HashTableLoad.free HashTableLoad.load].
  rewrite Hn in *.
  assert (Hfull : 0 < CuckooFilter._size f * CuckooFilter._bucketSize f)
    by lia.
  assert (Hq : (inject_Z 0 < inject_Z (CuckooFilter._size f
                                        * CuckooFilter._bucketSize f))%Q)
    by (rewrite <- Zlt_Qlt; exact Hfull).
  repeat split; try lia.
  - apply Qle_shift_div_l; [exact Hq |].
    rewrite Qmult_0_l. change 0%Q with (inject_Z 0).
    rewrite <- Zle_Qle. exact Hused.
  - apply Qle_shift_div_r; [exact Hq |].
    rewrite Qmult_1_l, <- Zle_Qle. exact Hmax.
  - pose proof (occupied_bounds (Bucket._elements b)) as Hb.
    unfold Bucket.length. lia.
  - destruct (bucket_Some f i b H) as [_ Hl].
    pose proof (Forall_lookup_1 _ _ _ _
                  (wf_lengths f (conj Hn (conj Hpow (conj Hbs Hall)))) Hl).
    assumption.
Qed.

End RoundTrip.

(** ** Building a filter from a list *)

Section From.

Context {prng : Type}.
Variable xxh64 : string -> Z -> Z.
Variable random : prng -> Q * prng.
Variable seedrandom : Z -> prng.
Variable defaultSeed : Z.
Variable log2 : Number.t -> Number.t.
Hypothesis random_unit : CuckooFilter.unit_random random.
Implicit Types f : CuckooFilter.t prng.

Local Abbreviation add := (CuckooFilter.add xxh64 random).
Local Abbreviation has := (CuckooFilter.has xxh64).
Local Abbreviation held := (CuckooFilter.held xxh64).
Local Abbreviation add_all := (CuckooFilter.add_all xxh64 random).
Local Abbreviation from :=
  (CuckooFilter.from xxh64 random seedrandom defaultSeed log2).

Lemma set_seed_consistent f (s : Z) :
  CuckooFilter.consistent f ->
  CuckooFilter.consistent (CuckooFilter.set_seed seedrandom f s).
Proof.
  intros [Hwf Hlen]. split; [| exact Hlen].
  eapply wf_ext; [| | | exact Hwf]; reflexivity.
Qed.

Lemma add_no_buckets f (x : string) (throwError destructive : bool) :
  CuckooFilter._filter f = [] ->
  exists e, add f x throwError destructive = (Thrown e, f).
Proof.
  intros Hnil. unfold CuckooFilter.add.
  destruct (CuckooFilter._locations xxh64 f x) as [loc | e]; [| eauto].
  unfold CuckooFilter.bucket. rewrite Hnil.
  destruct (CuckooFilter.firstIndex loc <? 0); eauto.
Qed.

Lemma add_all_spec (items : list string) :
  forall f f',
    CuckooFilter.consistent f -> add_all f items = Returned f' ->
    CuckooFilter.consistent f'
    /\ CuckooFilter._length f <= CuckooFilter._length f'
       <= CuckooFilter._length f + Z.of_nat (List.length items)
    /\ (forall y, held f y -> held f' y)
    /\ (CuckooFilter._length f'
        = CuckooFilter._length f + Z.of_nat (List.length items) ->
        forall x, x ∈ items -> held f' x).
Proof.
  induction items as [|x items IH]; intros f f' Hc Hall.
  - injection Hall as <-. simpl.
    split; [exact Hc | split; [lia | split; [auto |]]].
    intros _ x Hx. now apply elem_of_nil in Hx.
  - cbn [CuckooFilter.add_all] in Hall.
    pose proof (add_consistent xxh64 random random_unit f x false false Hc)
      as [Hc1 _].
    pose proof (add_length xxh64 random f x false false) as Hl1.
    pose proof (fun y Hy => add_keeps_held xxh64 random random_unit f y x
                              false false Hc Hy (or_introl eq_refl)) as Hkeep.
    pose proof (add_stores_held xxh64 random random_unit f x false false Hc)
      as Hstore.
    destruct (add f x false false) as [[r | e] f1]; [| discriminate].
    cbn [fst snd] in *.
    destruct (IH f1 f' Hc1 Hall) as (Hc' & Hlen & Hheld & Hfull).
    assert (Hstep : CuckooFilter._length f <= CuckooFilter._length f1
                    <= CuckooFilter._length f + 1)
      by (destruct r; lia).
    cbn [List.length]. rewrite Nat2Z.inj_succ.
    split; [exact Hc' | split; [lia | split; [auto |]]].
    intros Hmax y Hy. apply elem_of_cons in Hy as [-> | Hy].
    + apply Hheld. apply Hstore. destruct r; [reflexivity | lia].
    + apply Hfull; [lia | exact Hy].
Qed.

(** X9. [from] builds a consistent filter whose [length] is at most the
    number of items; when it reports as many elements as it was given
    items, [has] returns [true] for every one of them. *)
Theorem from_finds_items (items : list string) (errorRate : Number.t)
    (bucketSize maxKicks : Z) (seed : option Z) f :
  0 < bucketSize ->
  from items errorRate bucketSize maxKicks seed = Some (Returned f) ->
  CuckooFilter._length f = CuckooFilter.used f
  /\ 0 <= CuckooFilter._length f <= Z.of_nat (List.length items)
  /\ (CuckooFilter._length f = Z.of_nat (List.length items) ->
      forall x, x ∈ items -> has f x = Returned true).
Proof.
  intros Hbs. unfold CuckooFilter.from, CuckooFilter.create.
  destruct (Number.integer (CuckooFilter.capacity _ _)) as [c |];
    [| discriminate].
  destruct (Number.integer (CuckooFilter.computeFingerpintLength _ _ _))
    as [k |]; [| discriminate].
  set (f0 := CuckooFilter.constructor seedrandom defaultSeed _ _ _ _).
  set (f1 := match seed with
             | Some s => if s =? 0 then f0 else CuckooFilter.set_seed seedrandom f0 s
             | None => f0
             end).
  assert (Hparams : CuckooFilter._filter f1 = CuckooFilter._filter f0
                    /\ CuckooFilter._length f1 = 0).
  { unfold f1. destruct seed as [s|]; [destruct (s =? 0) |]; auto. }
  destruct Hparams as [Hfilter Hzero].
  destruct (constructor_size_cases seedrandom defaultSeed c k
              bucketSize maxKicks) as [Hpow | Hnone].
  - assert (Hc0 : CuckooFilter.consistent f0)
      by (apply constructor_pow2_consistent; assumption).
    assert (Hc1 : CuckooFilter.consistent f1).
    { unfold f1. destruct seed as [s|]; [destruct (s =? 0) |];
        [exact Hc0 | now apply set_seed_consistent | exact Hc0]. }
    intros Hall. injection Hall as Hall.
    destruct (add_all_spec items f1 f Hc1 Hall) as (Hc & Hlen & _ & Hfull).
    rewrite Hzero in *.
    split; [apply Hc | split; [lia |]].
    intros Hmax x Hx. apply has_held; [apply Hc |]. apply Hfull; [lia | exact Hx].
  - assert (Hnil : CuckooFilter._filter f1 = []).
    { rewrite Hfilter. unfold f0 in *. simpl in *. now rewrite Hnone. }
    destruct items as [|x items].
    + intros [= <-]. unfold CuckooFilter.used. rewrite Hnil, Hzero. simpl.
      split; [reflexivity | split; [lia |]].
      intros _ x Hx. now apply elem_of_nil in Hx.
    + cbn [CuckooFilter.add_all].
      destruct (add_no_buckets f1 x false false Hnil) as [e ->]. discriminate.
Qed.

End From.

(** ** The size of the stored fingerprints *)

Lemma lookup_put (l : list (option string)) (e y : string) (j : nat) :
  Bucket.put l e !! j = Some (Some y) -> y = e \/ l !! j = Some (Some y).
Proof.
  revert j; induction l as [|[z|] l IH]; intros j; simpl; [discriminate | |].
  - destruct j as [|j]; simpl; [auto | apply IH].
  - destruct j as [|j]; simpl; [intros [= ->]; auto | auto].
Qed.

Lemma lookup_unset_first (l : list (option string)) (e y : string) (j : nat) :
  Bucket.unset_first l e !! j = Some (Some y) -> l !! j = Some (Some y).
Proof.
  revert j; induction l as [|z l IH]; intros j; simpl; [discriminate |].
  destruct (bool_decide (z = Some e)).
  - destruct j as [|j]; simpl; [discriminate | auto].
  - destruct j as [|j]; simpl; [auto | apply IH].
Qed.

Section FingerprintSize.

Context {prng : Type}.
Variable xxh64 : string -> Z -> Z.
Variable random : prng -> Q * prng.
Hypothesis random_unit : CuckooFilter.unit_random random.
Implicit Types f : CuckooFilter.t prng.

Local Abbreviation add := (CuckooFilter.add xxh64 random).
Local Abbreviation remove := (CuckooFilter.remove xxh64).
Local Abbreviation sized := CuckooFilter.fingerprints_sized.

Lemma fingerprint_length f (x : string) (loc : CuckooFilter.locations) :
  CuckooFilter._locations xxh64 f x = Returned loc ->
  String.length (CuckooFilter.fingerprint loc)
  = Z.to_nat (CuckooFilter._fingerprintLength f).
Proof.
  intros Hloc. destruct (locations_inv xxh64 f x loc Hloc) as (Hfl & -> & _).
  unfold substring. rewrite length_drop_chars, length_hashstr by apply hash_range.
  lia.
Qed.

Lemma sized_ext f f' :
  CuckooFilter._filter f' = CuckooFilter._filter f ->
  CuckooFilter._fingerprintLength f' = CuckooFilter._fingerprintLength f ->
  sized f -> sized f'.
Proof.
  unfold CuckooFilter.fingerprints_sized. intros -> ->. auto.
Qed.

Lemma sized_set_bucket f (i : Z) (b : Bucket.t) :
  sized f ->
  (forall j e, Bucket._elements b !! j = Some (Some e) ->
               String.length e = Z.to_nat (CuckooFilter._fingerprintLength f)) ->
  sized (CuckooFilter.set_bucket f i b).
Proof.
  intros Hs Hb k b' j e Hk Hj. simpl in Hk.
  apply list_lookup_insert_Some in Hk as [(_ & <- & _) | (_ & Hk)].
  - exact (Hb j e Hj).
  - exact (Hs k b' j e Hk Hj).
Qed.

Lemma sized_bucket f (i : Z) (b : Bucket.t) (j : nat) (e : string) :
  sized f -> CuckooFilter.bucket f i = Some b ->
  Bucket._elements b !! j = Some (Some e) ->
  String.length e = Z.to_nat (CuckooFilter._fingerprintLength f).
Proof.
  intros Hs Hb Hj. destruct (bucket_Some f i b Hb) as [_ Hl].
  exact (Hs _ _ _ _ Hl Hj).
Qed.

Lemma sized_placed f (fp : string) (index : Z) f' :
  sized f ->
  String.length fp = Z.to_nat (CuckooFilter._fingerprintLength f) ->
  CuckooFilter.placed_from f fp index f' -> sized f'.
Proof.
  intros Hs Hfp (b & Hb & Hfree & ->).
  apply (sized_ext (CuckooFilter.set_bucket f index (Bucket.add b fp)));
    [reflexivity | reflexivity |].
  apply sized_set_bucket; [exact Hs |].
  intros j e. unfold Bucket.add. rewrite Hfree. simpl. intros Hj.
  apply lookup_put in Hj as [-> | Hj]; [exact Hfp |].
  eapply sized_bucket; eauto.
Qed.

Lemma sized_kicked f (fp : string) (index : Z) f' (tmp : string) (index' : Z) :
  sized f ->
  String.length fp = Z.to_nat (CuckooFilter._fingerprintLength f) ->
  CuckooFilter.kicked_from xxh64 f fp index f' tmp index' ->
  sized f'
  /\ String.length tmp = Z.to_nat (CuckooFilter._fingerprintLength f')
  /\ CuckooFilter._fingerprintLength f' = CuckooFilter._fingerprintLength f.
Proof.
  intros Hs Hfp (b & r & g & Hb & _ & Hat & -> & _).
  destruct (at_Some b r tmp Hat) as [Hr Hslot].
  pose proof (lookup_lt_Some _ _ _ Hslot) as Hlt.
  split; [| split; [| reflexivity]].
  - apply sized_set_bucket.
    + eapply sized_ext; [| | exact Hs]; reflexivity.
    + intros j e. rewrite set_in_range by assumption. simpl. intros Hj.
      apply list_lookup_insert_Some in Hj as [(_ & [= <-] & _) | (_ & Hj)];
        [exact Hfp |].
      eapply sized_bucket; eauto.
  - simpl. eapply sized_bucket; eauto.
Qed.

Lemma add_sized f (x : string) (throwError destructive : bool) :
  CuckooFilter.consistent f -> sized f ->
  sized (snd (add f x throwError destructive)).
Proof.
  intros [Hwf Hlen] Hs. unfold CuckooFilter.add.
  destruct (CuckooFilter._locations xxh64 f x) as [loc | e] eqn:Hloc;
    [| exact Hs].
  pose proof (fingerprint_length f x loc Hloc) as Hfp.
  destruct (CuckooFilter.bucket f (CuckooFilter.firstIndex loc))
    as [b1|] eqn:Hb1; [| exact Hs].
  destruct (Bucket.isFree b1) eqn:Hfree1.
  { cbn [snd].
    apply (sized_placed f (CuckooFilter.fingerprint loc)
             (CuckooFilter.firstIndex loc)); [exact Hs | exact Hfp |].
    exists b1. auto. }
  destruct (CuckooFilter.bucket f (CuckooFilter.secondIndex loc))
    as [b2|] eqn:Hb2; [| exact Hs].
  destruct (Bucket.isFree b2) eqn:Hfree2.
  { cbn [snd].
    apply (sized_placed f (CuckooFilter.fingerprint loc)
             (CuckooFilter.secondIndex loc)); [exact Hs | exact Hfp |].
    exists b2. auto. }
  destruct (random (CuckooFilter._rng f)) as [u g].
  set (f0 := CuckooFilter.with_rng f g).
  set (index := if Qle_bool (1 # 2) u then CuckooFilter.secondIndex loc
                else CuckooFilter.firstIndex loc).
  assert (Hwf0 : CuckooFilter.wf f0)
    by (eapply wf_ext; [| | | exact Hwf]; reflexivity).
  assert (Hb0 : exists b, CuckooFilter.bucket f0 index = Some b
                          /\ Bucket.isFree b = false).
  { unfold index. destruct (Qle_bool (1 # 2) u); eauto. }
  destruct Hb0 as (b0 & Hb0 & Hfree0).
  pose proof (kick_invariant xxh64 random random_unit
    (fun f' fp' _ =>
       sized f'
       /\ String.length fp' = Z.to_nat (CuckooFilter._fingerprintLength f')
       /\ CuckooFilter._fingerprintLength f'
          = CuckooFilter._fingerprintLength f)) as Hinv.
  specialize (Hinv ltac:(
    intros fa fpa ia fb tmp ib _ (Hsa & Hfa & Hpa) Hk;
    destruct (sized_kicked _ _ _ _ _ _ Hsa Hfa Hk) as (H1 & H2 & H3);
    split; [exact H1 | split; [exact H2 | congruence]])).
  specialize (Hinv (Z.to_nat (CuckooFilter._maxKicks f)) f0
                (CuckooFilter.fingerprint loc) index [] b0 Hwf0).
  specialize (Hinv ltac:(
    split; [eapply sized_ext; [| | exact Hs]; reflexivity
           | split; [exact Hfp | reflexivity]]) Hb0 Hfree0).
  destruct (CuckooFilter.kick xxh64 random
              (Z.to_nat (CuckooFilter._maxKicks f)) f0
              (CuckooFilter.fingerprint loc) index [])
    as [fk | fk logs | fk] eqn:Hk; cbn [snd].
  - destruct Hinv as (f1 & fp1 & i1 & _ & (Hs1 & Hfp1 & _) & Hpl).
    eapply sized_placed; eauto.
  - destruct Hinv as (_ & _ & _ & Hsk & _ & _).
    destruct destructive; [exact Hsk |].
    destruct (kick_exhausted xxh64 random _ _ _ _ _ _ _ Hk) as (Hf & Hp & _).
    destruct (rollback_fields logs fk) as ((_ & _ & Hfl & _) & _).
    destruct Hp as (_ & _ & Hfl' & _).
    eapply sized_ext; [exact Hf | | exact Hs].
    simpl in *. congruence.
  - contradiction.
Qed.

Lemma remove_sized f (x : string) : sized f -> sized (snd (remove f x)).
Proof.
  intros Hs.
  assert (Hrm : forall i b e n,
    CuckooFilter.bucket f i = Some b ->
    sized (CuckooFilter.with_length
             (CuckooFilter.set_bucket f i (Bucket.remove b e)) n)).
  { intros i b e n Hb.
    apply (sized_ext (CuckooFilter.set_bucket f i (Bucket.remove b e)));
      [reflexivity | reflexivity |].
    apply sized_set_bucket; [exact Hs |].
    intros j y Hj. simpl in Hj. apply lookup_unset_first in Hj.
    eapply sized_bucket; eauto. }
  unfold CuckooFilter.remove.
  destruct (CuckooFilter._locations xxh64 f x) as [loc | e]; [| exact Hs].
  destruct (CuckooFilter.bucket f (CuckooFilter.firstIndex loc))
    as [b1|] eqn:Hb1; [| exact Hs].
  destruct (Bucket.has b1 _); [now apply Hrm |].
  destruct (CuckooFilter.bucket f (CuckooFilter.secondIndex loc))
    as [b2|] eqn:Hb2; [| exact Hs].
  destruct (Bucket.has b2 _); [now apply Hrm | exact Hs].
Qed.

Lemma run_sized (cs : list CuckooFilter.call) f :
  CuckooFilter.consistent f -> sized f ->
  sized (CuckooFilter.run xxh64 random f cs).
Proof.
  revert f; induction cs as [|c cs IH]; intros f Hc Hs; [exact Hs |].
  simpl. destruct (step_consistent xxh64 random random_unit f c Hc) as [Hc' _].
  apply IH; [exact Hc' |].
  destruct c as [x t d | x | x]; simpl.
  - now apply add_sized.
  - now apply remove_sized.
  - exact Hs.
Qed.

(** X10. Every fingerprint a filter stores has exactly
    [_fingerprintLength] digits: this holds in a filter built by the
    constructor from a positive bucket size and in every filter reached from
    it by calls of [add] (any flags, any outcome), [remove] and [has]. *)
Theorem stored_fingerprints_sized (seedrandom : Z -> prng)
    (defaultSeed size fl bs mk : Z) (cs : list CuckooFilter.call) :
  0 < bs ->
  CuckooFilter.fingerprints_sized
    (CuckooFilter.run xxh64 random
       (CuckooFilter.constructor seedrandom defaultSeed size fl bs mk) cs).
Proof.
  intros Hbs.
  assert (Hs0 : sized (CuckooFilter.constructor seedrandom defaultSeed
                         size fl bs mk)).
  { intros i b j e Hi Hj. simpl in Hi. unfold allocateArray in Hi.
    apply lookup_replicate in Hi as [-> _].
    simpl in Hj. apply lookup_replicate in Hj as [Hj _]. discriminate. }
  destruct (constructor_size_cases seedrandom defaultSeed size fl bs mk)
    as [Hpow | Hzero].
  - apply run_sized; [| exact Hs0].
    apply constructor_pow2_consistent; assumption.
  - rewrite run_no_buckets; [exact Hs0 |].
    simpl in *. now rewrite Hzero.
Qed.

End FingerprintSize.

(** ** The rate of a filter *)

(** Whatever the divisor, [0 / y] is a zero or NaN, and the product of such
    a load [l] with [x / l] is NaN. *)
Lemma zero_load_product (x y : Number.t) :
  let l := Number.div (S754_zero false) y in
  Number.mul l (Number.div x l) = Number.NaN.
Proof.
  destruct y as [[] | [] | | [] m e]; destruct x as [[] | [] | | [] m' e'];
    reflexivity.
Qed.

Lemma sub_NaN (x : Number.t) : Number.sub x Number.NaN = Number.NaN.
Proof. now destruct x. Qed.

(** X11. [rate()] of a filter that stores no fingerprint is NaN, on every
    engine whose [Math.pow] gives NaN for an exponent that is NaN, as the
    language prescribes: the load is 0, the quotient
    [_fingerprintLength / load] is infinite or NaN, and the product of the
    load with it is NaN. *)
Theorem rate_of_empty_filter {prng : Type}
    (log2 : Number.t -> Number.t) (pow : Number.t -> Number.t -> Number.t)
    (f : CuckooFilter.t prng) :
  (forall x, pow x Number.NaN = Number.NaN) ->
  CuckooFilter.used f = 0 ->
  CuckooFilter.rate log2 pow f = Number.NaN.
Proof.
  intros Hpow Hused.
  unfold CuckooFilter.rate, CuckooFilter._computeHashTableLoad.
  cbn [HashTableLoad.load]. rewrite Hused.
  unfold Number.ofQ.
  replace (Qnum (inject_Z 0 / inject_Z _)%Q) with 0 by reflexivity.
  change (Number.ofZ 0) with (S754_zero false).
  rewrite zero_load_product, sub_NaN. apply Hpow.
Qed.

(** ** Export and import *)

Lemma import_export (x : Z) : importBigInt (exportBigInt x) = Some x.
Proof.
  unfold importBigInt, exportBigInt. simpl.
  rewrite NilZero.isi.
  - now rewrite DecimalZ.of_to.
  - destruct x as [|p|p]; simpl; try discriminate.
    intros [= H]. now apply DecimalPos.Unsigned.to_uint_nonnil in H.
  - destruct x as [|p|p]; simpl; try discriminate.
    intros [= H]. now apply DecimalPos.Unsigned.to_uint_nonnil in H.
Qed.

Lemma bucket_equals_refl (b : Bucket.t) : Bucket.equals b b = true.
Proof.
  unfold Bucket.equals. rewrite !Z.eqb_refl. simpl.
  now apply bool_decide_eq_true_2.
Qed.

Lemma equals_from_refl (l pre : list Bucket.t) :
  CuckooFilter.equals_from (List.length pre) l (pre ++ l) = Returned true.
Proof.
  revert pre; induction l as [|b l IH]; intros pre; [reflexivity |].
  simpl. rewrite lookup_app_r, Nat.sub_diag by lia. simpl.
  rewrite bucket_equals_refl.
  specialize (IH (pre ++ [b])).
  rewrite length_app, <- app_assoc in IH. simpl in IH.
  now rewrite Nat.add_1_r in IH.
Qed.

Lemma getNearestPow2_pow2 (k : Z) : 0 <= k -> getNearestPow2 (2 ^ k) = 2 ^ k.
Proof.
  intros Hk. unfold getNearestPow2.
  destruct (Z.leb_spec (2 ^ k) 1) as [Hle | Hgt].
  - assert (0 < 2 ^ k) by (apply Z.pow_pos_nonneg; lia). lia.
  - now rewrite Z.log2_up_pow2.
Qed.

(** X12. Export then import gives the filter back: for a filter whose
    [_size] is a power of two below [2^32], [fromJSON(saveAsJSON(f))] has the
    buckets, the sizing, the counter and the seed of [f], with the generator
    restarted from the seed; it [equals] [f] and answers [has] as [f]
    does. *)
Theorem json_round_trip {prng : Type} (xxh64 : string -> Z -> Z)
    (seedrandom : Z -> prng) (defaultSeed : Z) (f : CuckooFilter.t prng) :
  (exists k, 0 <= k <= 31 /\ CuckooFilter._size f = 2 ^ k) ->
  let f' := CuckooFilter.with_rng f (seedrandom (CuckooFilter._seed f)) in
  CuckooFilter.fromJSON seedrandom defaultSeed (CuckooFilter.saveAsJSON f)
  = Some f'
  /\ CuckooFilter.equals f' f = Returned true
  /\ forall x, CuckooFilter.has xxh64 f' x = CuckooFilter.has xxh64 f x.
Proof.
  intros (k & Hk & Hsize) f'. split; [| split].
  - unfold CuckooFilter.fromJSON, CuckooFilter.saveAsJSON.
    cbn [ExportedCuckooFilter._seed ExportedCuckooFilter._size
         ExportedCuckooFilter._length ExportedCuckooFilter._filter
         ExportedCuckooFilter._fingerprintLength
         ExportedCuckooFilter._bucketSize ExportedCuckooFilter._maxKicks].
    rewrite import_export. f_equal.
    unfold f', CuckooFilter.with_filter, CuckooFilter.with_length,
      CuckooFilter.set_seed, CuckooFilter.with_rng,
      CuckooFilter.constructor. simpl.
    assert (Hmap : map Bucket.fromJSON
                     (map Bucket.saveAsJSON (CuckooFilter._filter f))
                   = CuckooFilter._filter f).
    { rewrite map_map. rewrite <- (map_id (CuckooFilter._filter f)) at 2.
      apply map_ext. now intros []. }
    assert (Hs : asUintN 32 (getNearestPow2 (CuckooFilter._size f))
                 = CuckooFilter._size f).
    { rewrite Hsize, getNearestPow2_pow2 by lia. unfold asUintN.
      apply Z.mod_small. split; [apply Z.pow_nonneg; lia |].
      apply Z.pow_lt_mono_r; lia. }
    rewrite Hmap, Hs. reflexivity.
  - unfold CuckooFilter.equals. simpl.
    exact (equals_from_refl (CuckooFilter._filter f) []).
  - intros x. reflexivity.
Qed.

(** * Further properties of the scalable Bloom filter *)

Section ScalableGrowth.

Context {store prng : Type}.
Variable allocate : Q -> Q -> Q -> store.
Variable insert : Z -> string -> store -> store.
Variable load : store -> Q.
Variable seedrandom : Z -> prng.
Variable defaultSeed : Z.
Variable member : Z -> string -> store -> bool.
Implicit Types f : ScalableBloomFilter.t store prng.
Implicit Types p : PartitionBloomFilter.t store prng.
Implicit Types l : list (PartitionBloomFilter.t store prng).

Local Abbreviation constructor :=
  (ScalableBloomFilter.constructor allocate seedrandom defaultSeed).
Local Abbreviation add :=
  (ScalableBloomFilter.add allocate insert load seedrandom defaultSeed).
Local Abbreviation step :=
  (ScalableBloomFilter.step allocate insert load seedrandom defaultSeed).
Local Abbreviation run :=
  (ScalableBloomFilter.run allocate insert load seedrandom defaultSeed).
Local Abbreviation set_seed := (ScalableBloomFilter.set_seed seedrandom).
Local Abbreviation filters := ScalableBloomFilter._filters.
Local Abbreviation overloaded := (ScalableBloomFilter.overloaded load).
Local Abbreviation has := (ScalableBloomFilter.has member).
Local Abbreviation Add := ScalableBloomFilter.Add.

(** The filter [add] pushes when the last one is overloaded. *)
Local Abbreviation pushed f :=
  (ScalableBloomFilter.new_partition allocate seedrandom defaultSeed
     (ScalableBloomFilter.newSize f (List.length (filters f)))
     (ScalableBloomFilter.newErrorRate f (List.length (filters f)))
     (ScalableBloomFilter._ratio f) (ScalableBloomFilter._seed f)).

Lemma add_to_last_snoc (x : string) l p :
  ScalableBloomFilter.add_to_last insert x (l ++ [p])
  = l ++ [PartitionBloomFilter.add insert x p].
Proof.
  unfold ScalableBloomFilter.add_to_last. rewrite last_snoc.
  replace (List.length (l ++ [p]) - 1)%nat with (List.length l + 0)%nat
    by (rewrite length_app; simpl; lia).
  now rewrite insert_app_r.
Qed.

Lemma add_filters f (x : string) l p :
  filters f = l ++ [p] ->
  add x f
  = (Returned tt,
     ScalableBloomFilter.with_filters f
       (if overloaded f
        then (l ++ [p]) ++ [PartitionBloomFilter.add insert x (pushed f)]
        else l ++ [PartitionBloomFilter.add insert x p])).
Proof.
  intros Hf. unfold ScalableBloomFilter.add, ScalableBloomFilter.overloaded.
  rewrite Hf, last_snoc.
  destruct (Qlt_le_dec _ _); now rewrite add_to_last_snoc.
Qed.

Lemma filters_snoc f :
  filters f <> [] -> exists l p, filters f = l ++ [p].
Proof.
  intros Hne. destruct (exists_last Hne) as (l & p & H). now exists l, p.
Qed.

Lemma add_nonempty f (x : string) :
  filters f <> [] -> filters (snd (add x f)) <> [].
Proof.
  intros Hne. destruct (filters_snoc f Hne) as (l & p & Hf).
  rewrite (add_filters f x l p Hf). cbn [snd ScalableBloomFilter.with_filters
    ScalableBloomFilter._filters].
  destruct (overloaded f); intros H; now apply app_eq_nil in H as [_ [=]].
Qed.

Lemma step_nonempty f (c : ScalableBloomFilter.call) :
  filters f <> [] -> filters (step f c) <> [].
Proof.
  intros Hne. destruct c as [x | s]; simpl.
  - now apply add_nonempty.
  - destruct (filters f); [contradiction | discriminate].
Qed.

Lemma run_nonempty (cs : list ScalableBloomFilter.call) f :
  filters f <> [] -> filters (run f cs) <> [].
Proof.
  revert f. induction cs as [|c cs IH]; intros f Hne; [exact Hne |].
  simpl. apply IH. now apply step_nonempty.
Qed.

Lemma step_length f (c : ScalableBloomFilter.call) :
  filters f <> [] ->
  (List.length (filters f) <= List.length (filters (step f c))
   <= List.length (filters f)
      + List.length (ScalableBloomFilter.added [c]))%nat.
Proof.
  intros Hne. destruct c as [x | s]; simpl.
  - destruct (filters_snoc f Hne) as (l & p & Hf).
    rewrite (add_filters f x l p Hf). cbn [snd
      ScalableBloomFilter.with_filters ScalableBloomFilter._filters].
    rewrite Hf. destruct (overloaded f); rewrite !length_app; simpl; lia.
  - rewrite length_map. lia.
Qed.

(** X13. A filter built by the constructor never runs out of inner
    filters: after any calls of [add] and seed assignments, [add] returns
    normally, and the number of inner filters is at least one and at most
    one more than the number of [add] calls made. *)
Theorem scalable_add_returns (initial_size error_rate ratio : Q)
    (cs : list ScalableBloomFilter.call) (x : string) :
  fst (add x (run (constructor initial_size error_rate ratio) cs))
  = Returned tt
  /\ (1 <= List.length
            (filters (run (constructor initial_size error_rate ratio) cs))
      <= 1 + List.length (ScalableBloomFilter.added cs))%nat.
Proof.
  set (f0 := constructor initial_size error_rate ratio).
  assert (Hne0 : filters f0 <> []) by discriminate.
  split.
  - pose proof (run_nonempty cs f0 Hne0) as Hne.
    destruct (filters_snoc _ Hne) as (l & p & Hf).
    now rewrite (add_filters _ x l p Hf).
  - induction cs as [|c cs IH] using rev_ind; [simpl; lia |].
    unfold ScalableBloomFilter.run, ScalableBloomFilter.added in *.
    rewrite foldl_snoc, omap_app, length_app.
    pose proof (step_length (foldl step f0 cs) c (run_nonempty cs f0 Hne0))
      as Hs.
    unfold ScalableBloomFilter.added in Hs. lia.
Qed.

Lemma add_seeds_agree f (x : string) :
  ScalableBloomFilter.seeds_agree f ->
  ScalableBloomFilter.seeds_agree (snd (add x f))
  /\ ScalableBloomFilter._seed (snd (add x f)) = ScalableBloomFilter._seed f.
Proof.
  intros Hs. destruct (filters f) as [|q l0] eqn:Hq.
  - unfold ScalableBloomFilter.add. rewrite Hq. simpl. now split.
  - assert (Hne : filters f <> []) by (rewrite Hq; discriminate).
    destruct (filters_snoc f Hne) as (l & p & Hf).
    rewrite (add_filters f x l p Hf). split; [| reflexivity].
    unfold ScalableBloomFilter.seeds_agree in *. rewrite Hf in Hs.
    apply Forall_app in Hs as [Hl Hp].
    cbn [snd ScalableBloomFilter.with_filters ScalableBloomFilter._filters
         ScalableBloomFilter._seed].
    destruct (overloaded f).
    + apply Forall_app_2; [now apply Forall_app_2 |].
      constructor; [reflexivity | constructor].
    + apply Forall_app_2; [exact Hl |].
      constructor; [| constructor]. now inversion Hp.
Qed.

Lemma set_seed_seeds_agree f (s : Z) :
  ScalableBloomFilter.seeds_agree (set_seed s f).
Proof.
  unfold ScalableBloomFilter.seeds_agree. simpl.
  induction (filters f); simpl; constructor; auto.
Qed.

(** The seed a list of calls leaves: the last one assigned, if any. *)
Lemma run_seed (cs : list ScalableBloomFilter.call) f :
  ScalableBloomFilter.seeds_agree f ->
  ScalableBloomFilter.seeds_agree (run f cs)
  /\ ScalableBloomFilter._seed (run f cs)
     = foldl (fun s c => match c with
                          | ScalableBloomFilter.Add _ => s
                          | ScalableBloomFilter.SetSeed s' => s'
                          end)
             (ScalableBloomFilter._seed f) cs.
Proof.
  revert f. induction cs as [|c cs IH]; intros f Hs; [now split |].
  simpl. destruct c as [x | s].
  - destruct (add_seeds_agree f x Hs) as [Ha He].
    destruct (IH _ Ha) as [H1 H2]. split; [exact H1 |].
    simpl in H2. simpl. now rewrite <- He.
  - exact (IH _ (set_seed_seeds_agree f s)).
Qed.

(** X14. Every inner filter works under the seed of the scalable filter,
    the filters pushed by [add] included: after any calls of [add] and seed
    assignments on a filter built by the constructor, each inner filter has
    the seed of the scalable filter, which is the last seed assigned (the
    default seed if none was). *)
Theorem inner_seeds_agree (initial_size error_rate ratio : Q)
    (cs : list ScalableBloomFilter.call) :
  let f := run (constructor initial_size error_rate ratio) cs in
  ScalableBloomFilter._seed f
  = foldl (fun s c => match c with
                       | ScalableBloomFilter.Add _ => s
                       | ScalableBloomFilter.SetSeed s' => s'
                       end) defaultSeed cs
  /\ forall j p, filters f !! j = Some p ->
                 PartitionBloomFilter._seed p = ScalableBloomFilter._seed f.
Proof.
  intros f.
  assert (H0 : ScalableBloomFilter.seeds_agree
                 (constructor initial_size error_rate ratio)).
  { constructor; [reflexivity | constructor]. }
  destruct (run_seed cs _ H0) as [Hs He]. split; [exact He |].
  intros j p Hj. exact (Forall_lookup_1 _ _ _ _ Hs Hj).
Qed.

(** X15. [add] touches the last inner filter only: it pushes one filter
    exactly when the last one is overloaded, leaves every filter before the
    last of the result as it was, and inserts the element, under the seed of
    that filter, into the last one (the pushed one, if one was pushed). *)
Theorem add_touches_last_only f (x : string) p :
  last (filters f) = Some p ->
  let f' := snd (add x f) in
  List.length (filters f')
  = (List.length (filters f) + if overloaded f then 1 else 0)%nat
  /\ (forall j, (j + 1 < List.length (filters f'))%nat ->
                filters f' !! j = filters f !! j)
  /\ last (filters f')
     = Some (PartitionBloomFilter.add insert x
               (if overloaded f then pushed f else p)).
Proof.
  intros Hlast f'.
  assert (Hne : filters f <> []).
  { intros H. rewrite H in Hlast. discriminate. }
  destruct (filters_snoc f Hne) as (l & q & Hf).
  assert (q = p) as ->.
  { rewrite Hf, last_snoc in Hlast. now injection Hlast. }
  unfold f'. rewrite (add_filters f x l p Hf).
  cbn [snd ScalableBloomFilter.with_filters ScalableBloomFilter._filters].
  rewrite Hf. destruct (overloaded f).
  - rewrite !length_app. simpl. split; [lia | split].
    + intros j Hj. rewrite lookup_app_l; [reflexivity |].
      rewrite length_app. simpl. lia.
    + apply last_snoc.
  - rewrite !length_app. simpl. split; [lia | split].
    + intros j Hj. rewrite !lookup_app_l by lia. reflexivity.
    + apply last_snoc.
Qed.

Lemma capacity_snoc (qs : list Q) (q : Q) :
  foldl Qplus 0%Q (qs ++ [q]) = Qplus (foldl Qplus 0%Q qs) q.
Proof. apply foldl_snoc. Qed.

(** X16. [capacity()] changes only when [add] pushes a filter, and then by
    the size handed to [create]: after [add], the capacity is the one before
    plus [_initial_size * 2^(n+1) * LN2] if the last of the [n] filters was
    overloaded, and the one before otherwise. *)
Theorem capacity_after_add f (x : string) :
  ScalableBloomFilter.capacity (snd (add x f))
  = if overloaded f
    then Qplus (ScalableBloomFilter.capacity f)
               (ScalableBloomFilter.newSize f (List.length (filters f)))
    else ScalableBloomFilter.capacity f.
Proof.
  destruct (filters f) as [|q0 l0] eqn:Hq.
  - unfold ScalableBloomFilter.add, ScalableBloomFilter.overloaded.
    now rewrite Hq.
  - assert (Hne : filters f <> []) by (rewrite Hq; discriminate).
    rewrite <- Hq. clear Hq.
    destruct (filters_snoc f Hne) as (l & p & Hf).
    rewrite (add_filters f x l p Hf). unfold ScalableBloomFilter.capacity.
    cbn [snd ScalableBloomFilter.with_filters ScalableBloomFilter._filters].
    rewrite Hf. destruct (overloaded f).
    + change (map ?g ?k) with (g <$> k). rewrite !fmap_app. simpl.
      now rewrite (capacity_snoc _ (ScalableBloomFilter.newSize f _)).
    + change (map ?g ?k) with (g <$> k). rewrite !fmap_app. reflexivity.
Qed.

(** What the absent bit vectors are taken to guarantee: an element is found
    where it was inserted, and insertions never hide one. *)
Hypothesis member_insert :
  forall (s : Z) (x : string) (st : store), member s x (insert s x st) = true.
Hypothesis member_mono :
  forall (s : Z) (x y : string) (st : store),
    member s y st = true -> member s y (insert s x st) = true.

Lemma add_has f (x : string) :
  filters f <> [] -> has x (snd (add x f)) = true.
Proof.
  intros Hne. destruct (filters_snoc f Hne) as (l & p & Hf).
  rewrite (add_filters f x l p Hf). unfold ScalableBloomFilter.has.
  cbn [snd ScalableBloomFilter.with_filters ScalableBloomFilter._filters].
  destruct (overloaded f); rewrite existsb_app; simpl;
    unfold PartitionBloomFilter.has at 2 || unfold PartitionBloomFilter.has;
    simpl; rewrite member_insert; now rewrite ?orb_true_r.
Qed.

Lemma add_keeps_has f (x y : string) :
  has y f = true -> has y (snd (add x f)) = true.
Proof.
  intros Hy. destruct (filters f) as [|q0 l0] eqn:Hq.
  - unfold ScalableBloomFilter.add. now rewrite Hq.
  - assert (Hne : filters f <> []) by (rewrite Hq; discriminate).
    clear Hq. destruct (filters_snoc f Hne) as (l & p & Hf).
    rewrite (add_filters f x l p Hf). unfold ScalableBloomFilter.has in *.
    cbn [snd ScalableBloomFilter.with_filters ScalableBloomFilter._filters].
    rewrite Hf in Hy. destruct (overloaded f).
    + rewrite existsb_app, Hy. reflexivity.
    + rewrite existsb_app in *. simpl in *.
      apply orb_true_iff in Hy as [Hy | Hy]; [now rewrite Hy |].
      rewrite orb_false_r in Hy. unfold PartitionBloomFilter.has in *.
      simpl. rewrite (member_mono _ _ _ _ Hy). now rewrite !orb_true_r.
Qed.

Lemma adds_keep_has (xs : list string) f (y : string) :
  has y f = true -> has y (run f (map Add xs)) = true.
Proof.
  revert f. induction xs as [|x xs IH]; intros f Hy; [exact Hy |].
  simpl. apply IH. now apply add_keeps_has.
Qed.

(** X17. No false negatives while the seed is left alone: on a filter with
    at least one inner filter, whose bit vectors find what was inserted and
    keep it under later insertions, [has] returns true for every element of
    a series of [add] calls, whichever inner filters were pushed
    meanwhile. *)
Theorem scalable_has_added f (xs : list string) (x : string) :
  filters f <> [] ->
  x ∈ xs ->
  has x (run f (map Add xs)) = true.
Proof.
  revert f. induction xs as [|a xs IH]; intros f Hne Hx.
  - now apply elem_of_nil in Hx.
  - simpl. apply elem_of_cons in Hx as [-> | Hx].
    + apply adds_keep_has. now apply add_has.
    + apply IH; [now apply add_nonempty | exact Hx].
Qed.

End ScalableGrowth.

(** * A filter that holds nothing *)

Lemma occupied_none (l : list (option string)) (e : string) :
  Bucket.occupied l = 0 -> Some e ∉ l.
Proof.
  induction l as [|[y|] l IH]; simpl Bucket.occupied; intros H Hin.
  - now apply elem_of_nil in Hin.
  - pose proof (occupied_bounds l). lia.
  - apply elem_of_cons in Hin as [[=] | Hin]. now apply IH.
Qed.

Lemma unused_bucket_has {prng : Type} (f : CuckooFilter.t prng) (i : Z)
    (b : Bucket.t) (e : string) :
  CuckooFilter.used f = 0 -> CuckooFilter.bucket f i = Some b ->
  Bucket.has b e = false.
Proof.
  intros Hu Hb. pose proof (bucket_length_le_used f i b Hb) as Hle.
  pose proof (occupied_bounds (Bucket._elements b)) as Hocc.
  change (Bucket.occupied (Bucket._elements b)) with (Bucket.length b) in Hocc.
  apply bool_decide_eq_false_2, occupied_none.
  change (Bucket.length b = 0). lia.
Qed.

(** X18. A filter whose counter is 0 finds nothing: on a consistent filter
    with [_length = 0] (a new one, or one whose elements were all removed)
    and a fingerprint length of at most 64, [has] returns [false] for
    every element, and [remove] returns [false] and changes nothing. *)
Theorem empty_filter_finds_nothing {prng : Type} (xxh64 : string -> Z -> Z)
    (f : CuckooFilter.t prng) (x : string) :
  CuckooFilter.consistent f ->
  CuckooFilter._fingerprintLength f <= 64 ->
  CuckooFilter._length f = 0 ->
  CuckooFilter.has xxh64 f x = Returned false
  /\ CuckooFilter.remove xxh64 f x = (Returned false, f).
Proof.
  intros [Hwf Hlen] Hfl H0. rewrite Hlen in H0.
  destruct (locations_defined xxh64 f x Hfl) as [loc Hloc].
  destruct (locations_buckets xxh64 f x loc Hwf Hloc)
    as (b1 & b2 & Hb1 & Hb2).
  pose proof (unused_bucket_has f _ b1 (CuckooFilter.fingerprint loc) H0 Hb1)
    as H1.
  pose proof (unused_bucket_has f _ b2 (CuckooFilter.fingerprint loc) H0 Hb2)
    as H2.
  unfold CuckooFilter.has, CuckooFilter.remove.
  rewrite Hloc, Hb1, H1, Hb2, H2. split; reflexivity.
Qed.

(** * The further properties on the small instance *)

Lemma demo_small_a_consistent :
  CuckooFilter.consistent
    (snd (CuckooFilter.add Demo.xxh64 Demo.random Demo.small "a" false false)).
Proof.
  apply (add_consistent Demo.xxh64 Demo.random demo_random_unit
           Demo.small "a" false false demo_small_consistent).
Qed.

Lemma demo_tiny_a_consistent :
  CuckooFilter.consistent
    (snd (CuckooFilter.add Demo.xxh64 Demo.random Demo.tiny "a" false false)).
Proof.
  apply (add_consistent Demo.xxh64 Demo.random demo_random_unit
           Demo.tiny "a" false false demo_tiny_consistent).
Qed.

(** The first insertion into the empty four-bucket filter. *)
Lemma early_add_succeeds_witness :
  CuckooFilter.consistent Demo.small
  /\ CuckooFilter._fingerprintLength Demo.small <= 64
  /\ CuckooFilter._length Demo.small < CuckooFilter._bucketSize Demo.small
  /\ fst (CuckooFilter.add Demo.xxh64 Demo.random Demo.small "a" true false)
     = Returned true
  /\ CuckooFilter._rng
       (snd (CuckooFilter.add Demo.xxh64 Demo.random Demo.small "a" true false))
     = CuckooFilter._rng Demo.small.
Proof.
  assert (H1 : CuckooFilter._fingerprintLength Demo.small <= 64)
    by (simpl; lia).
  assert (H2 : CuckooFilter._length Demo.small
               < CuckooFilter._bucketSize Demo.small) by (simpl; lia).
  split; [exact demo_small_consistent | split; [exact H1 | split; [exact H2 |]]].
  exact (early_add_succeeds Demo.xxh64 Demo.random Demo.small "a" true false
           demo_small_consistent H1 H2).
Defined.

(** The full one-slot filter: [add] with [throwError] ends in the
    filter-full error, [has] and [remove] in a boolean. *)
Lemma calls_do_not_crash_witness :
  let f := snd (CuckooFilter.add Demo.xxh64 Demo.random Demo.tiny "a" false false) in
  CuckooFilter.wf f
  /\ CuckooFilter._fingerprintLength f <= 64
  /\ fst (CuckooFilter.add Demo.xxh64 Demo.random f "bb" true false)
     = Thrown FilterFull
  /\ (fst (CuckooFilter.add Demo.xxh64 Demo.random f "bb" true false)
      = Returned true
      \/ fst (CuckooFilter.add Demo.xxh64 Demo.random f "bb" true false)
         = Thrown FilterFull)
  /\ (exists r, CuckooFilter.has Demo.xxh64 f "bb" = Returned r)
  /\ (exists r, fst (CuckooFilter.remove Demo.xxh64 f "bb") = Returned r).
Proof.
  intros f.
  assert (H1 : CuckooFilter.wf f) by exact (proj1 demo_tiny_a_consistent).
  assert (H2 : CuckooFilter._fingerprintLength f <= 64)
    by (vm_compute; discriminate).
  split; [exact H1 | split; [exact H2 |]].
  split; [vm_compute; reflexivity |].
  exact (calls_do_not_crash Demo.xxh64 Demo.random demo_random_unit
           f "bb" true false H1 H2).
Defined.

(** ["a"] goes into the four-bucket filter and comes out again. *)
Lemma added_can_be_removed_witness :
  CuckooFilter.consistent Demo.small
  /\ fst (CuckooFilter.add Demo.xxh64 Demo.random Demo.small "a" false false)
     = Returned true
  /\ fst (CuckooFilter.remove Demo.xxh64
            (snd (CuckooFilter.add Demo.xxh64 Demo.random Demo.small "a"
                    false false)) "a")
     = Returned true.
Proof.
  assert (H : fst (CuckooFilter.add Demo.xxh64 Demo.random Demo.small "a"
                     false false) = Returned true)
    by (vm_compute; reflexivity).
  split; [exact demo_small_consistent | split; [exact H |]].
  exact (added_can_be_removed Demo.xxh64 Demo.random demo_random_unit
           Demo.small "a" false false demo_small_consistent H).
Defined.

(** The one-slot filter is full after one insertion. *)
Lemma full_filter_rejects_witness :
  let f := snd (CuckooFilter.add Demo.xxh64 Demo.random Demo.tiny "a" false false) in
  CuckooFilter.consistent f
  /\ CuckooFilter._fingerprintLength f <= 64
  /\ CuckooFilter._length f = CuckooFilter.fullSize f
  /\ fst (CuckooFilter.add Demo.xxh64 Demo.random f "bb" false true)
     = Returned false.
Proof.
  intros f.
  assert (H1 : CuckooFilter._fingerprintLength f <= 64)
    by (vm_compute; discriminate).
  assert (H2 : CuckooFilter._length f = CuckooFilter.fullSize f)
    by (vm_compute; reflexivity).
  split; [exact demo_tiny_a_consistent | split; [exact H1 | split; [exact H2 |]]].
  exact (full_filter_rejects Demo.xxh64 Demo.random demo_random_unit
           f "bb" false true demo_tiny_a_consistent H1 H2).
Defined.

(** [remove] of an element the empty filter does not hold. *)
Lemma remove_mirrors_has_witness :
  CuckooFilter.has Demo.xxh64 Demo.small "a" <> Returned true
  /\ CuckooFilter.remove Demo.xxh64 Demo.small "a" = (Returned false, Demo.small).
Proof.
  assert (H : CuckooFilter.has Demo.xxh64 Demo.small "a" <> Returned true)
    by (vm_compute; discriminate).
  split; [exact H |].
  destruct (remove_mirrors_has Demo.xxh64 Demo.small "a") as [H1 H2].
  rewrite (surjective_pairing (CuckooFilter.remove Demo.xxh64 Demo.small "a")).
  rewrite H1, (H2 H). reflexivity.
Defined.

(** ["a"] in and out of the empty four-bucket filter. *)
Lemma add_remove_round_trip_witness :
  CuckooFilter.wf Demo.small
  /\ CuckooFilter.has Demo.xxh64 Demo.small "a" = Returned false
  /\ CuckooFilter.has_room Demo.xxh64 Demo.small "a"
  /\ CuckooFilter.remove Demo.xxh64
       (snd (CuckooFilter.add Demo.xxh64 Demo.random Demo.small "a" false false))
       "a"
     = (Returned true, Demo.small).
Proof.
  assert (H1 : CuckooFilter.wf Demo.small)
    by exact (proj1 demo_small_consistent).
  assert (H2 : CuckooFilter.has Demo.xxh64 Demo.small "a" = Returned false)
    by (vm_compute; reflexivity).
  assert (H3 : CuckooFilter.has_room Demo.xxh64 Demo.small "a").
  { exists (CuckooFilter.mkLocations "001" 1 2),
      (Bucket.create 2), (Bucket.create 2).
    repeat split; try (vm_compute; reflexivity). left. reflexivity. }
  split; [exact H1 | split; [exact H2 | split; [exact H3 |]]].
  exact (proj2 (add_remove_round_trip Demo.xxh64 Demo.random Demo.small "a"
                  false false H1 H2 H3)).
Defined.

(** The load report of the four-bucket filter that holds ["a"]: one slot of
    eight is used. *)
Lemma load_within_bounds_witness :
  let f := snd (CuckooFilter.add Demo.xxh64 Demo.random Demo.small "a" false false) in
  let report := CuckooFilter._computeHashTableLoad f in
  CuckooFilter.consistent f
  /\ HashTableLoad.used report = 1
  /\ HashTableLoad.free report = 7
  /\ HashTableLoad.size report = 8
  /\ (0 <= HashTableLoad.load report)%Q
  /\ (HashTableLoad.load report <= 1)%Q.
Proof.
  intros f report.
  split; [exact demo_small_a_consistent |].
  split; [vm_compute; reflexivity |].
  split; [vm_compute; reflexivity |].
  split; [vm_compute; reflexivity |].
  pose proof (load_within_bounds f demo_small_a_consistent) as H.
  exact (conj (proj1 (proj2 (proj2 (proj2 (proj2 (proj2 H))))))
              (proj1 (proj2 (proj2 (proj2 (proj2 (proj2 (proj2 H)))))))).
Defined.

(** [CuckooFilter.from(["a", "bb"], 0.01, 4, 500, 7)]: sixteen buckets,
    fingerprints of ten bits, both items found. *)
Lemma from_finds_items_witness :
  let g := CuckooFilter.set_seed Demo.seedrandom
             (CuckooFilter.constructor Demo.seedrandom Demo.defaultSeed
                16 10 4 500) 7 in
  let f := snd (CuckooFilter.add Demo.xxh64 Demo.random
                  (snd (CuckooFilter.add Demo.xxh64 Demo.random g "a"
                          false false)) "bb" false false) in
  0 < 4
  /\ CuckooFilter.from Demo.xxh64 Demo.random Demo.seedrandom Demo.defaultSeed
       Demo.log2 ["a"; "bb"] (Number.literal 1 100) 4 500 (Some 7)
     = Some (Returned f)
  /\ CuckooFilter._length f = 2
  /\ CuckooFilter.has Demo.xxh64 f "a" = Returned true
  /\ CuckooFilter.has Demo.xxh64 f "bb" = Returned true.
Proof.
  intros g f.
  assert (H1 : 0 < 4) by lia.
  assert (H2 : CuckooFilter.from Demo.xxh64 Demo.random Demo.seedrandom
                 Demo.defaultSeed Demo.log2 ["a"; "bb"] (Number.literal 1 100)
                 4 500 (Some 7)
               = Some (Returned f)) by (vm_compute; reflexivity).
  assert (H3 : CuckooFilter._length f = 2) by (vm_compute; reflexivity).
  split; [exact H1 | split; [exact H2 | split; [exact H3 |]]].
  destruct (from_finds_items Demo.xxh64 Demo.random Demo.seedrandom
              Demo.defaultSeed Demo.log2 demo_random_unit ["a"; "bb"]
              (Number.literal 1 100) 4 500
              (Some 7) f H1 H2) as (_ & _ & Hall).
  split; apply (Hall H3); [left | right; left].
Defined.

(** The fingerprint of ["a"] in the four-bucket filter has three digits. *)
Lemma stored_fingerprints_sized_witness :
  let f := CuckooFilter.run Demo.xxh64 Demo.random
             (CuckooFilter.constructor Demo.seedrandom Demo.defaultSeed 4 3 2 8)
             [CuckooFilter.Add "a" false false] in
  0 < 2
  /\ CuckooFilter._filter f !! 1%nat = Some (Bucket.mk 2 [Some "001"; None])
  /\ String.length "001" = Z.to_nat (CuckooFilter._fingerprintLength f).
Proof.
  intros f.
  assert (H1 : 0 < 2) by lia.
  assert (H2 : CuckooFilter._filter f !! 1%nat
               = Some (Bucket.mk 2 [Some "001"; None]))
    by (vm_compute; reflexivity).
  split; [exact H1 | split; [exact H2 |]].
  exact (stored_fingerprints_sized Demo.xxh64 Demo.random demo_random_unit
           Demo.seedrandom Demo.defaultSeed 4 3 2 8
           [CuckooFilter.Add "a" false false] H1 1%nat
           (Bucket.mk 2 [Some "001"; None]) 0%nat "001" H2 eq_refl).
Defined.

(** The empty four-bucket filter: the load is [0 / 8], [3 / 0] is infinite
    and [0 * Infinity] is NaN. *)
Lemma rate_of_empty_filter_witness :
  (forall x, Demo.pow x Number.NaN = Number.NaN)
  /\ CuckooFilter.used Demo.small = 0
  /\ Number.ofQ (HashTableLoad.load (CuckooFilter._computeHashTableLoad Demo.small))
     = S754_zero false
  /\ Number.div (Number.ofZ 3) (S754_zero false) = S754_infinity false
  /\ CuckooFilter.rate Demo.log2 Demo.pow Demo.small = Number.NaN.
Proof.
  assert (H1 : forall x, Demo.pow x Number.NaN = Number.NaN)
    by (intros x; reflexivity).
  assert (H2 : CuckooFilter.used Demo.small = 0) by reflexivity.
  split; [exact H1 | split; [exact H2 |]].
  split; [vm_compute; reflexivity |].
  split; [vm_compute; reflexivity |].
  exact (rate_of_empty_filter Demo.log2 Demo.pow Demo.small H1 H2).
Defined.

(** The four-bucket filter that holds ["a"], exported and imported. *)
Lemma json_round_trip_witness :
  let f := snd (CuckooFilter.add Demo.xxh64 Demo.random Demo.small "a" false false) in
  (exists k, 0 <= k <= 31 /\ CuckooFilter._size f = 2 ^ k)
  /\ CuckooFilter.fromJSON Demo.seedrandom Demo.defaultSeed
       (CuckooFilter.saveAsJSON f)
     = Some f.
Proof.
  intros f.
  assert (H : exists k, 0 <= k <= 31 /\ CuckooFilter._size f = 2 ^ k)
    by (exists 2; split; [lia | reflexivity]).
  split; [exact H |].
  exact (proj1 (json_round_trip Demo.xxh64 Demo.seedrandom Demo.defaultSeed
                  f H)).
Defined.

(** The seed 42, assigned between insertions, reaches the filter pushed
    afterwards. *)
Lemma inner_seeds_agree_witness :
  let cs := [ScalableBloomFilter.Add "a"; ScalableBloomFilter.Add "b";
             ScalableBloomFilter.Add "c"; ScalableBloomFilter.SetSeed 42;
             ScalableBloomFilter.Add "d"] in
  let f :=
    ScalableBloomFilter.run Demo.allocate Demo.insert Demo.load
      Demo.seedrandom Demo.defaultSeed
      (ScalableBloomFilter.constructor Demo.allocate Demo.seedrandom
         Demo.defaultSeed 8 (1 # 100) (1 # 2)) cs in
  let p :=
    PartitionBloomFilter.mk (8 * ScalableBloomFilter._s ^ 2 * LN2)%Q
      ((1 # 100) * (1 # 2) ^ 1)%Q (1 # 2)%Q 42 42%nat ["d"] in
  ScalableBloomFilter._filters f !! 1%nat = Some p
  /\ ScalableBloomFilter._seed f = 42
  /\ PartitionBloomFilter._seed p = ScalableBloomFilter._seed f.
Proof.
  intros cs f p.
  assert (H : ScalableBloomFilter._filters f !! 1%nat = Some p)
    by reflexivity.
  split; [exact H |].
  destruct (inner_seeds_agree Demo.allocate Demo.insert Demo.load
              Demo.seedrandom Demo.defaultSeed 8 (1 # 100) (1 # 2) cs)
    as [Hs Hall].
  split; [exact Hs | exact (Hall 1%nat p H)].
Defined.

(** The fourth insertion meets a filter loaded at 3/4: a second filter is
    pushed, the first one stays as it was. *)
Lemma add_touches_last_only_witness :
  let f :=
    ScalableBloomFilter.run Demo.allocate Demo.insert Demo.load
      Demo.seedrandom Demo.defaultSeed Demo.scalable
      [ScalableBloomFilter.Add "a"; ScalableBloomFilter.Add "b";
       ScalableBloomFilter.Add "c"] in
  let p := PartitionBloomFilter.mk 8%Q (1 # 100)%Q (1 # 2)%Q 0 0%nat
             ["c"; "b"; "a"] in
  let f' := snd (ScalableBloomFilter.add Demo.allocate Demo.insert Demo.load
                   Demo.seedrandom Demo.defaultSeed "d" f) in
  last (ScalableBloomFilter._filters f) = Some p
  /\ ScalableBloomFilter.overloaded Demo.load f = true
  /\ List.length (ScalableBloomFilter._filters f') = 2%nat
  /\ ScalableBloomFilter._filters f' !! 0%nat = Some p.
Proof.
  intros f p f'.
  assert (H : last (ScalableBloomFilter._filters f) = Some p) by reflexivity.
  assert (Ho : ScalableBloomFilter.overloaded Demo.load f = true)
    by reflexivity.
  split; [exact H | split; [exact Ho |]].
  destruct (add_touches_last_only Demo.allocate Demo.insert Demo.load
              Demo.seedrandom Demo.defaultSeed f "d" p H) as (Hlen & Hold & _).
  rewrite Ho in Hlen.
  split; [exact Hlen |].
  refine (eq_trans (Hold 0%nat _) eq_refl). rewrite Hlen. simpl. lia.
Defined.

Lemma demo_member_insert (s : Z) (x : string) (st : Demo.store) :
  Demo.member s x (Demo.insert s x st) = true.
Proof. apply bool_decide_eq_true_2. left. Qed.

Lemma demo_member_mono (s : Z) (x y : string) (st : Demo.store) :
  Demo.member s y st = true -> Demo.member s y (Demo.insert s x st) = true.
Proof.
  unfold Demo.member, Demo.insert. intros H.
  apply bool_decide_eq_true_1 in H. apply bool_decide_eq_true_2. now right.
Qed.

(** ["a"] is found after five insertions, one filter pushed meanwhile. *)
Lemma scalable_has_added_witness :
  let xs := ["a"; "b"; "c"; "d"; "e"] in
  ScalableBloomFilter._filters Demo.scalable <> []
  /\ "a" ∈ xs
  /\ ScalableBloomFilter.has Demo.member "a"
       (ScalableBloomFilter.run Demo.allocate Demo.insert Demo.load
          Demo.seedrandom Demo.defaultSeed Demo.scalable
          (map ScalableBloomFilter.Add xs))
     = true.
Proof.
  intros xs.
  assert (H1 : ScalableBloomFilter._filters Demo.scalable <> [])
    by discriminate.
  assert (H2 : "a" ∈ xs) by left.
  split; [exact H1 | split; [exact H2 |]].
  exact (scalable_has_added Demo.allocate Demo.insert Demo.load
           Demo.seedrandom Demo.defaultSeed Demo.member
           demo_member_insert demo_member_mono Demo.scalable xs "a" H1 H2).
Defined.

(** The empty four-bucket filter does not hold ["a"]. *)
Lemma empty_filter_finds_nothing_witness :
  CuckooFilter.consistent Demo.small
  /\ CuckooFilter._fingerprintLength Demo.small <= 64
  /\ CuckooFilter._length Demo.small = 0
  /\ CuckooFilter.has Demo.xxh64 Demo.small "a" = Returned false
  /\ CuckooFilter.remove Demo.xxh64 Demo.small "a"
     = (Returned false, Demo.small).
Proof.
  assert (H1 : CuckooFilter._fingerprintLength Demo.small <= 64)
    by (simpl; lia).
  assert (H2 : CuckooFilter._length Demo.small = 0) by reflexivity.
  split; [exact demo_small_consistent | split; [exact H1 | split; [exact H2 |]]].
  exact (empty_filter_finds_nothing Demo.xxh64 Demo.small "a"
           demo_small_consistent H1 H2).
Defined.
